(** * simple-blog: the content pipeline of [main.go]

    A shallow embedding of the static site generator's build routine:
    the frontmatter parser, the tag mini-format, the notes tree builder,
    the heading renderer and the collector loops of [main], together with
    the parts of the Go standard library they call ([strings], [bytes],
    [bufio], [time], [sort], [path/filepath], [os]).  Go strings and byte
    slices are sequences of bytes; they are modelled by [string], whose
    characters are 8-bit. *)

From stdpp Require Import gmap strings list sorting.
From Stdlib Require Import ZArith Ascii DecimalString.

Local Open Scope Z_scope.
Local Open Scope string_scope.

(** ** Go values shared by the packages below *)

(** A Go [error] value; [None] of [option error] is [nil]. *)
Inductive error : Type :=
| Errorf (msg : string)
| SkipDir
| SkipAll.

#[global] Instance error_eq_dec : EqDecision error.
Proof. solve_decision. Defined.

(** The line feed ["\n"] and the double quote. *)
Definition nl : string := String "010" "".
Definition dquote : string := String "034" "".

(** ** Package [strings] (and the same functions of [bytes]) *)

Module strings.

(** [s[n:]] *)
Definition from (n : nat) (s : string) : string :=
  String.substring n (String.length s - n) s.

(** [s[:n]] *)
Definition upto (n : nat) (s : string) : string := String.substring 0 n s.

Definition HasPrefix (s prefix : string) : bool := String.prefix prefix s.

Definition HasSuffix (s suffix : string) : bool :=
  bool_decide (String.length suffix ≤ String.length s)%nat
  && bool_decide (from (String.length s - String.length suffix) s = suffix).

Definition TrimSuffix (s suffix : string) : string :=
  if HasSuffix s suffix
  then upto (String.length s - String.length suffix) s
  else s.

(** [Index] returns the byte offset of the first instance of [substr],
    or [-1]. *)
Definition Index (s substr : string) : Z :=
  match String.index 0 substr s with
  | Some i => Z.of_nat i
  | None => -1
  end.

(** [genSplit] with a non-empty separator: at most [n] cuts, the rest of
    the input unsplit in the last element. *)
Fixpoint genSplit (n : nat) (s sep : string) : list string :=
  match n with
  | O => [s]
  | S n' =>
      match String.index 0 sep s with
      | Some m => upto m s :: genSplit n' (from (m + String.length sep) s) sep
      | None => [s]
      end
  end.

(** [SplitN(s, sep, n)] for a non-empty [sep]: [n = 0] gives [nil], a
    negative [n] all the substrings, and [n] is capped by [len(s)+1]. *)
Definition SplitN (s sep : string) (n : Z) : list string :=
  if (n =? 0)%Z then []
  else if (n <? 0)%Z then genSplit (String.length s) s sep
  else genSplit (Z.to_nat (Z.min n (Z.of_nat (String.length s) + 1)) - 1) s sep.

Definition Split (s sep : string) : list string := SplitN s sep (-1).

Fixpoint Join (elems : list string) (sep : string) : string :=
  match elems with
  | [] => ""
  | [e] => e
  | e :: rest => e +:+ sep +:+ Join rest sep
  end.

(** [ReplaceAll] for a non-empty [old] (the program passes one quote
    character): the non-overlapping instances, left to right. *)
Fixpoint replace (fuel : nat) (s old new : string) : string :=
  match fuel with
  | O => s
  | S fuel' =>
      match String.index 0 old s with
      | Some i =>
          upto i s +:+ new
            +:+ replace fuel' (from (i + String.length old) s) old new
      | None => s
      end
  end.

Definition ReplaceAll (s old new : string) : string :=
  replace (String.length s) s old new.

Definition inCutset (cutset : string) (c : ascii) : bool :=
  bool_decide (c ∈ String.list_ascii_of_string cutset).

Fixpoint trimLeftASCII (s cutset : string) : string :=
  match s with
  | String c s' => if inCutset cutset c then trimLeftASCII s' cutset else s
  | EmptyString => s
  end.

Definition trimRightASCII (s cutset : string) : string :=
  String.rev (trimLeftASCII (String.rev s) cutset).

(** [Trim] for a cutset of ASCII characters, which Go trims byte by
    byte (the program's cutset is ["[]"]). *)
Definition Trim (s cutset : string) : string :=
  trimRightASCII (trimLeftASCII s cutset) cutset.

(** The string of the given bytes. *)
Definition bytes (l : list nat) : string :=
  String.string_of_list_ascii (ascii_of_nat <$> l).

(** The UTF-8 encodings of the code points of [unicode.IsSpace]:
    the six ASCII ones, U+0085, U+00A0, U+1680, U+2000..U+200A, U+2028,
    U+2029, U+202F, U+205F and U+3000. *)
Definition spaceRunes : list string :=
  bytes <$>
    [ [9]; [10]; [11]; [12]; [13]; [32]
    ; [194; 133]; [194; 160]; [225; 154; 128]
    ; [226; 128; 128]; [226; 128; 129]; [226; 128; 130]; [226; 128; 131]
    ; [226; 128; 132]; [226; 128; 133]; [226; 128; 134]; [226; 128; 135]
    ; [226; 128; 136]; [226; 128; 137]; [226; 128; 138]
    ; [226; 128; 168]; [226; 128; 169]; [226; 128; 175]
    ; [226; 129; 159]; [227; 128; 128] ]%nat.

(** The width of the space rune [s] starts with, if it starts with one,
    and of the one it ends with. *)
Definition leadingSpace (s : string) : option nat :=
  (λ found, String.length found.2)
    <$> list_find (λ r, HasPrefix s r = true) spaceRunes.

Definition trailingSpace (s : string) : option nat :=
  (λ found, String.length found.2)
    <$> list_find (λ r, HasSuffix s r = true) spaceRunes.

Fixpoint trimLeftSpace (fuel : nat) (s : string) : string :=
  match fuel with
  | O => s
  | S fuel' =>
      match leadingSpace s with
      | Some w => trimLeftSpace fuel' (from w s)
      | None => s
      end
  end.

Fixpoint trimRightSpace (fuel : nat) (s : string) : string :=
  match fuel with
  | O => s
  | S fuel' =>
      match trailingSpace s with
      | Some w => trimRightSpace fuel' (upto (String.length s - w) s)
      | None => s
      end
  end.

(** [TrimSpace]: leading and trailing white space, as defined by
    Unicode, removed.  Every space rune is at least one byte wide, so
    [len(s)] rounds are enough. *)
Definition TrimSpace (s : string) : string :=
  let s1 := trimLeftSpace (String.length s) s in
  trimRightSpace (String.length s1) s1.

Definition isASCII (s : string) : bool :=
  forallb (λ c, (nat_of_ascii c <? 128)%nat) (String.list_ascii_of_string s).

Definition lowerByte (c : ascii) : ascii :=
  let n := nat_of_ascii c in
  if ((65 <=? n) && (n <=? 90))%nat then ascii_of_nat (n + 32) else c.

Fixpoint mapBytes (f : ascii → ascii) (s : string) : string :=
  match s with
  | String c s' => String (f c) (mapBytes f s')
  | EmptyString => EmptyString
  end.

(** [ToLower]: the ASCII path lowers ['A'..'Z'] byte by byte; any other
    string goes through [Map(unicode.ToLower, s)], whose case tables
    are left to the parameter [unicodeLower]. *)
Definition ToLower (unicodeLower : string → string) (s : string) : string :=
  if isASCII s then mapBytes lowerByte s else unicodeLower s.

End strings.

(** ** Package [bufio]: a [Scanner] with the default [ScanLines] split *)

Module bufio.

Definition MaxScanTokenSize : Z := 64 * 1024.

(** [dropCR] drops a terminal ["\r"]. *)
Definition dropCR (data : string) : string :=
  strings.TrimSuffix data (String "013" "").

(** The tokens successive calls of [Scan] return until it reports
    [false]: at the end of the input, or with [ErrTooLong] at a line
    that does not fit the buffer of [MaxScanTokenSize] bytes. *)
Fixpoint scan (fuel : nat) (data : string) : list string :=
  match fuel with
  | O => []
  | S fuel' =>
      if bool_decide (data = "") then []
      else
        match String.index 0 nl data with
        | Some i =>
            if (Z.of_nat i <? MaxScanTokenSize)%Z
            then dropCR (strings.upto i data)
                   :: scan fuel' (strings.from (i + 1) data)
            else []
        | None =>
            if (Z.of_nat (String.length data) <? MaxScanTokenSize)%Z
            then [dropCR data]
            else []
        end
  end.

Definition Lines (data : string) : list string :=
  scan (S (String.length data)) data.

End bufio.

(** ** Package [time]

    Every [time.Time] of the program is either the zero [Time] or the
    result of [time.Parse] with the layout ["2006-01-02"]: midnight UTC of
    a calendar day.  The model keeps that calendar day; [After] compares
    instants, which for such values is the comparison of the days. *)

Module time.

Record Time : Type := Date { Year : Z; Month : Z; Day : Z }.

#[global] Instance Time_eq_dec : EqDecision Time.
Proof. solve_decision. Defined.

(** [Time{}]: January 1, year 1, 00:00:00 UTC. *)
Definition zero : Time := Date 1 1 1.

Definition After (t u : Time) : bool :=
  (Year u <? Year t)%Z
  || ((Year u =? Year t)%Z
      && ((Month u <? Month t)%Z
          || ((Month u =? Month t)%Z && (Day u <? Day t)%Z))).

Definition isLeap (year : Z) : bool :=
  (year mod 4 =? 0)%Z && (negb (year mod 100 =? 0)%Z || (year mod 400 =? 0)%Z).

Definition daysIn (m year : Z) : Z :=
  match m with
  | 2 => if isLeap year then 29 else 28
  | 4 | 6 | 9 | 11 => 30
  | _ => 31
  end.

Definition isDigit (c : ascii) : bool :=
  let n := nat_of_ascii c in ((48 <=? n) && (n <=? 57))%nat.

Definition digit (c : ascii) : Z := Z.of_nat (nat_of_ascii c) - 48.

(** The value of a run of decimal digits, most significant first. *)
Definition atoi (cs : list ascii) : option Z :=
  if forallb isDigit cs
  then Some (foldl (λ acc c, 10 * acc + digit c) 0 cs)
  else None.

(** [getnum(s, true)]: exactly two digits, and the rest of the input. *)
Definition getnum (cs : list ascii) : option (Z * list ascii) :=
  match cs with
  | a :: b :: rest =>
      if isDigit a && isDigit b then Some (10 * digit a + digit b, rest)
      else None
  | _ => None
  end.

Definition skipDash (cs : list ascii) : option (list ascii) :=
  match cs with
  | c :: rest => if bool_decide (c = "-"%char) then Some rest else None
  | [] => None
  end.

Definition errParse : error := Errorf "parsing time".

(** [Parse("2006-01-02", value)]: a four-digit year, a two-digit month
    in 1..12 and a two-digit day of that month, with ["-"] between and
    nothing after; the zero [Time] and an error otherwise. *)
Definition Parse (value : string) : Time * option error :=
  let cs := String.list_ascii_of_string value in
  let parsed :=
    year ← atoi (take 4 cs);
    guard (length (take 4 cs) = 4%nat);;
    cs ← skipDash (drop 4 cs);
    '(month, cs) ← getnum cs;
    guard (1 ≤ month ≤ 12)%Z;;
    cs ← skipDash cs;
    '(day, cs) ← getnum cs;
    guard (cs = []);;
    guard (1 ≤ day ≤ daysIn month year)%Z;;
    Some (Date year month day) in
  match parsed with
  | Some t => (t, None)
  | None => (zero, Some errParse)
  end.

(** [Month.String()], of which [Format] takes the first three bytes. *)
Definition monthAbbrev (m : Z) : string :=
  match m with
  | 1 => "Jan" | 2 => "Feb" | 3 => "Mar" | 4 => "Apr"
  | 5 => "May" | 6 => "Jun" | 7 => "Jul" | 8 => "Aug"
  | 9 => "Sep" | 10 => "Oct" | 11 => "Nov" | 12 => "Dec"
  | _ => "%!M"
  end.

Fixpoint zeros (n : nat) : string :=
  match n with O => "" | S n' => String "0" (zeros n') end.

(** [appendInt]: the decimal form of [x], zero-padded to [width]. *)
Definition appendInt (x : Z) (width : nat) : string :=
  let digits := NilZero.string_of_uint (N.to_uint (Z.to_N (Z.abs x))) in
  (if (x <? 0)%Z then "-" else "")
    +:+ zeros (width - String.length digits) +:+ digits.

(** [t.Format("Jan 02, 2006")] *)
Definition Format (t : Time) : string :=
  monthAbbrev (Month t) +:+ " " +:+ appendInt (Day t) 2
    +:+ ", " +:+ appendInt (Year t) 4.

End time.

(** ** Package [path/filepath], on slash-separated relative paths *)

Module filepath.

(** [Join(dir, name)] for a clean [dir] and a directory entry's name. *)
Definition Join (dir name : string) : string := dir +:+ "/" +:+ name.

Definition elements (path : string) : list string :=
  filter (λ e, e ≠ "") (strings.Split path "/").

(** [Base]: the last element of the path, ["."] for the empty path. *)
Definition Base (path : string) : string :=
  if bool_decide (path = "") then "."
  else default "/" (last (elements path)).

Fixpoint stripCommon (base targ : list string) : list string * list string :=
  match base, targ with
  | b :: base', t :: targ' =>
      if bool_decide (b = t) then stripCommon base' targ' else (base, targ)
  | _, _ => (base, targ)
  end.

(** [Rel(basepath, targpath)] for paths without ["."] and [".."]
    elements: one [".."] for each element of the base that the target
    leaves, then the rest of the target. *)
Definition Rel (basepath targpath : string) : string :=
  let '(b, t) := stripCommon (elements basepath) (elements targpath) in
  match (((λ _, "..") <$> b) ++ t)%list with
  | [] => "."
  | es => strings.Join es "/"
  end.

(** One element more of a path that [Clean] goes through; [kept] holds
    the elements kept so far, the last one first. *)
Definition cleanStep (kept : list string) (e : string) : list string :=
  if bool_decide (e = "") || bool_decide (e = ".") then kept
  else if bool_decide (e = "..") then
    match kept with
    | [] => [".."]
    | before :: kept' =>
        if bool_decide (before = "..") then ".." :: kept else kept'
    end
  else e :: kept.

(** The elements of [Clean(path)] for a relative [path]: empty elements
    and ["."] are dropped, and [".."] takes the element before it away,
    or stays when there is none to take. *)
Definition cleaned (path : string) : list string :=
  reverse (foldl cleanStep [] (strings.Split path "/")).

End filepath.

(** ** Package [os]: the files the build reads

    The working directory is a tree; a directory lists its entries sorted
    by name, as [os.ReadDir] and [filepath.Walk] present them.  A file
    that cannot be read and a directory that cannot be listed carry the
    error instead. *)

#[warnings="-register-all"]
Inductive FSNode : Type :=
| File (data : string + error)
| Directory (entries : list (string * FSNode) + error).

Module os.

Definition IsDir (n : FSNode) : bool :=
  match n with Directory _ => true | File _ => false end.

Definition find (name : string) (entries : list (string * FSNode))
  : option FSNode :=
  (λ found, found.2.2) <$> list_find (λ e, e.1 = name) entries.

Fixpoint lookup (n : FSNode) (elems : list string) : option FSNode :=
  match elems with
  | [] => Some n
  | e :: elems' =>
      match n with
      | Directory (inl entries) =>
          match find e entries with
          | Some n' => lookup n' elems'
          | None => None
          end
      | _ => None
      end
  end.

Definition ErrNotExist : error := Errorf "no such file or directory".
Definition ErrIsDir : error := Errorf "is a directory".

(** [os.ReadFile(path)] in the working directory [root]. *)
Definition ReadFile (root : FSNode) (path : string) : string + error :=
  match lookup root (filepath.elements path) with
  | Some (File data) => data
  | Some (Directory _) => inr ErrIsDir
  | None => inr ErrNotExist
  end.

(** *** What the build writes

    [main] removes [public] and makes it anew; from then on the tree
    under [public] holds what the build has put there.  A path is held
    as the elements of its cleaned form.  The file system is taken to
    set no limits of its own (on the length of names, on space, on
    permissions): an operation fails for what the tree holds, or for a
    NUL byte in the path.  The tree starts from [public] alone: what
    lies beside it is not in the tree, and a file whose path leaves
    [public] is none of the site and counts as one that cannot be
    created. *)
Inductive Made : Type := Folder | Regular.

#[global] Instance Made_eq_dec : EqDecision Made.
Proof. solve_decision. Defined.

Definition Tree : Type := gmap (list string) Made.

(** [os.RemoveAll("public")], then [os.MkdirAll("public", 0755)]. *)
Definition fresh : Tree := {[ ["public"] := Folder ]}.

Definition hasNul (e : string) : bool :=
  existsb (λ c, bool_decide (c = "000"%char)) (String.list_ascii_of_string e).

(** [os.MkdirAll(path, 0755)], whose error every call of [main] drops:
    the missing directories are made from the top, as far as a regular
    file, or a name that cannot be, lets them. *)
Fixpoint mkdirFrom (base rest : list string) (t : Tree) : Tree :=
  match rest with
  | [] => t
  | e :: rest' =>
      let dir := (base ++ [e])%list in
      if hasNul e then t
      else
        match t !! dir with
        | Some Regular => t
        | Some Folder => mkdirFrom dir rest' t
        | None => mkdirFrom dir rest' (<[dir := Folder]> t)
        end
  end.

Definition MkdirAll (t : Tree) (path : list string) : Tree :=
  mkdirFrom [] path t.

(** A file can be opened for writing when its directory is there and it
    is no directory itself. *)
Definition creatable (t : Tree) (file : list string) : bool :=
  negb (existsb hasNul file)
  && bool_decide (t !! removelast file = Some Folder)
  && negb (bool_decide (t !! file = Some Folder)).

Definition ErrCreate : error := Errorf "open: the file cannot be created".

(** [os.Create(name)], and the opening of [os.WriteFile(name, data, 0644)]. *)
Definition Create (t : Tree) (file : list string) : Tree + error :=
  if creatable t file then inl (<[file := Regular]> t) else inr ErrCreate.

End os.

(** ** The data model of [main.go] *)

(** [NoteNode] represents a file or folder in the notes tree. *)
#[warnings="-register-all"]
Inductive NoteNode : Type :=
  mkNoteNode {
    Name : string;
    URL : string;
    IsDir : bool;
    Children : list NoteNode;
    Title : string
  }.

(** [Post] represents a blog post. *)
Record Post : Type :=
  mkPost {
    post_Title : string;
    post_Description : string;
    post_Date : time.Time;
    post_Tags : list string;
    post_Content : string;
    post_URL : string;
    post_Slug : string
  }.

#[global] Instance Post_eq_dec : EqDecision Post.
Proof. solve_decision. Defined.

(** [Post{}] *)
Definition zeroPost : Post := mkPost "" "" time.zero [] "" "" "".

(** The fields of [Config] the build reads, as [config.json] or the
    defaults set them. *)
Record Config : Type :=
  mkConfig {
    cfg_Title : string;
    cfg_Description : string;
    cfg_BaseURL : string;
    cfg_HomeContent : string
  }.

(** [goldmark.Markdown]: [Convert] writes HTML for a source into a
    buffer and may stop with an error; the result is what the buffer
    holds afterwards, and the error. *)
Record Markdown : Type :=
  { Convert : string → string * option error }.

(** A [map[string]string] that may be [nil]; reading a missing key, or
    any key of the [nil] map, gives [""]. *)
Definition meta_map : Type := option (gmap string string).

Definition get (meta : meta_map) (key : string) : string :=
  default "" (meta ≫= (.!! key)).

(** ** Meta parsing helper *)

Definition delimiter : string := "---" +:+ nl.

(** One turn of the scanner loop of [parseFrontmatter]. *)
Definition parseLine (meta : gmap string string) (line : string)
  : gmap string string :=
  let idx := strings.Index line ":" in
  if (idx >? 0)%Z then
    let key := strings.TrimSpace (strings.upto (Z.to_nat idx) line) in
    let val := strings.TrimSpace (strings.from (Z.to_nat (idx + 1)) line) in
    <[key := val]> meta
  else meta.

Definition parseFrontmatter (content : string)
  : meta_map * string * option error :=
  if negb (strings.HasPrefix content delimiter) then (None, content, None)
  else
    let parts := strings.SplitN content delimiter 3 in
    if (Z.of_nat (length parts) <? 3)%Z then
      (None, content, Some (Errorf "invalid frontmatter format"))
    else
      let meta := foldl parseLine ∅ (bufio.Lines (parts !!! 1%nat)) in
      (Some meta, parts !!! 2%nat, None).

(** ** The tag mini-format

    The block that [processMarkdownFile] and the two tag-reading walks of
    [main] each carry: the tokens of [meta["tags"]]. *)

Definition tagTokens (tags : string) : list string :=
  let tagStr := strings.Trim tags "[]" in
  let tagStr := strings.ReplaceAll tagStr dquote "" in
  let tagStr := strings.ReplaceAll tagStr "'" "" in
  strings.Split tagStr ",".

Definition parseTags (meta : meta_map) : list string :=
  if bool_decide (get meta "tags" ≠ "") then
    foldl (λ tags t,
             let t := strings.TrimSpace t in
             if bool_decide (t ≠ "") then tags ++ [t] else tags)%list
          [] (tagTokens (get meta "tags"))
  else [].

(** ** [filepath.Walk] *)

Record FileInfo : Type := { info_Name : string; info_IsDir : bool }.

Section Walk.

Context {St : Type}.

(** A [WalkFunc] closure: the path, the [FileInfo] ([nil] when the
    root cannot be found), the error of reading the path, and the
    variables the closure captures, before and after the call. *)
Definition WalkFunc : Type :=
  string → option FileInfo → option error → St → St * option error.

Variable walkFn : WalkFunc.

(** The loop of [walk] over the sorted names of a directory; [visit]
    is the recursive call. *)
Section names.

Variable visit : string → FSNode → St → St * option error.
Variable path : string.

Fixpoint walkNames (names : list (string * FSNode)) (st : St)
  : St * option error :=
  match names with
  | [] => (st, None)
  | (name, child) :: names' =>
      let filename := filepath.Join path name in
      let '(st', err) := visit filename child st in
      match err with
      | Some e =>
          if negb (os.IsDir child) || bool_decide (e ≠ SkipDir)
          then (st', Some e)
          else walkNames names' st'
      | None => walkNames names' st'
      end
  end.

End names.

Fixpoint walk (path : string) (n : FSNode) (st : St) : St * option error :=
  let info := {| info_Name := filepath.Base path; info_IsDir := os.IsDir n |} in
  match n with
  | File _ => walkFn path (Some info) None st
  | Directory entries =>
      let err := match entries with inr e => Some e | inl _ => None end in
      let '(st1, err1) := walkFn path (Some info) err st in
      match entries, err1 with
      | inl names, None => walkNames walk path names st1
      | _, _ => (st1, err1)
      end
  end.

(** [filepath.Walk(root, fn)] in the working directory [wd]. *)
Definition Walk (wd : FSNode) (root : string) (st : St) : St * option error :=
  let '(st', err) :=
    match os.lookup wd (filepath.elements root) with
    | None => walkFn root None (Some os.ErrNotExist) st
    | Some n => walk root n st
    end in
  match err with
  | Some SkipDir | Some SkipAll => (st', None)
  | _ => (st', err)
  end.

End Walk.

Arguments WalkFunc : clear implicits.

(** ** Package [sort] *)

(** The [less] closure of every [sort.Slice] call of [main]:
    [x[i].Date.After(x[j].Date)], newest first. *)
Definition newestFirst (p q : Post) : bool :=
  time.After (post_Date p) (post_Date q).

(** No post is followed by one that [less] puts before it. *)
Definition sortedBy (less : Post → Post → bool) (x : list Post) : Prop :=
  StronglySorted (λ p q, less q p = false) x.

Module sort.

(** [sort.Slice(x, less)] with [newestFirst] as [less], by its
    contract: the slice is rearranged into an order that [less] agrees
    with.  The package documents that the sort is not guaranteed to be
    stable, so nothing is promised about elements neither of which is
    less than the other. *)
Class Sorter : Type :=
  { Slice : list Post → list Post;
    Slice_perm : ∀ x, Slice x ≡ₚ x;
    Slice_sorted : ∀ x, sortedBy newestFirst (Slice x) }.

(** [insertionSort_func], the algorithm [sort.Slice] runs on a slice of
    at most twelve elements: [data[j]] is swapped with [data[j-1]] as
    long as it is less.  [sink] works on the sorted part in reverse. *)
Section insertion.

Context {A : Type} (less : A → A → bool).

Fixpoint sink (x : A) (before : list A) : list A :=
  match before with
  | y :: before' =>
      if less x y then y :: sink x before' else x :: before
  | [] => [x]
  end.

Definition insertionSort (data : list A) : list A :=
  reverse (foldl (λ before x, sink x before) [] data).

End insertion.

End sort.

(** ** The build routine *)

(** One record of the search index: a [map[string]string] literal. *)
Definition searchItem (title url date content type tags : string)
  : gmap string string :=
  list_to_map
    [ ("title", title); ("url", url); ("date", date)
    ; ("content", content); ("type", type); ("tags", tags) ].

(** What one build hands to the templates and to the JSON encoder. *)
Record Site : Type :=
  mkSite {
    site_NotesTree : list NoteNode;
    site_HomeContent : string;
    site_Posts : list Post;
    site_PostPages : list (string * Post);
    site_NotePages : list (string * Post);
    site_Index : list Post;
    site_Tags : gmap string (list Post);
    site_Search : list (gmap string string);
    site_SitemapPosts : list Post;
    site_SitemapNotes : list Post;
    site_RSS : list Post
  }.

Section Build.

Context `{!sort.Sorter}.

(** The working directory, the markdown converter, the Unicode case
    mapping behind [strings.ToLower], and the configuration. *)
Variable wd : FSNode.
Variable md : Markdown.
Variable unicodeLower : string → string.
Variable cfg : Config.

Definition ToLower : string → string := strings.ToLower unicodeLower.

(** Helper to process markdown files *)
Definition processMarkdownFile (path outputRelPath baseURL : string)
  : Post * option error :=
  match os.ReadFile wd path with
  | inr err => (zeroPost, Some err)
  | inl data =>
      match parseFrontmatter data with
      | (_, _, Some err) => (zeroPost, Some err)
      | (meta, body, None) =>
          match Convert md body with
          | (_, Some err) => (zeroPost, Some err)
          | (html, None) =>
              let date := (time.Parse (get meta "date")).1 in
              let slug := strings.TrimSuffix (filepath.Base path) ".md" in
              let tags := parseTags meta in
              ({| post_Title := get meta "title";
                  post_Description := get meta "description";
                  post_Date := date;
                  post_Tags := tags;
                  post_Content := html;
                  post_Slug := slug;
                  post_URL := baseURL +:+ outputRelPath |}, None)
          end
      end
  end.

(** The loop of [buildNotesTree] over the entries of [root]; [build] is
    the recursive call and [nodes] the slice built so far. *)
Section entries.

Variable build : FSNode → string → list NoteNode + error.
Variable root baseUrl : string.

(** Skip hidden files, the images folder, and the special index file *)
Definition skipped (name : string) : bool :=
  strings.HasPrefix name "."
  || bool_decide (name = "images")
  || bool_decide (name = "_index.md").

Fixpoint eachEntry (entries : list (string * FSNode)) (nodes : list NoteNode)
  : list NoteNode + error :=
  match entries with
  | [] => inl nodes
  | (name, entry) :: entries' =>
      let path := filepath.Join root name in
      if skipped name then eachEntry entries' nodes
      else if os.IsDir entry then
        match build entry path with
        | inr err => inr err
        | inl children =>
            eachEntry entries'
              (nodes ++ [mkNoteNode name "" true children ""])%list
        end
      else if strings.HasSuffix name ".md" then
        match os.ReadFile wd path with
        | inr _ => eachEntry entries' nodes
        | inl data =>
            let '(meta, _, err) := parseFrontmatter data in
            let title :=
              if bool_decide (err = None)
                 && bool_decide (get meta "title" ≠ "")
              then get meta "title" else name in
            let relPath := filepath.Rel "notes" path in
            let urlPath := strings.TrimSuffix relPath ".md" in
            eachEntry entries'
              (nodes ++ [mkNoteNode name
                           (baseUrl +:+ "notes/" +:+ urlPath)
                           false [] title])%list
        end
      else eachEntry entries' nodes
  end.

End entries.

(** [buildNotesTree] recursively builds the notes structure; [dir] is
    what the working directory holds at [root]. *)
Fixpoint buildNotesTree (baseUrl : string) (dir : FSNode) (root : string)
  : list NoteNode + error :=
  match dir with
  | File _ => inr (Errorf "not a directory")
  | Directory (inr err) => inr err
  | Directory (inl entries) =>
      eachEntry (buildNotesTree baseUrl) root baseUrl entries []
  end.

Definition notesTree : list NoteNode + error :=
  match os.lookup wd ["notes"] with
  | Some dir => buildNotesTree (cfg_BaseURL cfg) dir "notes"
  | None => inr os.ErrNotExist
  end.

(** *** Read Homepage Content from notes/_index.md *)

Definition homeContent : string :=
  let home :=
    match os.ReadFile wd "notes/_index.md" with
    | inl homeData =>
        match parseFrontmatter homeData with
        | (_, homeBody, None) =>
            match Convert md homeBody with
            | (html, None) => html
            | (_, Some _) => cfg_HomeContent cfg
            end
        | (_, _, Some _) => cfg_HomeContent cfg
        end
    | inr _ => cfg_HomeContent cfg
    end in
  if bool_decide (home = "") then "<p>Welcome to my digital garden.</p>"
  else home.

(** *** Process posts *)

(** The files the post loop ranges over: the literal [[]string{}]. *)
Definition postFiles : list string := [].

(** The body of the post loop, on the slice [posts] and the pages
    written so far. *)
Definition postStep (st : list Post * list (string * Post)) (file : string)
  : list Post * list (string * Post) :=
  let '(posts, pages) := st in
  let slug := strings.TrimSuffix (filepath.Base file) ".md" in
  match processMarkdownFile file slug (cfg_BaseURL cfg) with
  | (_, Some _) => st
  | (post, None) =>
      let out := filepath.Join (filepath.Join "public" slug) "index.html" in
      (posts ++ [post], pages ++ [(out, post)])%list
  end.

Definition collectPosts : list Post * list (string * Post) :=
  foldl postStep ([], []) postFiles.

(** *** Process notes: the pages written and the assets copied

    The state of the walk: the pages written, the assets copied, and the
    tree under [public].  A page that cannot be created ends the walk
    with the error of [os.Create]; an asset that cannot be written is
    logged and passed over. *)

Definition processNote
  : WalkFunc (list (string * Post) * list (string * string) * os.Tree) :=
  λ path info err st,
    match err, info with
    | Some e, _ => (st, Some e)
    | None, None => (st, None)
    | None, Some info =>
        if info_IsDir info then (st, None)
        else
          let relPath := filepath.Rel "notes" path in
          if strings.HasSuffix path ".md" then
            if bool_decide (filepath.Base path = "_index.md") then (st, None)
            else
              let cleanRelPath := strings.TrimSuffix relPath ".md" in
              let outPath :=
                filepath.Join
                  (filepath.Join (filepath.Join "public" "notes") cleanRelPath)
                  "index.html" in
              let file := filepath.cleaned outPath in
              let public := os.MkdirAll st.2 (removelast file) in
              match processMarkdownFile path ("notes/" +:+ cleanRelPath)
                      (cfg_BaseURL cfg) with
              | (_, Some _) => (st.1, public, None)
              | (post, None) =>
                  match os.Create public file with
                  | inr e => (st.1, public, Some e)
                  | inl public =>
                      ((st.1.1 ++ [(outPath, post)])%list, st.1.2, public, None)
                  end
              end
          else
            let outPath :=
              filepath.Join (filepath.Join "public" "notes") relPath in
            let file := filepath.cleaned outPath in
            let public := os.MkdirAll st.2 (removelast file) in
            match os.ReadFile wd path with
            | inr _ => (st.1, public, None)
            | inl input =>
                match os.Create public file with
                | inr _ => (st.1, public, None)
                | inl public =>
                    (st.1.1, (st.1.2 ++ [(outPath, input)])%list, public, None)
                end
            end
    end.

(** The page walk, from the [public] that [main] has just made. *)
Definition pageWalk
  : list (string * Post) * list (string * string) * os.Tree * option error :=
  Walk processNote wd "notes" ([], [], os.fresh).

(** *** Generate tags pages *)

(** [tagsMap[strings.ToLower(t)] = append(tagsMap[strings.ToLower(t)], p)] *)
Definition indexTag (tagsMap : gmap string (list Post)) (t : string) (p : Post)
  : gmap string (list Post) :=
  <[ToLower t := ((tagsMap !!! ToLower t) ++ [p])%list]> tagsMap.

(** Collect tags from posts *)
Definition indexPost (tagsMap : gmap string (list Post)) (p : Post)
  : gmap string (list Post) :=
  foldl (λ m t, indexTag m t p) tagsMap (post_Tags p).

(** [data, _ := os.ReadFile(path)] *)
Definition readOrNil (path : string) : string :=
  match os.ReadFile wd path with inl data => data | inr _ => "" end.

Definition noteURL (path : string) : string :=
  let relPath := filepath.Rel "notes" path in
  cfg_BaseURL cfg +:+ "notes/" +:+ strings.TrimSuffix relPath ".md".

Definition noteTitle (meta : meta_map) (info : FileInfo) : string :=
  if bool_decide (get meta "title" = "") then info_Name info
  else get meta "title".

(** Is this an entry the tag and search walks read? *)
Definition isNote (path : string) (info : FileInfo) : bool :=
  negb (info_IsDir info) && strings.HasSuffix path ".md"
  && negb (bool_decide (filepath.Base path = "_index.md")).

(** The note as the tag pages list it. *)
Definition taggedNote (path : string) (info : FileInfo) : Post :=
  let '(meta, _, _) := parseFrontmatter (readOrNil path) in
  let dateStr := get meta "date" in
  let date := (time.Parse dateStr).1 in
  {| post_Title := noteTitle meta info;
     post_Description := get meta "description";
     post_Date := date;
     post_URL := noteURL path;
     post_Tags := []; post_Content := ""; post_Slug := "" |}.

(** Collect tags from notes *)
Definition collectNoteTags : WalkFunc (gmap string (list Post)) :=
  λ path info err tagsMap,
    match err, info with
    | Some e, _ => (tagsMap, Some e)
    | None, None => (tagsMap, None)
    | None, Some info =>
        if isNote path info then
          let '(meta, _, _) := parseFrontmatter (readOrNil path) in
          let p := taggedNote path info in
          if bool_decide (get meta "tags" ≠ "") then
            (foldl (λ m t,
                      let t := strings.TrimSpace t in
                      if bool_decide (t ≠ "") then indexTag m t p else m)
                   tagsMap (tagTokens (get meta "tags")), None)
          else (tagsMap, None)
        else (tagsMap, None)
    end.

(** Sort by date: the slice of each key as the loop over [tagsMap]
    sorts it, before the file of the key is created. *)
Definition tagSlices (tagsMap : gmap string (list Post))
  : gmap string (list Post) :=
  sort.Slice <$> tagsMap.

(** [filepath.Join("public", "tags", tag+".html")] *)
Definition tagFile (tag : string) : list string :=
  filepath.cleaned ("public" +:+ "/" +:+ "tags" +:+ "/" +:+ tag +:+ ".html").

(** The loop over [tagsMap]: the keys whose file [os.Create] opens, each
    with the sorted slice that [tag.html] is executed with; a key whose
    file cannot be created is passed over ([continue]).  The loop makes
    regular files only, so that the keys do not stand in each other's
    way, in whatever order the map is ranged over; and a file whose path
    leaves [public] is none of the site. *)
Definition tagPages (public : os.Tree) (tagsMap : gmap string (list Post))
  : gmap string (list Post) :=
  filter (λ page, os.creatable public (tagFile page.1) = true)
    (tagSlices tagsMap).

(** *** Generate search index *)

(** Add posts *)
Definition postSearchItem (p : Post) : gmap string string :=
  searchItem (post_Title p) (post_URL p) (time.Format (post_Date p))
    (post_Content p) "post" (strings.Join (post_Tags p) ",").

(** [formattedDate] and [date] of a note, from [meta["date"]]. *)
Definition noteDate (dateStr : string) : string * time.Time :=
  if bool_decide (dateStr ≠ "") then
    match time.Parse dateStr with
    | (t, None) => (time.Format t, t)
    | (_, Some _) => (dateStr, time.zero)
    end
  else ("", time.zero).

Definition noteSearchItem (path : string) (info : FileInfo)
  : gmap string string :=
  let '(meta, body, _) := parseFrontmatter (readOrNil path) in
  let html := (Convert md body).1 in
  searchItem (noteTitle meta info) (noteURL path)
    (noteDate (get meta "date")).1 html "note"
    (strings.Join (parseTags meta) ",").

(** The note as the sitemap and the feed list it. *)
Definition listedNote (path : string) (info : FileInfo) : Post :=
  let '(meta, _, _) := parseFrontmatter (readOrNil path) in
  {| post_Title := noteTitle meta info;
     post_URL := noteURL path;
     post_Date := (noteDate (get meta "date")).2;
     post_Description := get meta "description";
     post_Tags := []; post_Content := ""; post_Slug := "" |}.

(** Add notes *)
Definition searchNote : WalkFunc (list (gmap string string) * list Post) :=
  λ path info err st,
    match err, info with
    | Some e, _ => (st, Some e)
    | None, None => (st, None)
    | None, Some info =>
        if isNote path info then
          ((st.1 ++ [noteSearchItem path info])%list,
           (st.2 ++ [listedNote path info])%list, None)
        else (st, None)
    end.

(** *** [main], from the post loop to the feed *)

(** [os.Create(file)] as [main] calls it for [index.html] and
    [notes.html].  [main] ends the build when the file cannot be created
    ([log.Fatal]), which takes a directory standing at its path; the tree
    is then left as it is. *)
Definition created (public : os.Tree) (file : list string) : os.Tree :=
  match os.Create public file with inl public' => public' | inr _ => public end.

(** The tree under [public] when the tag pages are written: after the
    page walk, [index.html], [notes.html] and
    [os.MkdirAll("public/tags", 0755)]. *)
Definition publicAtTags : os.Tree :=
  let public := pageWalk.1.2 in
  let public := created public ["public"; "index.html"] in
  let public := created public ["public"; "notes.html"] in
  os.MkdirAll public ["public"; "tags"].

(** What the build puts into the site.  The files that [main] creates
    directly under [public] ([index.html], [notes.html], the search
    index, the sitemap, the feed) are taken to be writable: a failure to
    create one ends the build. *)
Definition main : Site :=
  let '(posts, postPages) := collectPosts in
  let st := pageWalk.1 in
  let posts := sort.Slice posts in
  let tagsMap := foldl indexPost ∅ posts in
  let tagsMap := (Walk collectNoteTags wd "notes" tagsMap).1 in
  let allSearchItems := postSearchItem <$> posts in
  let '(allSearchItems, allNotes) :=
    (Walk searchNote wd "notes" (allSearchItems, [])).1 in
  let allContent := sort.Slice (posts ++ allNotes)%list in
  {| site_NotesTree := match notesTree with inl nodes => nodes | inr _ => [] end;
     site_HomeContent := homeContent;
     site_Posts := posts;
     site_PostPages := postPages;
     site_NotePages := st.1.1;
     site_Index := posts;
     site_Tags := tagPages publicAtTags tagsMap;
     site_Search := allSearchItems;
     site_SitemapPosts := posts;
     site_SitemapNotes := allNotes;
     site_RSS := allContent |}.

End Build.

(** ** The heading renderer *)

(** The value of a node attribute, an [interface{}]: goldmark stores
    [[]byte] for the ids it generates; other code may store a [string]
    or a value of another type. *)
Inductive AttrValue : Type :=
| BytesValue (v : string)
| StringValue (v : string)
| OtherValue.

(** [ast.Heading]: the level and the attributes ([nil] is [[]]). *)
Record Heading : Type :=
  { Level : Z; Attributes : list (string * AttrValue) }.

(** [n.Attribute(name)]: the value of the first attribute of that name. *)
Definition Attribute (n : Heading) (name : string) : option AttrValue :=
  (λ found, found.2.2) <$> list_find (λ a, a.1 = name) (Attributes n).

(** ["0123456"[level]]; indexing out of range panics. *)
Definition levelByte (level : Z) : option string :=
  if (level <? 0)%Z then None
  else (λ c, String c "") <$>
         String.list_ascii_of_string "0123456" !! Z.to_nat level.

(** The copy button [fmt.Sprintf] builds around [link]. *)
Definition btnHTML (link : string) : string :=
  " <button class=" +:+ dquote +:+ "copy-link-btn" +:+ dquote
    +:+ " aria-label=" +:+ dquote +:+ "Copy link to this section" +:+ dquote
    +:+ " onclick=" +:+ dquote +:+ "copyToClipboard('" +:+ link
    +:+ "', this)" +:+ dquote +:+ "><i class=" +:+ dquote
    +:+ "fa-solid fa-link" +:+ dquote +:+ "></i></button>".

Section HeadingRenderer.

(** What [html.RenderAttributes] writes for a heading's attributes. *)
Variable RenderAttributes : list (string * AttrValue) → string.

(** [renderHeading] on the writer [w], the sequence of the writes made
    so far; [None] is a panic. *)
Definition renderHeading (w : list string) (n : Heading) (entering : bool)
  : option (list string) :=
  if entering then
    let w := (w ++ ["<h"])%list in
    d ← levelByte (Level n);
    let w := (w ++ [d])%list in
    let w :=
      if bool_decide (Attributes n ≠ [])
      then (w ++ [RenderAttributes (Attributes n)])%list else w in
    Some (w ++ [">"])%list
  else
    let w :=
      match Attribute n "id" with
      | Some idAttr =>
          let id :=
            match idAttr with
            | BytesValue v => v
            | StringValue v => v
            | OtherValue => ""
            end in
          if bool_decide (id ≠ "")
             && (bool_decide (Level n = 2) || bool_decide (Level n = 3))
          then (w ++ [btnHTML ("#" +:+ id)])%list
          else w
      | None => w
      end in
    let w := (w ++ ["</h"])%list in
    d ← levelByte (Level n);
    Some (w ++ [d; ">"])%list.

(** A heading as the renderer walks it: entered, then its children
    (writing [inner]), then left. *)
Definition renderHeadingNode (w : list string) (n : Heading)
    (inner : list string) : option (list string) :=
  w ← renderHeading w n true;
  renderHeading (w ++ inner) n false.

End HeadingRenderer.

(** * Specification

    The words the properties below are stated in, and the examples they
    are tried on. *)

(** ** Frontmatter lines *)

(** The key and the value a line is read as: what stands before and
    after its first [":"], trimmed. *)
Definition lineKey (line : string) : string :=
  strings.TrimSpace (strings.upto (Z.to_nat (strings.Index line ":")) line).

Definition lineVal (line : string) : string :=
  strings.TrimSpace (strings.from (Z.to_nat (strings.Index line ":" + 1)) line).

(** The lines of the frontmatter block that the scanner delivers. *)
Definition blockLines (content : string) : list string :=
  bufio.Lines (strings.SplitN content delimiter 3 !!! 1%nat).

(** ** The notes tree *)

(** The names of a node and of the nodes below it, at any depth. *)
Fixpoint nodeNames (n : NoteNode) : list string :=
  match n with
  | mkNoteNode name _ _ children _ =>
      name :: (fix below (children : list NoteNode) : list string :=
                 match children with
                 | [] => []
                 | child :: children' => nodeNames child ++ below children'
                 end)%list children
  end.

Definition treeNames (nodes : list NoteNode) : list string :=
  concat (nodeNames <$> nodes).

(** The names the tree must not show. *)
Definition hiddenName (name : string) : Prop :=
  name = "images" ∨ name = "_index.md" ∨ ∃ rest, name = "." +:+ rest.

(** The directory without its entries of such names, at any depth. *)
Fixpoint prune (n : FSNode) : FSNode :=
  match n with
  | Directory (inl entries) =>
      Directory (inl
        ((fix each (entries : list (string * FSNode)) :=
            match entries with
            | [] => []
            | (name, child) :: entries' =>
                if skipped name then each entries'
                else (name, prune child) :: each entries'
            end) entries))
  | _ => n
  end.

(** ** Headings *)

(** The heading was assigned the non-empty id [id]. *)
Definition assignedId (n : Heading) (id : string) : Prop :=
  id ≠ ""
  ∧ (Attribute n "id" = Some (BytesValue id)
     ∨ Attribute n "id" = Some (StringValue id)).

(** The string the renderer holds as the id when it leaves a heading:
    empty when there is no id attribute or its value is no text. *)
Definition headingId (n : Heading) : string :=
  match Attribute n "id" with
  | Some (BytesValue v) | Some (StringValue v) => v
  | Some OtherValue | None => ""
  end.

(** The writes that close a heading of level digit [d]. *)
Definition closingTag (d : string) : list string := ["</h"; d; ">"].

(** ** Search records *)

(** The six fields of a search record. *)
Definition searchFields : gset string :=
  {[ "title"; "url"; "date"; "content"; "type"; "tags" ]}.

(** A date as [Format] writes one. *)
Definition humanDate (date : string) : Prop := ∃ t, date = time.Format t.

(** The fields of the record [r]. *)
Definition hasFields (r : gmap string string)
    (title url date content type tags : string) : Prop :=
  dom r = searchFields
  ∧ r !! "title" = Some title ∧ r !! "url" = Some url
  ∧ r !! "date" = Some date ∧ r !! "content" = Some content
  ∧ r !! "type" = Some type ∧ r !! "tags" = Some tags.

(** ** Listings and tag pages *)





(** ** Reading the working directory *)

(** Two working directories hold the same things under [notes]. *)
Definition sameNotes (wd wd' : FSNode) : Prop :=
  ∀ rest, os.lookup wd ("notes" :: rest) = os.lookup wd' ("notes" :: rest).

(** The paths the note walks reach: [notes] and what lies below it. *)
Definition underNotes (path : string) : Prop :=
  path = "notes" ∨ ∃ rest, path = "notes/" +:+ rest.

(** ** Example documents and a working directory *)

(** The frontmatter of the README, and then a body. *)
Definition readmeDocument : string :=
  delimiter
    +:+ "title: " +:+ dquote +:+ "My Post Title" +:+ dquote +:+ nl
    +:+ "date: 2026-01-01" +:+ nl
    +:+ "tags: [" +:+ dquote +:+ "go" +:+ dquote +:+ ", "
    +:+ dquote +:+ "web" +:+ dquote +:+ "]" +:+ nl
    +:+ delimiter
    +:+ "# Hi" +:+ nl.

(** Three spellings of the tags go and web, as values of [meta["tags"]]. *)
Definition tagsDoubleQuoted : string :=
  "[" +:+ dquote +:+ "go" +:+ dquote +:+ "," +:+ dquote +:+ "web" +:+ dquote +:+ "]".

Definition tagsBare : string := "[go, web]".

Definition tagsSingleQuoted : string := "'go', 'web'".

(** A document whose frontmatter has the line [tags: <value>]. *)
Definition taggedDocument (value : string) : string :=
  delimiter +:+ "tags: " +:+ value +:+ nl +:+ delimiter +:+ "text" +:+ nl.

(** A converter that passes the source through. *)
Definition plainMarkdown : Markdown := {| Convert := λ source, (source, None) |}.

(** A document with the given frontmatter lines and a short body. *)
Definition document (lines : list string) : string :=
  delimiter +:+ strings.Join lines nl +:+ nl +:+ delimiter +:+ "text" +:+ nl.

(** A working directory with posts under [content/] and notes under
    [notes/]. *)
Definition exampleDir : FSNode :=
  Directory (inl
    [ ("content", Directory (inl
        [ ("ancient.md", File (inl (document ["title: Ancient"; "date: 0000-06-15"])))
        ; ("first.md", File (inl (document ["title: First"; "date: 2024-01-01"])))
        ; ("second.md", File (inl (document ["title: Second"; "date: 2024-03-01"])))
        ; ("twin.md", File (inl (document ["title: Twin"; "date: 2024-03-01"])))
        ; ("undated.md", File (inl (document ["title: Undated"]))) ]))
    ; ("notes", Directory (inl
        [ (".obsidian", Directory (inl [("app.json", File (inl "{}"))]))
        ; ("_index.md", File (inl "Welcome."))
        ; ("garden", Directory (inl
            [ ("images", Directory (inl [("leaf.png", File (inl "PNG"))]))
            ; ("soil.md", File (inl (document ["title: Soil"; "tags: a, b"]))) ]))
        ; ("images", Directory (inl [("logo.png", File (inl "PNG"))]))
        ; ("plan.md", File (inl (document ["title: Plan"; "date: tomorrow"; "tags: [plan]"])))
        ; ("x.md", File (inl (document ["title: X"; "date: 2023-10-27"]))) ])) ]).

(** The default configuration. *)
Definition exampleCfg : Config :=
  {| cfg_Title := "Minimal Go Blog";
     cfg_Description := "A static blog generated with Go.";
     cfg_BaseURL := "/";
     cfg_HomeContent := "" |}.

(** ** Induction on file trees *)

(** Induction on a file tree, with the hypothesis for every entry of a
    directory. *)
Section FSNode_induction.

Variable P : FSNode → Prop.
Hypothesis P_File : ∀ data, P (File data).
Hypothesis P_unreadable : ∀ err, P (Directory (inr err)).
Hypothesis P_Directory :
  ∀ entries, Forall (λ e, P e.2) entries → P (Directory (inl entries)).

Fixpoint FSNode_nested_ind (n : FSNode) : P n :=
  match n with
  | File data => P_File data
  | Directory (inr err) => P_unreadable err
  | Directory (inl entries) =>
      P_Directory entries
        ((fix all (entries : list (string * FSNode))
            : Forall (λ e, P e.2) entries :=
            match entries with
            | [] => @List.Forall_nil _ (λ e, P e.2)
            | (name, child) :: entries' =>
                @List.Forall_cons _ (λ e, P e.2) (name, child) entries'
                  (FSNode_nested_ind child) (all entries')
            end) entries)
  end.

End FSNode_induction.

(** ** Notions the further properties speak of *)

(** The string neither begins nor ends with white space. *)
Definition trimmed (s : string) : Prop :=
  ∀ r, r ∈ strings.spaceRunes →
       strings.HasPrefix s r = false ∧ strings.HasSuffix s r = false.

(** The bytes of a string. *)
Definition chars (s : string) : list ascii := String.list_ascii_of_string s.

(** A node and the nodes below it, at any depth. *)
Fixpoint descendants (n : NoteNode) : list NoteNode :=
  match n with
  | mkNoteNode _ _ _ children _ =>
      n :: (fix below (children : list NoteNode) : list NoteNode :=
              match children with
              | [] => []
              | child :: children' => descendants child ++ below children'
              end)%list children
  end.

Definition treeNodes (nodes : list NoteNode) : list NoteNode :=
  concat (descendants <$> nodes).

(** A folder has no URL and no title; a file has no children, a name
    that ends in [.md], a title, and a URL under [notes/]. *)
Definition folderOrNote (baseUrl : string) (n : NoteNode) : Prop :=
  if IsDir n then URL n = "" ∧ Title n = ""
  else Children n = []
       ∧ strings.HasSuffix (Name n) ".md" = true
       ∧ Title n ≠ ""
       ∧ strings.HasPrefix (URL n) (baseUrl +:+ "notes/") = true.

(** A call that returns a value and no error. *)
Definition succeeds {A : Type} (r : A + error) : Prop := ∃ a, r = inl a.

#[global] Instance succeeds_dec {A : Type} (r : A + error) : Decision (succeeds r).
Proof.
  destruct r as [a|err]; [left; by exists a | right; by intros [? ?]].
Defined.

(** The entries of a directory that become nodes: the visible folders
    and the visible markdown files that can be read. *)
Definition listed (wd : FSNode) (root : string) (e : string * FSNode) : bool :=
  negb (skipped e.1)
  && (os.IsDir e.2
      || (strings.HasSuffix e.1 ".md"
          && bool_decide (succeeds (os.ReadFile wd (filepath.Join root e.1))))).

(** Every folder that the builder enters can be listed. *)
Fixpoint listable (n : FSNode) : bool :=
  match n with
  | File _ => false
  | Directory (inr _) => false
  | Directory (inl entries) =>
      (fix all (entries : list (string * FSNode)) : bool :=
         match entries with
         | [] => true
         | (name, child) :: entries' =>
             (skipped name || negb (os.IsDir child) || listable child)
             && all entries'
         end) entries
  end.

(** The nodes the loop appends stand, one for one and in order, for the
    listed entries; a folder's children are the tree of the folder. *)
Definition standsFor (build : FSNode → string → list NoteNode + error)
    (root : string) (node : NoteNode) (e : string * FSNode) : Prop :=
  Name node = e.1 ∧ IsDir node = os.IsDir e.2
  ∧ (os.IsDir e.2 = true →
     build e.2 (filepath.Join root e.1) = inl (Children node)).

(** The closure that only notes what it is given: the entries a walk
    hands to its function without an error, in the order of the walk. *)
Definition collect : WalkFunc (list (string * FileInfo)) :=
  λ path info err seen,
    match err, info with
    | Some e, _ => (seen, Some e)
    | None, None => (seen, None)
    | None, Some info => ((seen ++ [(path, info)])%list, None)
    end.

(** What a closure makes of an entry that comes without an error. *)
Definition onEntry {St : Type} (walkFn : WalkFunc St) (st : St)
    (v : string * FileInfo) : St :=
  (walkFn v.1 (Some v.2) None st).1.

(** The closure run on the entries one after the other, as far as it
    returns no error. *)
Fixpoint runEntries {St : Type} (walkFn : WalkFunc St) (st : St)
    (entries : list (string * FileInfo)) : St * option error :=
  match entries with
  | [] => (st, None)
  | v :: entries' =>
      match walkFn v.1 (Some v.2) None st with
      | (st', None) => runEntries walkFn st' entries'
      | (st', Some e) => (st', Some e)
      end
  end.

(** The end of a walk: the error of the closure, or else the error of
    the walk itself. *)
Definition finish {St : Type} (r : St * option error) (err : option error)
  : St * option error :=
  (r.1, match r.2 with Some e => Some e | None => err end).

Definition visits (wd : FSNode) (root : string) : list (string * FileInfo) :=
  (Walk collect wd root []).1.

(** The notes among the visited entries. *)
Definition visitedNotes (wd : FSNode) : list (string * FileInfo) :=
  filter (λ v, isNote v.1 v.2 = true) (visits wd "notes").

(** The page of a note, if [processMarkdownFile] makes one. *)
Definition notePage (wd : FSNode) (md : Markdown) (cfg : Config)
    (v : string * FileInfo) : option (string * Post) :=
  let cleanRelPath := strings.TrimSuffix (filepath.Rel "notes" v.1) ".md" in
  match processMarkdownFile wd md v.1 ("notes/" +:+ cleanRelPath) (cfg_BaseURL cfg) with
  | (post, None) =>
      Some (filepath.Join
              (filepath.Join (filepath.Join "public" "notes") cleanRelPath)
              "index.html", post)
  | (_, Some _) => None
  end.

(** The key and the item of every tag of every visited note, in the
    order in which the tag walk appends them. *)
Definition taggings (wd : FSNode) (unicodeLower : string → string)
    (cfg : Config) : list (string * Post) :=
  visitedNotes wd ≫= λ v,
    (λ t, (ToLower unicodeLower t, taggedNote wd cfg v.1 v.2))
      <$> parseTags (parseFrontmatter (readOrNil wd v.1)).1.1.

(** A working directory whose one note opens a frontmatter block and
    never closes it. *)
Definition unclosedDir : FSNode :=
  Directory (inl
    [ ("notes", Directory (inl
        [ ("open.md", File (inl (delimiter +:+ "title: Open" +:+ nl +:+ "text"))) ])) ]).

(** A working directory with a file [foo] beside the note [foo.md]. *)
Definition clashDir : FSNode :=
  Directory (inl
    [ ("notes", Directory (inl
        [ ("a.md", File (inl (document ["title: A"])))
        ; ("foo", File (inl "asset"))
        ; ("foo.md", File (inl (document ["title: Foo"])))
        ; ("z.md", File (inl (document ["title: Z"])))
        ; ("z.png", File (inl "PNG")) ])) ]).

(** A working directory whose one note has a tag with a slash. *)
Definition slashTagDir : FSNode :=
  Directory (inl
    [ ("notes", Directory (inl
        [ ("ci.md", File (inl (document ["title: CI"; "tags: ci/cd, go"]))) ])) ]).

(** A name as a directory holds it: not empty, and without a slash. *)
Definition validName (name : string) : Prop :=
  name ≠ "" ∧ "/"%char ∉ chars name.

#[global] Instance validName_dec (name : string) : Decision (validName name).
Proof. unfold validName. apply _. Defined.

(** The names of every directory of the tree are valid and differ from
    one another. *)
Fixpoint wellNamed (n : FSNode) : bool :=
  match n with
  | File _ => true
  | Directory (inr _) => true
  | Directory (inl entries) =>
      bool_decide (NoDup entries.*1)
      && (fix all (entries : list (string * FSNode)) : bool :=
            match entries with
            | [] => true
            | (name, child) :: entries' =>
                bool_decide (validName name) && wellNamed child && all entries'
            end) entries
  end.

(** Every directory of the tree can be listed. *)
Fixpoint foldersListable (n : FSNode) : bool :=
  match n with
  | File _ => true
  | Directory (inr _) => false
  | Directory (inl entries) =>
      (fix all (entries : list (string * FSNode)) : bool :=
         match entries with
         | [] => true
         | (_, child) :: entries' => foldersListable child && all entries'
         end) entries
  end.

(** The sidebar entry [node] is the note that the walks visit as [v]:
    the URL and the title are those of the note's search record. *)
Definition linksTo (wd : FSNode) (baseUrl : string) (node : NoteNode)
    (v : string * FileInfo) : Prop :=
  isNote v.1 v.2 = true
  ∧ URL node
    = baseUrl +:+ "notes/" +:+ strings.TrimSuffix (filepath.Rel "notes" v.1) ".md"
  ∧ Title node = noteTitle (parseFrontmatter (readOrNil wd v.1)).1.1 v.2.

(** ** [main], the copies of [static] and [assets]

    What the two copying walks at the end of [main] leave under
    [public]: the directories they make and the files they write. *)

Inductive Output : Type :=
| MkdirAll (path : string)
| WriteFile (path : string) (data : string).

(** [filepath.Dir] of a clean path: the path without its last element. *)
Definition Dir (path : string) : string :=
  match strings.Split path "/" with
  | [] | [_] => "."
  | elems =>
      let dir := strings.Join (removelast elems) "/" in
      if bool_decide (dir = "") then "/" else dir
  end.

Section Copy.

Variable wd : FSNode.

(** What both closures do with an entry that came without an error. *)
Definition copyEntry (path : string) (info : FileInfo) (out : list Output)
  : list Output * option error :=
  let destPath := filepath.Join "public" path in
  if info_IsDir info then ((out ++ [MkdirAll destPath])%list, None)
  else
    let out := (out ++ [MkdirAll (Dir destPath)])%list in
    match os.ReadFile wd path with
    | inr e => (out, Some e)
    | inl input => ((out ++ [WriteFile destPath input])%list, None)
    end.

(** Copy static assets *)
Definition copyStatic : WalkFunc (list Output) :=
  λ path info err out,
    match err, info with
    | Some e, _ => (out, Some e)
    | None, None => (out, None)
    | None, Some info => copyEntry path info out
    end.


Definition staticCopy : list Output :=
  (Walk copyStatic wd "static" [MkdirAll "public/static"]).1.


End Copy.


(** The path of the entry that [names] leads to from [path]. *)
Definition below (path : string) (names : list string) : string :=
  foldl filepath.Join path names.




(** A working directory with a stylesheet and a script under [static],
    and under [assets] two files and between them a folder that cannot
    be listed. *)
Definition copyDir : FSNode :=
  Directory (inl
    [ ("assets", Directory (inl
        [ ("banner.png", File (inl "PNG"))
        ; ("locked", Directory (inr (Errorf "permission denied")))
        ; ("z.txt", File (inl "z")) ]))
    ; ("static", Directory (inl
        [ ("css", Directory (inl [("style.css", File (inl "body {}"))]))
        ; ("search.js", File (inl "let searchData = [];")) ])) ]).

(** The entry that a walk from [path] hands over for the node that
    [names] leads to. *)
Definition entryAt (path : string) (names : list string) (node : FSNode)
  : string * FileInfo :=
  (below path names,
   {| info_Name := filepath.Base (below path names);
      info_IsDir := os.IsDir node |}).

(** The tree under [public] when the page walk has run its closure on
    [entries], one after the other. *)
Definition publicAfter (wd : FSNode) (md : Markdown) (cfg : Config)
    (entries : list (string * FileInfo)) : os.Tree :=
  (runEntries (processNote wd md cfg) ([], [], os.fresh) entries).1.2.

(** The page walk comes through [entries]: its closure returns no error
    on any of them. *)
Definition comesThrough (wd : FSNode) (md : Markdown) (cfg : Config)
    (entries : list (string * FileInfo)) : Prop :=
  (runEntries (processNote wd md cfg) ([], [], os.fresh) entries).2 = None.

(** [os.MkdirAll(filepath.Dir(out), 0755)], and then [out] can be
    created. *)
Definition writable (public : os.Tree) (out : string) : bool :=
  let file := filepath.cleaned out in
  os.creatable (os.MkdirAll public (removelast file)) file.

(** The files other than notes that the page walk copies: the path
    written and the content. *)
Definition noteAssets (wd : FSNode) (md : Markdown) (cfg : Config)
  : list (string * string) :=
  (pageWalk wd md cfg).1.1.2.

(** The copy that the page walk makes of an entry that is no note. *)
Definition assetCopy (wd : FSNode) (v : string * FileInfo)
  : option (string * string) :=
  if info_IsDir v.2 || strings.HasSuffix v.1 ".md" then None
  else
    match os.ReadFile wd v.1 with
    | inl input =>
        Some (filepath.Join (filepath.Join "public" "notes")
                (filepath.Rel "notes" v.1), input)
    | inr _ => None
    end.

(** * Properties *)

(** ** Strings *)

Lemma append_cons (a : ascii) (s1 s2 : string) :
  String a s1 +:+ s2 = String a (s1 +:+ s2).
Proof. reflexivity. Qed.

Lemma HasPrefix_spec (s prefix : string) :
  strings.HasPrefix s prefix = true ↔ ∃ rest, s = prefix +:+ rest.
Proof.
  unfold strings.HasPrefix. revert s.
  induction prefix as [|a prefix IH]; intros s.
  - split; [intros _; by exists s | by destruct s].
  - setoid_rewrite append_cons. destruct s as [|b s]; simpl.
    + split; [done | intros [rest Hrest]; discriminate].
    + destruct (Ascii.ascii_dec a b) as [->|Hne].
      * rewrite IH. split; intros [rest Hrest]; exists rest; congruence.
      * split; [done | intros [rest Hrest]; congruence].
Qed.

Lemma get_nil (key : string) : get None key = "".
Proof. reflexivity. Qed.

(** ** The frontmatter parser *)

(** The parser reports an error exactly when the input begins with the
    delimiter and splits into fewer than three parts. *)
Lemma parseFrontmatter_fails_iff (content : string) :
  is_Some (parseFrontmatter content).2
  ↔ strings.HasPrefix content delimiter = true
    ∧ (length (strings.SplitN content delimiter 3) < 3)%nat.
Proof.
  unfold parseFrontmatter.
  destruct (strings.HasPrefix content delimiter); simpl.
  - destruct (Z.ltb_spec (Z.of_nat (length (strings.SplitN content delimiter 3))) 3);
      simpl; split.
    + intros _. split; [done | lia].
    + intros _. by eexists.
    + intros [e He]. discriminate.
    + intros [_ Hlen]. lia.
  - split; [intros [e He]; discriminate | intros [? _]; done].
Qed.

(** C7. A document that does not begin with the delimiter line is not an
    error: the parser returns the [nil] mapping, which has no entry (every
    key reads as the empty string), and the input itself as the body. *)
Theorem parseFrontmatter_without_delimiter (content : string) :
  (∀ rest, content ≠ delimiter +:+ rest) →
  parseFrontmatter content = (None, content, None)
  ∧ ∀ key, get (parseFrontmatter content).1.1 key = "".
Proof.
  intros Hnone.
  assert (strings.HasPrefix content delimiter = false) as Hprefix.
  { destruct (strings.HasPrefix content delimiter) eqn:E; [|done].
    apply HasPrefix_spec in E as [rest ->]. by destruct (Hnone rest). }
  unfold parseFrontmatter. rewrite Hprefix. simpl. split; [done|].
  intros key. apply get_nil.
Qed.

Lemma parseFrontmatter_without_delimiter_witness :
  parseFrontmatter "# Hi" = (None, "# Hi", None)
  ∧ ∀ key, get (parseFrontmatter "# Hi").1.1 key = "".
Proof.
  apply (parseFrontmatter_without_delimiter "# Hi").
  intros rest. unfold delimiter. simpl. discriminate.
Defined.

(** C10. When the parser fails, the input began with the delimiter line
    and split into fewer than three parts, and what comes back with the
    error is the [nil] mapping and the whole input as the body: the same
    pair a document without frontmatter gives. *)
Theorem parseFrontmatter_failure (content : string) (err : error) :
  (parseFrontmatter content).2 = Some err →
  parseFrontmatter content = (None, content, Some err)
  ∧ (∃ rest, content = delimiter +:+ rest)
  ∧ (length (strings.SplitN content delimiter 3) < 3)%nat
  ∧ ∀ key, get (parseFrontmatter content).1.1 key = "".
Proof.
  intros Herr.
  destruct (proj1 (parseFrontmatter_fails_iff content)) as [Hprefix Hlen].
  { rewrite Herr. by eexists. }
  revert Herr. unfold parseFrontmatter. rewrite Hprefix. simpl.
  destruct (Z.ltb_spec (Z.of_nat (length (strings.SplitN content delimiter 3))) 3);
    simpl; [|lia].
  intros [= <-]. repeat split; try done.
  by apply HasPrefix_spec.
Qed.

Lemma parseFrontmatter_failure_witness :
  let content := delimiter +:+ "title: x" +:+ nl in
  parseFrontmatter content
  = (None, content, Some (Errorf "invalid frontmatter format")).
Proof.
  intros content.
  apply (parseFrontmatter_failure content (Errorf "invalid frontmatter format")).
  reflexivity.
Defined.

(** *** Key/value lines *)

Lemma parseLine_pair (meta : gmap string string) (line : string) :
  (0 < strings.Index line ":")%Z →
  parseLine meta line = <[lineKey line := lineVal line]> meta.
Proof.
  intros Hidx. unfold parseLine, lineKey, lineVal.
  by destruct (Z.gtb_spec (strings.Index line ":") 0); [|lia].
Qed.

Lemma parseLine_skip (meta : gmap string string) (line : string) :
  (strings.Index line ":" ≤ 0)%Z → parseLine meta line = meta.
Proof.
  intros Hidx. unfold parseLine.
  by destruct (Z.gtb_spec (strings.Index line ":") 0); [lia|].
Qed.

Lemma parseLine_cases (meta : gmap string string) (line : string) :
  ((0 < strings.Index line ":")%Z
   ∧ parseLine meta line = <[lineKey line := lineVal line]> meta)
  ∨ ((strings.Index line ":" ≤ 0)%Z ∧ parseLine meta line = meta).
Proof.
  destruct (Z.lt_ge_cases 0 (strings.Index line ":")).
  - left. split; [done | by apply parseLine_pair].
  - right. split; [done | by apply parseLine_skip].
Qed.

(** Every entry of the mapping was there before or comes from a line. *)
Lemma foldl_parseLine_origin (lines : list string) (meta : gmap string string)
    (key val : string) :
  foldl parseLine meta lines !! key = Some val →
  meta !! key = Some val
  ∨ ∃ line, line ∈ lines ∧ (0 < strings.Index line ":")%Z
            ∧ key = lineKey line ∧ val = lineVal line.
Proof.
  revert meta. induction lines as [|line lines IH]; intros meta; simpl.
  - by left.
  - intros Hget. apply IH in Hget as [Hget | (l & Hin & Hl)].
    + destruct (parseLine_cases meta line) as [[Hidx Heq] | [_ Heq]];
        rewrite Heq in Hget; [|by left].
      destruct (decide (lineKey line = key)) as [<- | Hne].
      * rewrite lookup_insert_eq in Hget. injection Hget as <-.
        right. exists line. split; [left | done].
      * rewrite lookup_insert_ne in Hget by done. by left.
    + right. exists l. split; [by right | done].
Qed.

(** Entries are never removed. *)
Lemma foldl_parseLine_keeps (lines : list string) (meta : gmap string string)
    (key : string) :
  is_Some (meta !! key) → is_Some (foldl parseLine meta lines !! key).
Proof.
  revert meta. induction lines as [|line lines IH]; intros meta Hin; simpl.
  - done.
  - apply IH. destruct (parseLine_cases meta line) as [[_ ->] | [_ ->]]; [|done].
    rewrite lookup_insert. case_decide; [by eexists | done].
Qed.

(** A duplicate key overwrites: the last pair line of a key decides. *)
Lemma foldl_parseLine_unchanged (lines : list string) (meta : gmap string string)
    (key : string) :
  (∀ l, l ∈ lines → (0 < strings.Index l ":")%Z → lineKey l ≠ key) →
  foldl parseLine meta lines !! key = meta !! key.
Proof.
  revert meta. induction lines as [|line lines IH]; intros meta Hother; simpl.
  - done.
  - rewrite IH by (intros l Hl; apply Hother; by right).
    destruct (parseLine_cases meta line) as [[Hidx ->] | [_ ->]]; [|done].
    apply lookup_insert_ne, Hother; [left | done].
Qed.

(** C6, as the code has it.  Of the lines of the frontmatter block that
    the scanner delivers, those whose first [":"] stands after the first
    byte are key/value pairs: the trimmed text before that [":"] is a key
    of the mapping, bound to the trimmed text after it unless a later
    pair line has the same key.  Nothing else enters the mapping: a line
    without [":"] and a line that begins with [":"] are skipped. *)
Theorem parseFrontmatter_pairs (content : string)
    (meta : gmap string string) (body : string) :
  parseFrontmatter content = (Some meta, body, None) →
  (∀ line, line ∈ blockLines content → (0 < strings.Index line ":")%Z →
     is_Some (meta !! lineKey line))
  ∧ (∀ before line after,
       blockLines content = (before ++ line :: after)%list →
       (0 < strings.Index line ":")%Z →
       (∀ l, l ∈ after → (0 < strings.Index l ":")%Z → lineKey l ≠ lineKey line) →
       meta !! lineKey line = Some (lineVal line))
  ∧ (∀ key val, meta !! key = Some val →
       ∃ line, line ∈ blockLines content ∧ (0 < strings.Index line ":")%Z
               ∧ key = lineKey line ∧ val = lineVal line).
Proof.
  unfold parseFrontmatter, blockLines.
  destruct (strings.HasPrefix content delimiter); simpl; [|done].
  destruct (Z.of_nat (length (strings.SplitN content delimiter 3)) <? 3)%Z;
    simpl; [done|].
  intros [= <- <-].
  set (lines := bufio.Lines _). clearbody lines. split; [|split].
  - intros line Hin Hidx.
    apply list_elem_of_split in Hin as (before & after & ->).
    rewrite foldl_app. simpl. apply foldl_parseLine_keeps.
    rewrite parseLine_pair by done. rewrite lookup_insert_eq. by eexists.
  - intros before line after -> Hidx Hlast.
    rewrite foldl_app. simpl. rewrite foldl_parseLine_unchanged by done.
    rewrite parseLine_pair by done. apply lookup_insert_eq.
  - intros key val Hget.
    apply foldl_parseLine_origin in Hget as [Hget | Hget]; [|done].
    by rewrite lookup_empty in Hget.
Qed.

Lemma parseFrontmatter_pairs_witness :
  ∃ meta body,
    parseFrontmatter readmeDocument = (Some meta, body, None)
    ∧ meta !! "date" = Some "2026-01-01".
Proof.
  eexists _, _. split; [reflexivity|].
  refine (proj1 (proj2 (parseFrontmatter_pairs readmeDocument _ _ eq_refl))
            [_] "date: 2026-01-01" [_] eq_refl _ _).
  - reflexivity.
  - intros l Hl _. apply list_elem_of_singleton in Hl as ->.
    vm_compute. discriminate.
Defined.

(** C6, as stated, fails: a line that begins with [":"] contains a [":"]
    and is skipped all the same. *)
Lemma parseFrontmatter_skips_leading_colon :
  let content := delimiter +:+ ":draft" +:+ nl +:+ delimiter +:+ "body" in
  parseFrontmatter content = (Some ∅, "body", None)
  ∧ blockLines content = [":draft"]
  ∧ strings.Index ":draft" ":" = 0%Z
  ∧ ¬ (∀ content meta body line,
         parseFrontmatter content = (Some meta, body, None) →
         line ∈ blockLines content →
         (0 ≤ strings.Index line ":")%Z →
         is_Some (meta !! lineKey line)).
Proof.
  intros content.
  assert (parseFrontmatter content = (Some ∅, "body", None)) as Hrun
    by (vm_compute; reflexivity).
  assert (blockLines content = [":draft"]) as Hlines
    by (vm_compute; reflexivity).
  repeat split; try done.
  intros Hclaim.
  destruct (Hclaim content ∅ "body" ":draft" Hrun) as [val Hval].
  - rewrite Hlines. left.
  - done.
  - by rewrite lookup_empty in Hval.
Qed.

(** ** The tag mini-format *)

(** The tag loop appends the trimmed tokens that are not empty. *)
Lemma tag_loop_filter (tokens tags : list string) :
  foldl (λ tags t,
           let t := strings.TrimSpace t in
           if bool_decide (t ≠ "") then tags ++ [t] else tags)%list
        tags tokens
  = (tags ++ filter (λ t, t ≠ "") (strings.TrimSpace <$> tokens))%list.
Proof.
  revert tags. induction tokens as [|t tokens IH]; intros tags; simpl.
  - by rewrite app_nil_r.
  - rewrite IH. rewrite filter_cons. case_bool_decide as Ht.
    + rewrite decide_True by done. by rewrite <- app_assoc.
    + by destruct (decide (strings.TrimSpace t ≠ "")).
Qed.

(** The tokens of the tag string, in the order of the code: brackets
    stripped at both ends, both quote characters removed, split on commas,
    trimmed, the empty ones dropped. *)
Lemma parseTags_filter (meta : meta_map) :
  parseTags meta
  = if bool_decide (get meta "tags" ≠ "") then
      filter (λ t, t ≠ "")
        (strings.TrimSpace
           <$> strings.Split
                 (strings.ReplaceAll
                    (strings.ReplaceAll (strings.Trim (get meta "tags") "[]")
                       dquote "")
                    "'" "")
                 ",")
    else [].
Proof.
  unfold parseTags. case_bool_decide; [|done].
  by rewrite tag_loop_filter.
Qed.

(** C8. The tag string is read by stripping brackets at both ends,
    removing both quote characters, splitting on commas, trimming the
    tokens and dropping the empty ones; the three spellings of the tags
    go and web all give the sequence go, web, directly and through a
    document's frontmatter. *)
Theorem parseTags_three_forms :
  (∀ meta, parseTags meta
     = if bool_decide (get meta "tags" ≠ "") then
         filter (λ t, t ≠ "")
           (strings.TrimSpace
              <$> strings.Split
                    (strings.ReplaceAll
                       (strings.ReplaceAll (strings.Trim (get meta "tags") "[]")
                          dquote "")
                       "'" "")
                    ",")
       else [])
  ∧ parseTags (Some {[ "tags" := tagsDoubleQuoted ]}) = ["go"; "web"]
  ∧ parseTags (Some {[ "tags" := tagsBare ]}) = ["go"; "web"]
  ∧ parseTags (Some {[ "tags" := tagsSingleQuoted ]}) = ["go"; "web"]
  ∧ parseTags (parseFrontmatter (taggedDocument tagsDoubleQuoted)).1.1 = ["go"; "web"]
  ∧ parseTags (parseFrontmatter (taggedDocument tagsBare)).1.1 = ["go"; "web"]
  ∧ parseTags (parseFrontmatter (taggedDocument tagsSingleQuoted)).1.1 = ["go"; "web"].
Proof.
  split; [apply parseTags_filter|].
  repeat split; vm_compute; reflexivity.
Qed.

(** ** Sorting newest first *)

Lemma After_spec (t u : time.Time) :
  time.After t u = true
  ↔ (time.Year u < time.Year t
     ∨ (time.Year u = time.Year t
        ∧ (time.Month u < time.Month t
           ∨ (time.Month u = time.Month t ∧ time.Day u < time.Day t))))%Z.
Proof.
  unfold time.After.
  rewrite !orb_true_iff, !andb_true_iff, !orb_true_iff, !andb_true_iff.
  rewrite !Z.ltb_lt, !Z.eqb_eq. tauto.
Qed.

Lemma After_false (t u : time.Time) :
  time.After t u = false ↔ ¬ (time.After t u = true).
Proof. by destruct (time.After t u). Qed.

Lemma After_asym (t u : time.Time) :
  time.After t u = true → time.After u t = false.
Proof. rewrite After_false, !After_spec. lia. Qed.

(** If [x] is not after [y] and [y] not after [z], [x] is not after [z]. *)
Lemma After_false_trans (x y z : time.Time) :
  time.After x y = false → time.After y z = false → time.After x z = false.
Proof. rewrite !After_false, !After_spec. lia. Qed.

Lemma After_irrefl (t : time.Time) : time.After t t = false.
Proof. rewrite After_false, After_spec. lia. Qed.

Section insertion_sort.

Context {A : Type} (less : A → A → bool).
Hypothesis less_asym : ∀ x y, less x y = true → less y x = false.
Hypothesis less_false_trans :
  ∀ x y z, less x y = false → less y z = false → less x z = false.

Lemma sink_perm (x : A) (before : list A) :
  sort.sink less x before ≡ₚ x :: before.
Proof.
  induction before as [|y before IH]; simpl; [done|].
  destruct (less x y); [|done].
  rewrite IH. apply Permutation_swap.
Qed.

(** The sorted part, read backwards: nothing is less than what follows. *)
Lemma sink_sorted (x : A) (before : list A) :
  StronglySorted (λ p q, less p q = false) before →
  StronglySorted (λ p q, less p q = false) (sort.sink less x before).
Proof.
  induction before as [|y before IH]; simpl; intros Hsorted.
  - repeat constructor.
  - apply StronglySorted_cons in Hsorted as [Hy Hsorted].
    destruct (less x y) eqn:Hxy.
    + apply StronglySorted_cons. split; [|by apply IH].
      rewrite sink_perm. constructor; [by apply less_asym | done].
    + apply StronglySorted_cons. split.
      * constructor; [done|].
        eapply Forall_impl; [exact Hy|]. intros z Hz. by eapply less_false_trans.
      * by apply StronglySorted_cons.
Qed.

Lemma StronglySorted_reverse (R : relation A) (l : list A) :
  StronglySorted (flip R) l → StronglySorted R (reverse l).
Proof.
  induction l as [|x l IH]; intros Hsorted.
  - constructor.
  - apply StronglySorted_cons in Hsorted as [Hx Hsorted].
    rewrite reverse_cons. apply StronglySorted_app. split; [|split].
    + intros y z Hy Hz. apply list_elem_of_singleton in Hz as ->.
      rewrite elem_of_reverse in Hy. rewrite Forall_forall in Hx.
      exact (Hx y Hy).
    + by apply IH.
    + repeat constructor.
Qed.

Lemma insertionSort_perm (data : list A) :
  sort.insertionSort less data ≡ₚ data.
Proof.
  unfold sort.insertionSort. rewrite reverse_Permutation.
  assert (∀ before, foldl (λ before x, sort.sink less x before) before data
                    ≡ₚ before ++ data) as Hfold.
  { induction data as [|x data IH]; intros before; simpl.
    - by rewrite app_nil_r.
    - rewrite IH, sink_perm. simpl. apply Permutation_middle. }
  by rewrite Hfold.
Qed.

Lemma insertionSort_sorted (data : list A) :
  StronglySorted (λ p q, less q p = false) (sort.insertionSort less data).
Proof.
  unfold sort.insertionSort. apply StronglySorted_reverse. unfold flip.
  assert (∀ before,
            StronglySorted (λ p q, less p q = false) before →
            StronglySorted (λ p q, less p q = false)
              (foldl (λ before x, sort.sink less x before) before data))
    as Hfold.
  { induction data as [|x data IH]; intros before Hsorted; simpl; [done|].
    by apply IH, sink_sorted. }
  apply Hfold. constructor.
Qed.

End insertion_sort.

Lemma newestFirst_asym (p q : Post) :
  newestFirst p q = true → newestFirst q p = false.
Proof. apply After_asym. Qed.

Lemma newestFirst_false_trans (p q r : Post) :
  newestFirst p q = false → newestFirst q r = false → newestFirst p r = false.
Proof. apply After_false_trans. Qed.

Lemma insertionSort_newestFirst_sorted (x : list Post) :
  sortedBy newestFirst (sort.insertionSort newestFirst x).
Proof.
  apply insertionSort_sorted;
    [apply newestFirst_asym | apply newestFirst_false_trans].
Qed.

(** The insertion sort meets the contract of [sort.Slice]: the sorter of
    every slice of at most twelve posts. *)
Definition insertionSorter : sort.Sorter :=
  {| sort.Slice := sort.insertionSort newestFirst;
     sort.Slice_perm := insertionSort_perm newestFirst;
     sort.Slice_sorted := insertionSort_newestFirst_sorted |}.

Lemma StronglySorted_lookup {A : Type} (R : relation A) (l : list A)
    (i j : nat) (x y : A) :
  StronglySorted R l → l !! i = Some x → l !! j = Some y → (i < j)%nat → R x y.
Proof.
  intros Hsorted. revert i j.
  induction Hsorted as [|a l Hsorted IH Ha]; intros i j Hi Hj Hlt.
  - by rewrite lookup_nil in Hi.
  - destruct j as [|j]; [lia|]. destruct i as [|i]; simpl in *.
    + injection Hi as <-. rewrite Forall_forall in Ha.
      apply Ha. by eapply list_elem_of_lookup_2.
    + apply (IH i j); [done | done | lia].
Qed.

(** ** The homepage listing *)

Lemma Parse_error_zero (value : string) (e : error) :
  (time.Parse value).2 = Some e → (time.Parse value).1 = time.zero.
Proof.
  unfold time.Parse. cbv zeta.
  match goal with |- context [match ?parsed with Some _ => _ | None => _ end] =>
    by destruct parsed
  end.
Qed.


(** A post sinks only past posts of an earlier date. *)
Lemma sink_same_date (d : time.Time) (x : Post) (before : list Post) :
  filter (λ p, post_Date p = d) (sort.sink newestFirst x before)
  = filter (λ p, post_Date p = d) (x :: before).
Proof.
  induction before as [|y before IH]; simpl; [done|].
  destruct (newestFirst x y) eqn:Hless; [|done].
  rewrite (filter_cons _ y), IH, !filter_cons.
  destruct (decide (post_Date x = d)) as [Hx|Hx];
    destruct (decide (post_Date y = d)) as [Hy|Hy]; try done.
  unfold newestFirst in Hless. rewrite Hx, Hy, After_irrefl in Hless.
  discriminate.
Qed.

(** The insertion sort itself is stable: for every date, the posts of
    that date come out in the order they went in.  So a slice of at most
    twelve posts keeps the encounter order of its equal dates. *)
Lemma insertionSort_same_date (d : time.Time) (posts : list Post) :
  filter (λ p, post_Date p = d) (sort.insertionSort newestFirst posts)
  = filter (λ p, post_Date p = d) posts.
Proof.
  unfold sort.insertionSort.
  assert (∀ before,
            filter (λ p, post_Date p = d)
              (reverse (foldl (λ before x, sort.sink newestFirst x before)
                          before posts))
            = (filter (λ p, post_Date p = d) (reverse before)
                 ++ filter (λ p, post_Date p = d) posts)%list) as Hfold.
  { induction posts as [|x posts IH]; intros before; simpl.
    - by rewrite app_nil_r.
    - rewrite IH, !filter_reverse, sink_same_date, !(filter_cons _ x).
      destruct (decide (post_Date x = d)); [|done].
      by rewrite reverse_cons, <- app_assoc. }
  by rewrite Hfold.
Qed.

(** ** The tag index *)

Section TagIndex.

Context `{!sort.Sorter}.
Variable wd : FSNode.
Variable unicodeLower : string → string.
Variable cfg : Config.




(** The tag loop of the note walk indexes the parsed tags of the note. *)
Lemma note_tag_loop (tokens : list string) (tagsMap : gmap string (list Post))
    (p : Post) :
  foldl (λ m t,
           let t := strings.TrimSpace t in
           if bool_decide (t ≠ "") then indexTag unicodeLower m t p else m)
        tagsMap tokens
  = foldl (λ m t, indexTag unicodeLower m t p) tagsMap
      (filter (λ t, t ≠ "") (strings.TrimSpace <$> tokens)).
Proof.
  revert tagsMap. induction tokens as [|t tokens IH]; intros tagsMap; simpl.
  - done.
  - rewrite IH, filter_cons. case_bool_decide as Ht.
    + by rewrite decide_True.
    + by destruct (decide (strings.TrimSpace t ≠ "")).
Qed.

Lemma collectNoteTags_parseTags (path : string) (info : FileInfo)
    (tagsMap : gmap string (list Post)) :
  isNote path info = true →
  collectNoteTags wd unicodeLower cfg path (Some info) None tagsMap
  = (foldl (λ m t, indexTag unicodeLower m t (taggedNote wd cfg path info))
       tagsMap (parseTags (parseFrontmatter (readOrNil wd path)).1.1), None).
Proof.
  intros Hnote. unfold collectNoteTags. rewrite Hnote.
  destruct (parseFrontmatter (readOrNil wd path)) as [[meta body] err] eqn:Hparse.
  rewrite parseTags_filter. simpl.
  case_bool_decide; [|done]. by rewrite note_tag_loop.
Qed.

End TagIndex.



(** In the site of the example directory the note of the tags a and b is
    on the pages of a and of b, and the only other page is that of the
    tag plan. *)
Lemma tag_pages_example :
  let site := @main insertionSorter exampleDir plainMarkdown (λ s, s) exampleCfg in
  let soil :=
    taggedNote exampleDir exampleCfg "notes/garden/soil.md"
      {| info_Name := "soil.md"; info_IsDir := false |} in
  site_Tags site !! "a" = Some [soil]
  ∧ site_Tags site !! "b" = Some [soil]
  ∧ (post_URL <$> site_Tags site !!! "plan") = ["/notes/plan"]
  ∧ dom (site_Tags site) = {[ "a"; "b"; "plan" ]}.
Proof.
  intros site soil. repeat split; vm_compute; reflexivity.
Qed.

(** ** Walking the notes *)

(** What every call of the closure keeps, the walk keeps. *)
Section walk_invariant.

Context {St : Type} (walkFn : WalkFunc St) (I : St → Prop).
Hypothesis walkFn_keeps :
  ∀ path info err st, I st → I (walkFn path info err st).1.

Lemma walkNames_invariant (visit : string → FSNode → St → St * option error)
    (path : string) (names : list (string * FSNode)) (st : St) :
  Forall (λ e, ∀ path st, I st → I (visit path e.2 st).1) names →
  I st → I (walkNames visit path names st).1.
Proof.
  intros Hvisit. revert st.
  induction Hvisit as [|[name child] names Hchild _ IH]; intros st Hst; simpl.
  - done.
  - specialize (Hchild (filepath.Join path name) st Hst). simpl in Hchild.
    destruct (visit (filepath.Join path name) child st) as [st' [e|]]; simpl in *.
    + destruct (negb (os.IsDir child) || bool_decide (e ≠ SkipDir));
        [done | by apply IH].
    + by apply IH.
Qed.

Lemma walk_invariant (n : FSNode) :
  ∀ path st, I st → I (walk walkFn path n st).1.
Proof.
  induction n as [data | err | entries IH] using FSNode_nested_ind;
    intros path st Hst; simpl.
  - by apply walkFn_keeps.
  - pose proof (walkFn_keeps path
        (Some {| info_Name := filepath.Base path; info_IsDir := true |})
        (Some err) st Hst) as Hstep.
    by destruct (walkFn path _ (Some err) st) as [st1 [e|]].
  - pose proof (walkFn_keeps path
        (Some {| info_Name := filepath.Base path; info_IsDir := true |})
        None st Hst) as Hstep.
    destruct (walkFn path _ None st) as [st1 [e|]]; simpl in *; [done|].
    by apply walkNames_invariant.
Qed.

Lemma Walk_invariant (wd : FSNode) (root : string) (st : St) :
  I st → I (Walk walkFn wd root st).1.
Proof.
  intros Hst. unfold Walk.
  destruct (os.lookup wd (filepath.elements root)) as [n|].
  - pose proof (walk_invariant n root st Hst) as Hwalk.
    destruct (walk walkFn root n st) as [st' [[]|]]; done.
  - pose proof (walkFn_keeps root None (Some os.ErrNotExist) st Hst) as Hstep.
    destruct (walkFn root None (Some os.ErrNotExist) st) as [st' [[]|]]; done.
Qed.

End walk_invariant.

Lemma Slice_nil `{!sort.Sorter} : sort.Slice [] = [].
Proof. apply Permutation_nil_r, sort.Slice_perm. Qed.

(** ** The search index *)

(** The records of the search index come from the note walk. *)
Lemma searchNote_adds_notes (wd : FSNode) (md : Markdown) (cfg : Config)
    (path : string) (info : option FileInfo) (err : option error)
    (st : list (gmap string string) * list Post) :
  Forall (λ r, ∃ path info, isNote path info = true
                            ∧ r = noteSearchItem wd md cfg path info) st.1 →
  Forall (λ r, ∃ path info, isNote path info = true
                            ∧ r = noteSearchItem wd md cfg path info)
    (searchNote wd md cfg path info err st).1.1.
Proof.
  intros Hst. unfold searchNote.
  destruct err as [e|]; [done|]. destruct info as [info|]; [|done].
  destruct (isNote path info) eqn:Hnote; [|done]. simpl.
  apply Forall_app. split; [done|]. constructor; [|constructor].
  by exists path, info.
Qed.

Lemma searchItem_type (title url date content type tags : string) :
  searchItem title url date content type tags !! "type" = Some type.
Proof. unfold searchItem. simpl. by simplify_map_eq. Qed.

Lemma searchItem_fields (title url date content type tags : string) :
  hasFields (searchItem title url date content type tags)
    title url date content type tags.
Proof.
  unfold hasFields, searchItem, searchFields. split.
  - rewrite dom_list_to_map_L. simpl. set_solver.
  - simpl. repeat split; by simplify_map_eq.
Qed.

(** C3, as the code has it.  A search record has exactly the six
    string-valued fields title, url, date, content, type and tags.  A
    post's record has the type post, the post's rendered HTML, its tags
    joined by commas and its date formatted.  A note's record has the type
    note, the HTML of the note's body, its tags joined by commas, and as
    date the empty string when the frontmatter has no date, the formatted
    date when its date parses, and the date string itself when it does
    not parse.  Every record of the index is the record of a note that
    the walk reads. *)
Theorem search_index_records `{!sort.Sorter} (wd : FSNode) (md : Markdown)
    (unicodeLower : string → string) (cfg : Config) :
  (∀ p, hasFields (postSearchItem p)
          (post_Title p) (post_URL p) (time.Format (post_Date p))
          (post_Content p) "post" (strings.Join (post_Tags p) ","))
  ∧ (∀ path info,
       let meta := (parseFrontmatter (readOrNil wd path)).1.1 in
       let body := (parseFrontmatter (readOrNil wd path)).1.2 in
       let dateStr := get meta "date" in
       hasFields (noteSearchItem wd md cfg path info)
         (noteTitle meta info) (noteURL cfg path)
         (if bool_decide (dateStr = "") then ""
          else match time.Parse dateStr with
               | (t, None) => time.Format t
               | (_, Some _) => dateStr
               end)
         (Convert md body).1 "note" (strings.Join (parseTags meta) ","))
  ∧ (∀ r, r ∈ site_Search (main wd md unicodeLower cfg) →
          ∃ path info, isNote path info = true
                       ∧ r = noteSearchItem wd md cfg path info).
Proof.
  split; [|split].
  - intros p. unfold postSearchItem. apply searchItem_fields.
  - intros path info. simpl. unfold noteSearchItem.
    destruct (parseFrontmatter (readOrNil wd path)) as [[meta body] err]. simpl.
    replace (noteDate (get meta "date")).1
      with (if bool_decide (get meta "date" = "") then ""
            else match time.Parse (get meta "date") with
                 | (t, None) => time.Format t
                 | (_, Some _) => get meta "date"
                 end); [apply searchItem_fields|].
    unfold noteDate. case_bool_decide as Hdate.
    + rewrite bool_decide_false by (by intros ?). done.
    + rewrite bool_decide_true by done.
      by destruct (time.Parse (get meta "date")) as [t [e|]].
  - intros r Hr.
    pose proof (Walk_invariant (searchNote wd md cfg)
                  (λ st, Forall (λ r, ∃ path info,
                                    isNote path info = true
                                    ∧ r = noteSearchItem wd md cfg path info) st.1)
                  (searchNote_adds_notes wd md cfg) wd "notes" ([], [])
                  (List.Forall_nil _)) as Hnotes.
    revert Hr. unfold main, collectPosts, postFiles. simpl.
    rewrite Slice_nil. simpl.
    destruct (Walk (searchNote wd md cfg) wd "notes" ([], [])).1
      as [items notes]. simpl in *.
    intros Hr. rewrite Forall_forall in Hnotes. by apply Hnotes.
Qed.

(** The end-to-end example of the specification: a single note
    [notes/x.md] with the title X gives one record, a note's, with the
    URL [/notes/x]. *)
Lemma search_single_note_example :
  let wd :=
    Directory (inl [("notes", Directory (inl
      [("x.md", File (inl (delimiter +:+ "title: X" +:+ nl +:+ delimiter +:+ "# Hi")))]))]) in
  site_Search (@main insertionSorter wd plainMarkdown (λ s, s) exampleCfg)
  = [searchItem "X" "/notes/x" "" "# Hi" "note" ""].
Proof. vm_compute. reflexivity. Qed.

Lemma monthAbbrev_length (m : Z) : String.length (time.monthAbbrev m) = 3%nat.
Proof.
  destruct m as [|p|p]; [done| |done].
  do 4 (try destruct p as [p|p|]; try done).
Qed.

(** [Format] puts a space after the three bytes of the month. *)
Lemma Format_space (t : time.Time) : String.get 3 (time.Format t) = Some " "%char.
Proof.
  unfold time.Format. pose proof (monthAbbrev_length (time.Month t)) as Hlen.
  destruct (time.monthAbbrev (time.Month t)) as [|a [|b [|c [|d s]]]];
    try discriminate.
  reflexivity.
Qed.

(** C3, as stated, fails: the note [notes/plan.md] has the date
    [tomorrow], which does not parse, and its record carries that string,
    which is neither empty nor a formatted date. *)
Lemma search_date_raw_when_unparsable :
  let site := @main insertionSorter exampleDir plainMarkdown (λ s, s) exampleCfg in
  (site_Search site !! 1%nat ≫= (.!! "url")) = Some "/notes/plan"
  ∧ (site_Search site !! 1%nat ≫= (.!! "date")) = Some "tomorrow"
  ∧ "tomorrow" ≠ ""
  ∧ ¬ humanDate "tomorrow".
Proof.
  intros site. split; [vm_compute; reflexivity|].
  split; [vm_compute; reflexivity|]. split; [discriminate|].
  intros [t Ht]. pose proof (Format_space t) as Hspace.
  rewrite <- Ht in Hspace. discriminate.
Qed.

(** ** The notes tree *)

Lemma nodeNames_unfold (n : NoteNode) :
  nodeNames n = Name n :: treeNames (Children n).
Proof.
  destruct n as [name url isDir children title]. simpl. f_equal.
  unfold treeNames. induction children as [|child children IH]; simpl; [done|].
  by rewrite IH.
Qed.

Lemma treeNames_snoc (nodes : list NoteNode) (n : NoteNode) :
  treeNames (nodes ++ [n]) = (treeNames nodes ++ nodeNames n)%list.
Proof.
  unfold treeNames. rewrite fmap_app, concat_app. simpl. by rewrite app_nil_r.
Qed.

Lemma skipped_hidden (name : string) :
  skipped name = true ↔ hiddenName name.
Proof.
  unfold skipped, hiddenName.
  rewrite !orb_true_iff, !bool_decide_eq_true, HasPrefix_spec. tauto.
Qed.

Lemma skipped_false (name : string) :
  skipped name = false ↔ ¬ hiddenName name.
Proof.
  rewrite <- skipped_hidden. by destruct (skipped name).
Qed.

Section tree.

Variable wd : FSNode.
Variable baseUrl : string.

(** The loop keeps the slice free of hidden names when the recursive
    calls on the entries do. *)
Lemma eachEntry_visible (build : FSNode → string → list NoteNode + error)
    (root : string) (entries : list (string * FSNode)) :
  Forall (λ e, ∀ path children,
            build e.2 path = inl children →
            Forall (λ name, ¬ hiddenName name) (treeNames children)) entries →
  ∀ nodes result,
    Forall (λ name, ¬ hiddenName name) (treeNames nodes) →
    eachEntry wd build root baseUrl entries nodes = inl result →
    Forall (λ name, ¬ hiddenName name) (treeNames result).
Proof.
  induction 1 as [|[name entry] entries Hentry _ IH]; intros nodes result Hnodes;
    simpl.
  - by intros [= <-].
  - destruct (skipped name) eqn:Hname; [by apply IH|].
    apply skipped_false in Hname.
    destruct (os.IsDir entry).
    + destruct (build entry (filepath.Join root name)) as [children|err] eqn:Hbuild;
        [|done].
      apply IH. rewrite treeNames_snoc, nodeNames_unfold. simpl.
      apply Forall_app. split; [done|]. constructor; [done|].
      by eapply Hentry.
    + destruct (strings.HasSuffix name ".md"); [|by apply IH].
      destruct (os.ReadFile wd (filepath.Join root name)) as [data|err];
        [|by apply IH].
      destruct (parseFrontmatter data) as [[meta body] err].
      apply IH. rewrite treeNames_snoc, nodeNames_unfold. simpl.
      apply Forall_app. split; [done|]. by repeat constructor.
Qed.

Lemma buildNotesTree_visible (dir : FSNode) :
  ∀ root nodes,
    buildNotesTree wd baseUrl dir root = inl nodes →
    Forall (λ name, ¬ hiddenName name) (treeNames nodes).
Proof.
  induction dir as [data | err | entries IH] using FSNode_nested_ind;
    intros root nodes; simpl; [done | done |].
  apply eachEntry_visible; [done | constructor].
Qed.

Lemma IsDir_prune (n : FSNode) : os.IsDir (prune n) = os.IsDir n.
Proof. by destruct n as [data | [entries | err]]. Qed.

(** Hidden entries are passed over before anything of them is read:
    the tree of the pruned directory is the tree of the directory. *)
Lemma buildNotesTree_prune (dir : FSNode) :
  ∀ root,
    buildNotesTree wd baseUrl (prune dir) root
    = buildNotesTree wd baseUrl dir root.
Proof.
  induction dir as [data | err | entries IH] using FSNode_nested_ind;
    intros root; [done | done |].
  simpl. generalize (@nil NoteNode) as nodes.
  induction IH as [|[name entry] entries Hentry _ IHentries]; intros nodes;
    [done|].
  simpl in *. destruct (skipped name) eqn:Hname; [apply IHentries|].
  simpl. rewrite Hname, IsDir_prune.
  destruct (os.IsDir entry) eqn:Hdir.
  - rewrite Hentry.
    by destruct (buildNotesTree wd baseUrl entry (filepath.Join root name)).
  - destruct (strings.HasSuffix name ".md"); [|done].
    destruct (os.ReadFile wd (filepath.Join root name)); [|done].
    by destruct (parseFrontmatter _) as [[meta body] err].
Qed.

End tree.

(** C5. A tree that [buildNotesTree] returns has no node, at any depth,
    named images or _index.md or with a name that begins with a dot; and
    the entries of such names, at any depth, make no difference to the
    result, being neither listed nor recursed into. *)
Theorem notes_tree_hides (wd : FSNode) (baseUrl : string) (dir : FSNode)
    (root : string) (nodes : list NoteNode) :
  buildNotesTree wd baseUrl dir root = inl nodes →
  (∀ name, name ∈ treeNames nodes →
           name ≠ "images" ∧ name ≠ "_index.md" ∧ ¬ ∃ rest, name = "." +:+ rest)
  ∧ buildNotesTree wd baseUrl (prune dir) root = inl nodes.
Proof.
  intros Hbuild. split.
  - intros name Hname.
    pose proof (buildNotesTree_visible wd baseUrl dir root nodes Hbuild) as Hvisible.
    rewrite Forall_forall in Hvisible. specialize (Hvisible name Hname).
    unfold hiddenName in Hvisible. tauto.
  - by rewrite buildNotesTree_prune.
Qed.

Lemma notes_tree_hides_witness :
  ∃ nodes,
    notesTree exampleDir exampleCfg = inl nodes
    ∧ treeNames nodes = ["garden"; "soil.md"; "plan.md"; "x.md"]
    ∧ ∀ name, name ∈ treeNames nodes →
              name ≠ "images" ∧ name ≠ "_index.md"
              ∧ ¬ ∃ rest, name = "." +:+ rest.
Proof.
  destruct (notesTree exampleDir exampleCfg) as [nodes|err] eqn:Htree;
    [|vm_compute in Htree; discriminate].
  exists nodes. split; [done|]. split.
  - vm_compute in Htree. injection Htree as <-. reflexivity.
  - unfold notesTree in Htree.
    destruct (os.lookup exampleDir ["notes"]) as [dir|]; [|discriminate].
    exact (proj1 (notes_tree_hides exampleDir (cfg_BaseURL exampleCfg) dir
                    "notes" nodes Htree)).
Defined.

(** ** The copy-link control of headings *)

Lemma assignedId_headingId (n : Heading) (id : string) :
  assignedId n id ↔ id ≠ "" ∧ headingId n = id.
Proof.
  unfold assignedId, headingId.
  destruct (Attribute n "id") as [[v|v|]|]; split.
  - intros [Hne [Heq|Heq]]; by simplify_eq.
  - intros [Hne <-]. split; [done | by left].
  - intros [Hne [Heq|Heq]]; by simplify_eq.
  - intros [Hne <-]. split; [done | by right].
  - intros [Hne [Heq|Heq]]; discriminate.
  - by intros [Hne <-].
  - intros [Hne [Heq|Heq]]; discriminate.
  - by intros [Hne <-].
Qed.

Section heading.

Variable RenderAttributes : list (string * AttrValue) → string.

Lemma renderHeading_leave_eq (w : list string) (n : Heading) (d : string) :
  levelByte (Level n) = Some d →
  renderHeading RenderAttributes w n false
  = Some (w ++ (if bool_decide (headingId n ≠ "")
                   && (bool_decide (Level n = 2%Z) || bool_decide (Level n = 3%Z))
                then [btnHTML ("#" +:+ headingId n)] else [])
            ++ closingTag d)%list.
Proof.
  intros Hd. unfold renderHeading, headingId, closingTag. rewrite Hd. simpl.
  destruct (Attribute n "id") as [[v|v|]|]; simpl.
  1, 2: destruct (bool_decide (v ≠ "")
                  && (bool_decide (Level n = 2%Z) || bool_decide (Level n = 3%Z)));
        by rewrite <- !app_assoc.
  all: by rewrite <- !app_assoc.
Qed.

(** What leaving a heading writes: the control, if any, and the closing
    tag. *)
Lemma renderHeading_leave (w : list string) (n : Heading) (d : string) :
  levelByte (Level n) = Some d →
  ∃ control,
    renderHeading RenderAttributes w n false
    = Some (w ++ control ++ closingTag d)%list
    ∧ ((∃ id, assignedId n id ∧ (Level n = 2 ∨ Level n = 3)%Z
              ∧ control = [btnHTML ("#" +:+ id)])
       ∨ ((¬ ∃ id, assignedId n id ∧ (Level n = 2 ∨ Level n = 3)%Z)
          ∧ control = [])).
Proof.
  intros Hd. rewrite (renderHeading_leave_eq w n d Hd).
  eexists. split; [reflexivity|].
  destruct (bool_decide (headingId n ≠ "")
            && (bool_decide (Level n = 2%Z) || bool_decide (Level n = 3%Z)))
    eqn:Hcond.
  - apply andb_true_iff in Hcond as [Hid Hlevel].
    apply bool_decide_eq_true in Hid.
    apply orb_true_iff in Hlevel. rewrite !bool_decide_eq_true in Hlevel.
    left. exists (headingId n). split; [|done].
    by apply assignedId_headingId.
  - right. split; [|done]. intros (id & Hassigned & Hlevel).
    apply assignedId_headingId in Hassigned as [Hne <-].
    apply andb_false_iff in Hcond as [Hid | Hcond].
    + by apply bool_decide_eq_false in Hid.
    + apply orb_false_iff in Hcond. rewrite !bool_decide_eq_false in Hcond. tauto.
Qed.

End heading.

Lemma levelByte_digit (level : Z) :
  (1 ≤ level ≤ 6)%Z →
  levelByte level = Some (String (ascii_of_nat (48 + Z.to_nat level)) "").
Proof.
  intros Hlevel.
  assert (level = 1 ∨ level = 2 ∨ level = 3 ∨ level = 4 ∨ level = 5 ∨ level = 6)%Z
    as Hcases by lia.
  by destruct Hcases as [-> | [-> | [-> | [-> | [-> | ->]]]]].
Qed.

(** C4. For a heading of a level from 1 to 6, what the renderer writes
    is: the opening tag, which is [<h], the digit of the level, the
    attributes if there are any, and [>]; then the heading's content;
    then the copy-link control, if and only if the level is 2 or 3 and a
    non-empty id was assigned; then the closing tag, [</h], the digit and
    [>]; and nothing else.  The control is one write, the button whose
    [onclick] copies the id behind a number sign. *)
Theorem heading_copy_link (RenderAttributes : list (string * AttrValue) → string)
    (w : list string) (n : Heading) (inner : list string) :
  (1 ≤ Level n ≤ 6)%Z →
  let q := String "034"%char "" in
  let digit := String (ascii_of_nat (48 + Z.to_nat (Level n))) "" in
  let opening :=
    (["<h"; digit]
       ++ (if bool_decide (Attributes n = []) then []
           else [RenderAttributes (Attributes n)])
       ++ [">"])%list in
  let closing := ["</h"; digit; ">"] in
  ∃ control,
    renderHeadingNode RenderAttributes w n inner
    = Some (w ++ opening ++ inner ++ control ++ closing)%list
    ∧ ((∃ id, assignedId n id ∧ (Level n = 2 ∨ Level n = 3)%Z
              ∧ control
                = [" <button class=" +:+ q +:+ "copy-link-btn" +:+ q
                     +:+ " aria-label=" +:+ q +:+ "Copy link to this section" +:+ q
                     +:+ " onclick=" +:+ q +:+ "copyToClipboard('#" +:+ id
                     +:+ "', this)" +:+ q +:+ "><i class=" +:+ q
                     +:+ "fa-solid fa-link" +:+ q +:+ "></i></button>"])
       ∨ ((¬ ∃ id, assignedId n id ∧ (Level n = 2 ∨ Level n = 3)%Z)
          ∧ control = [])).
Proof.
  intros Hlevel q digit opening closing.
  pose proof (levelByte_digit _ Hlevel) as Hd. fold digit in Hd.
  assert (renderHeading RenderAttributes w n true = Some (w ++ opening)%list)
    as Henter.
  { unfold renderHeading, opening. rewrite Hd. simpl.
    destruct (decide (Attributes n = [])) as [Hnil|Hattrs].
    - rewrite bool_decide_false by (by intros ?).
      rewrite bool_decide_true by done. by rewrite <- !app_assoc.
    - rewrite bool_decide_true by done.
      rewrite bool_decide_false by done. by rewrite <- !app_assoc. }
  clearbody opening.
  destruct (renderHeading_leave RenderAttributes ((w ++ opening) ++ inner)%list
              n digit Hd) as (control & Hleave & Hcontrol).
  exists control. split.
  - unfold renderHeadingNode. rewrite Henter.
    change (renderHeading RenderAttributes ((w ++ opening) ++ inner)%list n false
            = Some (w ++ opening ++ inner ++ control ++ closing)%list).
    rewrite Hleave. unfold closingTag, closing. by rewrite <- !app_assoc.
  - destruct Hcontrol as [(id & Hid & Hlevel23 & ->) | Hnone]; [|by right].
    left. exists id. split; [done|]. split; [done|]. reflexivity.
Qed.

(** The examples of the specification: an h2 with the id setup gets
    one control, which refers to #setup; an h1 with the id intro gets
    none. *)
Lemma heading_copy_link_witness :
  let q := String "034"%char "" in
  let h2 := {| Level := 2; Attributes := [("id", BytesValue "setup")] |} in
  let h1 := {| Level := 1; Attributes := [("id", BytesValue "intro")] |} in
  renderHeadingNode (λ _, " id=setup") [] h2 ["Setup"]
  = Some ["<h"; "2"; " id=setup"; ">"; "Setup";
          " <button class=" +:+ q +:+ "copy-link-btn" +:+ q
            +:+ " aria-label=" +:+ q +:+ "Copy link to this section" +:+ q
            +:+ " onclick=" +:+ q +:+ "copyToClipboard('#setup', this)" +:+ q
            +:+ "><i class=" +:+ q +:+ "fa-solid fa-link" +:+ q
            +:+ "></i></button>";
          "</h"; "2"; ">"]
  ∧ renderHeadingNode (λ _, " id=intro") [] h1 ["Intro"]
    = Some ["<h"; "1"; " id=intro"; ">"; "Intro"; "</h"; "1"; ">"].
Proof.
  intros q h2 h1.
  destruct (heading_copy_link (λ _, " id=setup") [] h2 ["Setup"])
    as (control & Hnode & Hcontrol); [simpl; lia|].
  rewrite Hnode. clear Hnode.
  split; [|reflexivity].
  destruct Hcontrol as [(id & [_ [Hid|Hid]] & _ & ->) | [Hnone ->]].
  - injection Hid as <-. reflexivity.
  - discriminate.
  - destruct Hnone. exists "setup". repeat split; [discriminate | by left | by left].
Defined.

(** ** The build reads [notes/] only *)

Lemma append_assoc (s1 s2 s3 : string) :
  (s1 +:+ s2) +:+ s3 = s1 +:+ s2 +:+ s3.
Proof. induction s1 as [|a s1 IH]; [done|]. rewrite !append_cons. by f_equal. Qed.

Lemma underNotes_Join (path name : string) :
  underNotes path → underNotes (filepath.Join path name).
Proof.
  unfold filepath.Join. intros [-> | [rest ->]]; right.
  - by exists name.
  - exists (rest +:+ "/" +:+ name). by rewrite append_assoc.
Qed.

Lemma Split_first (s sep : string) (m : nat) :
  String.index 0 sep s = Some m → s ≠ "" →
  ∃ more, strings.Split s sep = strings.upto m s :: more.
Proof.
  intros Hidx Hs. unfold strings.Split, strings.SplitN.
  change (-1 =? 0)%Z with false. change (-1 <? 0)%Z with true. cbv iota.
  destruct s as [|a s]; [done|].
  change (String.length (String a s)) with (S (String.length s)).
  cbn [strings.genSplit]. rewrite Hidx. by eexists.
Qed.

Lemma elements_underNotes (path : string) :
  underNotes path → ∃ rest, filepath.elements path = "notes" :: rest.
Proof.
  intros [-> | [rest ->]]; [by eexists|].
  destruct (Split_first ("notes/" +:+ rest) "/" 5) as [more Hsplit].
  - by destruct rest.
  - done.
  - unfold filepath.elements. rewrite Hsplit.
    change (strings.upto 5 ("notes/" +:+ rest)) with "notes".
    rewrite filter_cons. rewrite decide_True by done. by eexists.
Qed.

Section same_notes.

Variables wd wd' : FSNode.
Hypothesis same : sameNotes wd wd'.

Lemma ReadFile_underNotes (path : string) :
  underNotes path → os.ReadFile wd path = os.ReadFile wd' path.
Proof.
  intros [rest Hrest]%elements_underNotes. unfold os.ReadFile.
  by rewrite Hrest, same.
Qed.

Lemma processMarkdownFile_underNotes (md : Markdown)
    (path outputRelPath baseURL : string) :
  underNotes path →
  processMarkdownFile wd md path outputRelPath baseURL
  = processMarkdownFile wd' md path outputRelPath baseURL.
Proof.
  intros Hpath. unfold processMarkdownFile.
  by rewrite (ReadFile_underNotes path Hpath).
Qed.

Lemma readOrNil_underNotes (path : string) :
  underNotes path → readOrNil wd path = readOrNil wd' path.
Proof.
  intros Hpath. unfold readOrNil. by rewrite (ReadFile_underNotes path Hpath).
Qed.

(** Closures that agree under [notes] walk alike. *)
Lemma walk_underNotes {St : Type} (walkFn walkFn' : WalkFunc St) (n : FSNode) :
  (∀ path info err st, underNotes path →
                       walkFn path info err st = walkFn' path info err st) →
  ∀ path st, underNotes path → walk walkFn path n st = walk walkFn' path n st.
Proof.
  intros Hagree.
  induction n as [data | err | entries IH] using FSNode_nested_ind;
    intros path st Hpath; simpl.
  - by apply Hagree.
  - by rewrite Hagree.
  - rewrite Hagree by done.
    destruct (walkFn' path _ None st) as [st1 [e|]]; [done|].
    clear st. revert st1.
    induction IH as [|[name child] names Hchild _ IHnames]; intros st1; simpl;
      [done|].
    simpl in Hchild. rewrite Hchild by (by apply underNotes_Join).
    destruct (walk walkFn' (filepath.Join path name) child st1) as [st' [e|]].
    + destruct (negb (os.IsDir child) || bool_decide (e ≠ SkipDir));
        [done | apply IHnames].
    + apply IHnames.
Qed.

Lemma Walk_underNotes {St : Type} (walkFn walkFn' : WalkFunc St) (st : St) :
  (∀ path info err st, underNotes path →
                       walkFn path info err st = walkFn' path info err st) →
  Walk walkFn wd "notes" st = Walk walkFn' wd' "notes" st.
Proof.
  intros Hagree. unfold Walk.
  change (filepath.elements "notes") with ["notes"]. rewrite <- same.
  destruct (os.lookup wd ["notes"]) as [n|].
  - rewrite (walk_underNotes walkFn walkFn' n Hagree) by (by left). done.
  - rewrite Hagree by (by left). done.
Qed.

Lemma buildNotesTree_underNotes (baseUrl : string) (dir : FSNode) :
  ∀ root, underNotes root →
          buildNotesTree wd baseUrl dir root = buildNotesTree wd' baseUrl dir root.
Proof.
  induction dir as [data | err | entries IH] using FSNode_nested_ind;
    intros root Hroot; [done | done |].
  simpl. generalize (@nil NoteNode) as nodes.
  induction IH as [|[name entry] entries Hentry _ IHentries]; intros nodes;
    [done|].
  simpl in *. destruct (skipped name); [apply IHentries|].
  destruct (os.IsDir entry).
  - rewrite Hentry by (by apply underNotes_Join).
    by destruct (buildNotesTree wd' baseUrl entry (filepath.Join root name)).
  - destruct (strings.HasSuffix name ".md"); [|done].
    rewrite (ReadFile_underNotes (filepath.Join root name))
      by (by apply underNotes_Join).
    destruct (os.ReadFile wd' (filepath.Join root name)); [|done].
    by destruct (parseFrontmatter _) as [[meta body] err].
Qed.

(** The site is made of what [notes/] holds: no other part of the
    working directory, [content/] included, makes a difference. *)
Lemma main_reads_notes_only `{!sort.Sorter} (md : Markdown)
    (unicodeLower : string → string) (cfg : Config) :
  main wd md unicodeLower cfg = main wd' md unicodeLower cfg.
Proof.
  assert (notesTree wd cfg = notesTree wd' cfg) as Htree.
  { unfold notesTree. rewrite <- (same []).
    destruct (os.lookup wd ["notes"]) as [dir|]; [|done].
    apply buildNotesTree_underNotes. by left. }
  assert (homeContent wd md cfg = homeContent wd' md cfg) as Hhome.
  { unfold homeContent.
    by rewrite (ReadFile_underNotes "notes/_index.md")
      by (right; by exists "_index.md"). }
  assert (pageWalk wd md cfg = pageWalk wd' md cfg) as Hpages.
  { unfold pageWalk. apply Walk_underNotes.
    intros path info err st Hpath. unfold processNote.
    rewrite (processMarkdownFile_underNotes md path _ _ Hpath).
    by rewrite (ReadFile_underNotes path Hpath). }
  unfold main, publicAtTags, collectPosts, postFiles. cbn [foldl].
  rewrite Htree, Hhome, Hpages.
  rewrite (Walk_underNotes (collectNoteTags wd unicodeLower cfg)
             (collectNoteTags wd' unicodeLower cfg)).
  2: { intros path info err st Hpath. unfold collectNoteTags, taggedNote.
       by rewrite (readOrNil_underNotes path Hpath). }
  rewrite (Walk_underNotes (searchNote wd md cfg) (searchNote wd' md cfg)).
  2: { intros path info err st Hpath.
       unfold searchNote, noteSearchItem, listedNote.
       by rewrite (readOrNil_underNotes path Hpath). }
  done.
Qed.

End same_notes.

(** ** The posts collection *)

(** C2. Whatever the working directory holds, the post loop ranges over
    the empty list: it collects no post and writes no post page.  The
    homepage and the sitemap list no post, the tag index and the search
    index are those of the note walks started empty, every search record
    is a note's, and the feed is a rearrangement of the notes.  The site
    depends on what [notes/] holds and on nothing else of the working
    directory: [content/] is never read. *)
Theorem posts_collection_empty `{!sort.Sorter} (wd : FSNode) (md : Markdown)
    (unicodeLower : string → string) (cfg : Config) :
  let site := main wd md unicodeLower cfg in
  collectPosts wd md cfg = ([], [])
  ∧ site_Posts site = []
  ∧ site_PostPages site = []
  ∧ site_Index site = []
  ∧ site_SitemapPosts site = []
  ∧ site_Tags site
    = tagPages (publicAtTags wd md cfg)
        (Walk (collectNoteTags wd unicodeLower cfg) wd "notes" ∅).1
  ∧ site_Search site = (Walk (searchNote wd md cfg) wd "notes" ([], [])).1.1
  ∧ site_SitemapNotes site = (Walk (searchNote wd md cfg) wd "notes" ([], [])).1.2
  ∧ Forall (λ r, r !! "type" = Some "note") (site_Search site)
  ∧ site_RSS site ≡ₚ site_SitemapNotes site
  ∧ (∀ wd', sameNotes wd wd' → main wd' md unicodeLower cfg = site).
Proof.
  intros site.
  assert (∀ wd', sameNotes wd wd' → main wd' md unicodeLower cfg = site)
    as Hnotes_only.
  { intros wd' Hsame. symmetry. by apply main_reads_notes_only. }
  revert Hnotes_only. subst site. unfold main, collectPosts, postFiles. simpl.
  rewrite Slice_nil. simpl. intros Hnotes_only.
  pose proof (Walk_invariant (searchNote wd md cfg)
                (λ st, Forall (λ r, ∃ path info,
                                  isNote path info = true
                                  ∧ r = noteSearchItem wd md cfg path info) st.1)
                (searchNote_adds_notes wd md cfg) wd "notes" ([], [])
                (List.Forall_nil _)) as Hnotes.
  destruct (Walk (searchNote wd md cfg) wd "notes" ([], [])).1
    as [items notes]. simpl in *.
  repeat split; try done.
  - eapply Forall_impl; [exact Hnotes|].
    intros r (path & info & _ & ->). unfold noteSearchItem.
    destruct (parseFrontmatter (readOrNil wd path)) as [[meta body] err].
    apply searchItem_type.
  - apply sort.Slice_perm.
Qed.

(** * Further properties *)

(** ** Slices of strings *)

Lemma from_0 (s : string) : strings.from 0 s = s.
Proof.
  unfold strings.from. rewrite Nat.sub_0_r.
  induction s as [|a s IH]; [done|]. simpl. by rewrite IH.
Qed.

Lemma from_cons (n : nat) (a : ascii) (s : string) :
  strings.from (S n) (String a s) = strings.from n s.
Proof. reflexivity. Qed.

Lemma from_nil (n : nat) : strings.from n "" = "".
Proof. by destruct n. Qed.

Lemma upto_0 (s : string) : strings.upto 0 s = "".
Proof. by destruct s. Qed.

Lemma upto_cons (n : nat) (a : ascii) (s : string) :
  strings.upto (S n) (String a s) = String a (strings.upto n s).
Proof. reflexivity. Qed.

Lemma upto_nil (n : nat) : strings.upto n "" = "".
Proof. by destruct n. Qed.

Lemma length_append (s1 s2 : string) :
  String.length (s1 +:+ s2) = (String.length s1 + String.length s2)%nat.
Proof.
  induction s1 as [|a s1 IH]; [done|]. rewrite append_cons. simpl. by rewrite IH.
Qed.

Lemma append_nil_r (s : string) : s +:+ "" = s.
Proof. induction s as [|a s IH]; [done|]. rewrite append_cons. by rewrite IH. Qed.

(** [s[m:m+k] + s[m+k:] = s[m:]] *)
Lemma substring_from (s : string) :
  ∀ m k, String.substring m k s +:+ strings.from (m + k) s = strings.from m s.
Proof.
  induction s as [|a s IH]; intros m k.
  - rewrite !from_nil. by destruct m, k.
  - destruct m as [|m].
    + rewrite from_0. destruct k as [|k].
      * simpl. by rewrite from_0.
      * simpl Nat.add. rewrite from_cons.
        change (String.substring 0 (S k) (String a s))
          with (String a (String.substring 0 k s)).
        rewrite append_cons. f_equal.
        rewrite <- (from_0 s) at 3. apply (IH 0%nat k).
    + simpl Nat.add. rewrite !from_cons. apply (IH m k).
Qed.

Lemma upto_from (n : nat) (s : string) :
  strings.upto n s +:+ strings.from n s = s.
Proof.
  unfold strings.upto. rewrite <- (from_0 s) at 3. apply (substring_from s 0 n).
Qed.

Lemma length_from (s : string) :
  ∀ n, String.length (strings.from n s) = (String.length s - n)%nat.
Proof.
  induction s as [|a s IH]; intros n.
  - by rewrite from_nil.
  - destruct n as [|n]; [by rewrite from_0|]. rewrite from_cons. apply IH.
Qed.

Lemma length_upto (s : string) :
  ∀ n, String.length (strings.upto n s) = (n `min` String.length s)%nat.
Proof.
  induction s as [|a s IH]; intros n.
  - rewrite upto_nil. simpl. lia.
  - destruct n as [|n]; [done|]. rewrite upto_cons. simpl. by rewrite IH.
Qed.

(** [s[len(x):len(x)+len(y)]] of [x + y + z] is [y]. *)
Lemma substring_middle (x y z : string) :
  String.substring (String.length x) (String.length y) (x +:+ y +:+ z) = y.
Proof.
  induction x as [|a x IH]; [|by rewrite append_cons].
  change ("" +:+ y +:+ z) with (y +:+ z). simpl String.length.
  induction y as [|b y IHy]; [by destruct z|].
  rewrite append_cons. simpl. by rewrite IHy.
Qed.

Lemma from_append (x y : string) : strings.from (String.length x) (x +:+ y) = y.
Proof.
  induction x as [|a x IH]; [apply from_0|].
  rewrite append_cons. simpl String.length. by rewrite from_cons.
Qed.

Lemma upto_append (x y : string) : strings.upto (String.length x) (x +:+ y) = x.
Proof.
  induction x as [|a x IH]; [apply upto_0|].
  rewrite append_cons. simpl String.length. by rewrite upto_cons, IH.
Qed.

(** ** Cutting at a separator *)

(** Where [Index] finds the separator, the string is what stands before
    it, the separator, and what stands after. *)
Lemma index_cut (s sep : string) (m : nat) :
  String.index 0 sep s = Some m →
  s = strings.upto m s +:+ sep +:+ strings.from (m + String.length sep) s.
Proof.
  intros Hidx. pose proof (String.index_correct1 _ _ _ _ Hidx) as Hsep.
  rewrite <- Hsep at 1. rewrite substring_from. by rewrite upto_from.
Qed.

(** A string that holds the separator has an index for it. *)
Lemma index_found (x sep y : string) :
  sep ≠ "" → is_Some (String.index 0 sep (x +:+ sep +:+ y)).
Proof.
  intros Hsep.
  destruct (String.index 0 sep (x +:+ sep +:+ y)) as [m|] eqn:Hidx; [by eexists|].
  destruct (String.index_correct3 0 (String.length x) _ _ Hidx Hsep);
    [lia | apply substring_middle].
Qed.

(** The first instance is no later than any instance. *)
Lemma index_first (x sep y : string) (m : nat) :
  String.index 0 sep (x +:+ sep +:+ y) = Some m → (m ≤ String.length x)%nat.
Proof.
  intros Hidx. destruct (le_lt_dec m (String.length x)) as [|Hlt]; [done|].
  destruct (String.index_correct2 _ _ _ _ Hidx (String.length x));
    [lia | done | apply substring_middle].
Qed.

Lemma genSplit_nonempty (n : nat) (s sep : string) : strings.genSplit n s sep ≠ [].
Proof.
  destruct n as [|n]; simpl; [done|]. by destruct (String.index 0 sep s).
Qed.

Lemma Join_cons (e : string) (rest : list string) (sep : string) :
  rest ≠ [] → strings.Join (e :: rest) sep = e +:+ sep +:+ strings.Join rest sep.
Proof. by destruct rest. Qed.

(** Joining the pieces of a split with the separator gives the string
    back, whatever the number of cuts. *)
Lemma Join_genSplit (n : nat) (sep : string) :
  ∀ s, strings.Join (strings.genSplit n s sep) sep = s.
Proof.
  induction n as [|n IH]; intros s; simpl; [done|].
  destruct (String.index 0 sep s) as [m|] eqn:Hidx; [|done].
  rewrite Join_cons by apply genSplit_nonempty. rewrite IH.
  symmetry. by apply index_cut.
Qed.

(** ** The parts of a document with frontmatter *)

Lemma index_prefix (s sep : string) :
  strings.HasPrefix s sep = true → String.index 0 sep s = Some 0%nat.
Proof.
  unfold strings.HasPrefix. intros Hprefix. destruct s as [|b s].
  - by destruct sep.
  - change (String.index 0 sep (String b s))
      with (if String.prefix sep (String b s) then Some 0%nat
            else match String.index 0 sep s with
                 | Some n => Some (S n)
                 | None => None
                 end).
    by rewrite Hprefix.
Qed.

(** The three-way split of a document that begins with the delimiter:
    the empty part before it, and the rest cut at its first delimiter, if
    it has one. *)
Lemma SplitN_delimited (rest : string) :
  strings.SplitN (delimiter +:+ rest) delimiter 3
  = match String.index 0 delimiter rest with
    | Some m =>
        [""; strings.upto m rest;
         strings.from (m + String.length delimiter) rest]
    | None => [""; rest]
    end.
Proof.
  unfold strings.SplitN.
  change (3 =? 0)%Z with false. change (3 <? 0)%Z with false. cbv iota.
  replace (Z.to_nat (Z.min 3 (Z.of_nat (String.length (delimiter +:+ rest)) + 1)) - 1)%nat
    with 2%nat
    by (rewrite length_append; change (String.length delimiter) with 4%nat; lia).
  cbn [strings.genSplit].
  rewrite index_prefix by (apply HasPrefix_spec; by eexists).
  rewrite upto_0. change (0 + String.length delimiter)%nat with (String.length delimiter).
  rewrite from_append.
  by destruct (String.index 0 delimiter rest).
Qed.

(** What the parser returns for a document that begins with the
    delimiter, by whether the rest holds a second one. *)
Lemma parseFrontmatter_delimited (rest : string) :
  parseFrontmatter (delimiter +:+ rest)
  = match String.index 0 delimiter rest with
    | Some m =>
        (Some (foldl parseLine ∅ (bufio.Lines (strings.upto m rest))),
         strings.from (m + String.length delimiter) rest, None)
    | None =>
        (None, delimiter +:+ rest, Some (Errorf "invalid frontmatter format"))
    end.
Proof.
  unfold parseFrontmatter.
  rewrite (proj2 (HasPrefix_spec _ _)) by (by eexists). cbn [negb].
  rewrite SplitN_delimited.
  by destruct (String.index 0 delimiter rest).
Qed.

Lemma parseFrontmatter_success_parts (content : string)
    (meta : gmap string string) (body : string) :
  parseFrontmatter content = (Some meta, body, None) →
  ∃ block,
    content = delimiter +:+ block +:+ delimiter +:+ body
    ∧ String.index 0 delimiter (block +:+ delimiter +:+ body)
      = Some (String.length block)
    ∧ strings.SplitN content delimiter 3 = [""; block; body]
    ∧ meta = foldl parseLine ∅ (bufio.Lines block).
Proof.
  intros Hparse.
  destruct (strings.HasPrefix content delimiter) eqn:Hprefix.
  2: { unfold parseFrontmatter in Hparse. by rewrite Hprefix in Hparse. }
  apply HasPrefix_spec in Hprefix as [rest ->].
  rewrite parseFrontmatter_delimited in Hparse. rewrite SplitN_delimited.
  destruct (String.index 0 delimiter rest) as [m|] eqn:Hidx; [|done].
  injection Hparse as <- <-.
  pose proof (index_cut _ _ _ Hidx) as Hcut.
  change (String.length delimiter) with 4%nat in *.
  exists (strings.upto m rest). rewrite <- Hcut. repeat split; try done.
  rewrite Hidx. f_equal.
  pose proof (f_equal String.length Hcut) as Hlen.
  rewrite !length_append, length_from, length_upto in Hlen.
  rewrite length_upto. change (String.length delimiter) with 4%nat in Hlen. lia.
Qed.

(** X1. The parser succeeds, with a mapping and without an error, exactly
    on the documents that are the delimiter, a block, the delimiter again
    and a rest: the second delimiter may stand anywhere after the first,
    also in the middle of a line. *)
Theorem parseFrontmatter_succeeds_iff (content : string) :
  (∃ meta body, parseFrontmatter content = (Some meta, body, None))
  ↔ ∃ block rest, content = delimiter +:+ block +:+ delimiter +:+ rest.
Proof.
  split.
  - intros (meta & body & Hparse).
    destruct (parseFrontmatter_success_parts _ _ _ Hparse) as (block & -> & _).
    by exists block, body.
  - intros (block & rest & ->). rewrite parseFrontmatter_delimited.
    destruct (index_found block delimiter rest) as [m ->]; [done|].
    by eexists _, _.
Qed.

(** X2. On success nothing of the document is lost: it is the
    delimiter, the block the mapping is read from, the delimiter, and the
    body, where the block ends at the first delimiter after the opening
    one.  The body is returned whole, further delimiters included. *)
Theorem parseFrontmatter_reassembles (content : string)
    (meta : gmap string string) (body : string) :
  parseFrontmatter content = (Some meta, body, None) →
  ∃ block,
    content = delimiter +:+ block +:+ delimiter +:+ body
    ∧ meta = foldl parseLine ∅ (bufio.Lines block)
    ∧ ∀ x y, block +:+ delimiter +:+ body = x +:+ delimiter +:+ y →
             (String.length block ≤ String.length x)%nat.
Proof.
  intros Hparse.
  destruct (parseFrontmatter_success_parts _ _ _ Hparse)
    as (block & Hcontent & Hidx & _ & Hmeta).
  exists block. repeat split; try done.
  intros x y Heq. rewrite Heq in Hidx. by apply index_first in Hidx.
Qed.

Lemma parseFrontmatter_reassembles_witness :
  ∃ block,
    readmeDocument
    = delimiter +:+ block +:+ delimiter +:+ (parseFrontmatter readmeDocument).1.2.
Proof.
  destruct (parseFrontmatter_reassembles readmeDocument
              (default ∅ (parseFrontmatter readmeDocument).1.1)
              (parseFrontmatter readmeDocument).1.2)
    as (block & Hcontent & _); [vm_compute; reflexivity|].
  by exists block.
Defined.

(** ** Trimming white space *)

Lemma HasSuffix_spec (s suffix : string) :
  strings.HasSuffix s suffix = true ↔ ∃ front, s = front +:+ suffix.
Proof.
  unfold strings.HasSuffix.
  rewrite andb_true_iff, !bool_decide_eq_true. split.
  - intros [_ Hfrom].
    exists (strings.upto (String.length s - String.length suffix) s).
    rewrite <- (upto_from (String.length s - String.length suffix) s) at 1.
    by rewrite Hfrom.
  - intros [front ->]. rewrite length_append. split; [lia|].
    replace (String.length front + String.length suffix - String.length suffix)%nat
      with (String.length front) by lia.
    apply from_append.
Qed.

Lemma HasPrefix_length (s prefix : string) :
  strings.HasPrefix s prefix = true → (String.length prefix ≤ String.length s)%nat.
Proof. intros [rest ->]%HasPrefix_spec. rewrite length_append. lia. Qed.

Lemma HasSuffix_length (s suffix : string) :
  strings.HasSuffix s suffix = true → (String.length suffix ≤ String.length s)%nat.
Proof. intros [front ->]%HasSuffix_spec. rewrite length_append. lia. Qed.

Lemma spaceRunes_width (r : string) :
  r ∈ strings.spaceRunes → (1 ≤ String.length r)%nat.
Proof.
  assert (Forall (λ r, 1 ≤ String.length r)%nat strings.spaceRunes) as Hall
    by (repeat constructor).
  rewrite Forall_forall in Hall. apply Hall.
Qed.

Lemma leadingSpace_Some (s : string) (w : nat) :
  strings.leadingSpace s = Some w → (1 ≤ w ≤ String.length s)%nat.
Proof.
  unfold strings.leadingSpace.
  destruct (list_find _ strings.spaceRunes) as [[i r]|] eqn:Hfind; [|done].
  intros [= <-]. apply list_find_Some in Hfind as (Hr & Hprefix & _). simpl.
  split; [eapply spaceRunes_width, list_elem_of_lookup_2, Hr|].
  by apply HasPrefix_length.
Qed.

Lemma trailingSpace_Some (s : string) (w : nat) :
  strings.trailingSpace s = Some w → (1 ≤ w ≤ String.length s)%nat.
Proof.
  unfold strings.trailingSpace.
  destruct (list_find _ strings.spaceRunes) as [[i r]|] eqn:Hfind; [|done].
  intros [= <-]. apply list_find_Some in Hfind as (Hr & Hsuffix & _). simpl.
  split; [eapply spaceRunes_width, list_elem_of_lookup_2, Hr|].
  by apply HasSuffix_length.
Qed.

Lemma leadingSpace_None (s : string) :
  strings.leadingSpace s = None
  ↔ ∀ r, r ∈ strings.spaceRunes → strings.HasPrefix s r = false.
Proof.
  unfold strings.leadingSpace. rewrite fmap_None, list_find_None, Forall_forall.
  by setoid_rewrite not_true_iff_false.
Qed.

Lemma trailingSpace_None (s : string) :
  strings.trailingSpace s = None
  ↔ ∀ r, r ∈ strings.spaceRunes → strings.HasSuffix s r = false.
Proof.
  unfold strings.trailingSpace. rewrite fmap_None, list_find_None, Forall_forall.
  by setoid_rewrite not_true_iff_false.
Qed.

Lemma trimLeftSpace_done (fuel : nat) :
  ∀ s, (String.length s ≤ fuel)%nat →
       strings.leadingSpace (strings.trimLeftSpace fuel s) = None.
Proof.
  induction fuel as [|fuel IH]; intros s Hlen; simpl.
  - destruct s; [|simpl in Hlen; lia]. by vm_compute.
  - destruct (strings.leadingSpace s) as [w|] eqn:Hspace; [|done].
    apply leadingSpace_Some in Hspace. apply IH. rewrite length_from. lia.
Qed.

Lemma trimRightSpace_done (fuel : nat) :
  ∀ s, (String.length s ≤ fuel)%nat →
       strings.trailingSpace (strings.trimRightSpace fuel s) = None.
Proof.
  induction fuel as [|fuel IH]; intros s Hlen; simpl.
  - destruct s; [|simpl in Hlen; lia]. by vm_compute.
  - destruct (strings.trailingSpace s) as [w|] eqn:Hspace; [|done].
    apply trailingSpace_Some in Hspace. apply IH. rewrite length_upto. lia.
Qed.

(** Cutting white space off the end leaves the beginning as it was. *)
Lemma trimRightSpace_leading (fuel : nat) :
  ∀ s, strings.leadingSpace s = None →
       strings.leadingSpace (strings.trimRightSpace fuel s) = None.
Proof.
  induction fuel as [|fuel IH]; intros s Hs; simpl; [done|].
  destruct (strings.trailingSpace s) as [w|]; [|done].
  apply IH. rewrite leadingSpace_None in Hs |- *. intros r Hr.
  specialize (Hs r Hr).
  destruct (strings.HasPrefix (strings.upto _ s) r) eqn:Hprefix; [|done].
  apply HasPrefix_spec in Hprefix as [rest Hrest].
  rewrite <- Hs. symmetry. apply HasPrefix_spec.
  exists (rest +:+ strings.from (String.length s - w) s).
  rewrite <- append_assoc, <- Hrest. symmetry. apply upto_from.
Qed.

Lemma TrimSpace_trimmed (s : string) : trimmed (strings.TrimSpace s).
Proof.
  unfold strings.TrimSpace. cbv zeta.
  pose proof (trimLeftSpace_done (String.length s) s (le_n _)) as Hleft.
  apply (trimRightSpace_leading
           (String.length (strings.trimLeftSpace (String.length s) s))) in Hleft.
  pose proof (trimRightSpace_done _ _ (le_n
    (String.length (strings.trimLeftSpace (String.length s) s)))) as Hright.
  rewrite leadingSpace_None in Hleft. rewrite trailingSpace_None in Hright.
  intros r Hr. split; [by apply Hleft | by apply Hright].
Qed.

(** X3. The keys and the values of the mapping carry no white space at
    either end: no ASCII space, tab or line break, and no Unicode space
    either. *)
Theorem frontmatter_entries_trimmed (content : string)
    (meta : gmap string string) (body key val : string) :
  parseFrontmatter content = (Some meta, body, None) →
  meta !! key = Some val →
  trimmed key ∧ trimmed val.
Proof.
  intros Hparse Hget.
  destruct (parseFrontmatter_success_parts _ _ _ Hparse) as (block & _ & _ & _ & ->).
  apply foldl_parseLine_origin in Hget as [Hget | (line & _ & _ & -> & ->)].
  - by rewrite lookup_empty in Hget.
  - split; apply TrimSpace_trimmed.
Qed.

Lemma frontmatter_entries_trimmed_witness :
  trimmed "date" ∧ trimmed "2026-01-01".
Proof.
  apply (frontmatter_entries_trimmed readmeDocument
           (default ∅ (parseFrontmatter readmeDocument).1.1)
           (parseFrontmatter readmeDocument).1.2).
  - vm_compute. reflexivity.
  - vm_compute. reflexivity.
Defined.

(** ** The bytes of a tag *)

Lemma chars_append (s1 s2 : string) :
  chars (s1 +:+ s2) = (chars s1 ++ chars s2)%list.
Proof.
  induction s1 as [|a s1 IH]; [done|]. rewrite append_cons.
  unfold chars in *. simpl. by rewrite IH.
Qed.

Lemma chars_upto (c : ascii) (n : nat) (s : string) :
  c ∈ chars (strings.upto n s) → c ∈ chars s.
Proof.
  intros Hc. rewrite <- (upto_from n s), chars_append. apply elem_of_app. by left.
Qed.

Lemma chars_from (c : ascii) (n : nat) (s : string) :
  c ∈ chars (strings.from n s) → c ∈ chars s.
Proof.
  intros Hc. rewrite <- (upto_from n s), chars_append. apply elem_of_app. by right.
Qed.

(** Where the first instance of a byte is, and that there is none
    before it. *)
Lemma index_byte (c : ascii) (s : string) :
  match String.index 0 (String c "") s with
  | Some m => (c ∉ chars (strings.upto m s)) ∧ (m < String.length s)%nat
  | None => c ∉ chars s
  end.
Proof.
  induction s as [|b s IH]; [by apply not_elem_of_nil|].
  change (String.index 0 (String c "") (String b s))
    with (if String.prefix (String c "") (String b s) then Some 0%nat
          else match String.index 0 (String c "") s with
               | Some n => Some (S n)
               | None => None
               end).
  simpl String.prefix. destruct (Ascii.ascii_dec c b) as [->|Hne].
  - replace (String.prefix "" s) with true by (by destruct s).
    split; [apply not_elem_of_nil | simpl; lia].
  - destruct (String.index 0 (String c "") s) as [n|].
    + destruct IH as [IH Hlen]. rewrite upto_cons. split; [|simpl; lia].
      unfold chars in *. simpl. by apply not_elem_of_cons.
    + unfold chars in *. simpl. by apply not_elem_of_cons.
Qed.

(** [ReplaceAll(s, c, "")] holds no [c], and no byte that [s] does not
    hold. *)
Lemma replace_removes (c : ascii) (fuel : nat) :
  ∀ s, (String.length s ≤ fuel)%nat →
       c ∉ chars (strings.replace fuel s (String c "") "").
Proof.
  induction fuel as [|fuel IH]; intros s Hlen; simpl.
  - destruct s; [apply not_elem_of_nil | simpl in Hlen; lia].
  - pose proof (index_byte c s) as Hidx.
    destruct (String.index 0 (String c "") s) as [i|]; [|done].
    destruct Hidx as [Hbefore Hi].
    rewrite !chars_append. simpl. rewrite not_elem_of_app. split; [done|].
    apply IH. rewrite length_from. simpl. lia.
Qed.

Lemma replace_subset (x : ascii) (old : string) (fuel : nat) :
  ∀ s, x ∈ chars (strings.replace fuel s old "") → x ∈ chars s.
Proof.
  induction fuel as [|fuel IH]; intros s; simpl; [done|].
  destruct (String.index 0 old s) as [i|]; [|done].
  rewrite !chars_append. simpl. rewrite elem_of_app.
  intros [Hx | Hx]; [by eapply chars_upto | eapply chars_from, IH, Hx].
Qed.

(** The pieces of a split hold no separator byte, and no byte that the
    string does not hold. *)
Lemma genSplit_pieces (c : ascii) (fuel : nat) :
  ∀ s piece, (String.length s ≤ fuel)%nat →
             piece ∈ strings.genSplit fuel s (String c "") →
             (c ∉ chars piece) ∧ ∀ x, x ∈ chars piece → x ∈ chars s.
Proof.
  induction fuel as [|fuel IH]; intros s piece Hlen; simpl.
  - intros ->%list_elem_of_singleton.
    destruct s; [|simpl in Hlen; lia]. split; [apply not_elem_of_nil | done].
  - pose proof (index_byte c s) as Hidx.
    destruct (String.index 0 (String c "") s) as [m|].
    + destruct Hidx as [Hbefore Hm].
      intros [-> | Hpiece]%elem_of_cons.
      * split; [done|]. intros x. apply chars_upto.
      * destruct (IH (strings.from (m + 1) s) piece) as [Hc Hsub];
          [rewrite length_from; simpl; lia | done |].
        split; [done|]. intros x Hx. eapply chars_from, Hsub, Hx.
    + by intros ->%list_elem_of_singleton.
Qed.

Lemma trimLeftSpace_subset (x : ascii) (fuel : nat) :
  ∀ s, x ∈ chars (strings.trimLeftSpace fuel s) → x ∈ chars s.
Proof.
  induction fuel as [|fuel IH]; intros s; simpl; [done|].
  destruct (strings.leadingSpace s) as [w|]; [|done].
  intros Hx. eapply chars_from, IH, Hx.
Qed.

Lemma trimRightSpace_subset (x : ascii) (fuel : nat) :
  ∀ s, x ∈ chars (strings.trimRightSpace fuel s) → x ∈ chars s.
Proof.
  induction fuel as [|fuel IH]; intros s; simpl; [done|].
  destruct (strings.trailingSpace s) as [w|]; [|done].
  intros Hx. eapply chars_upto, IH, Hx.
Qed.

Lemma TrimSpace_subset (x : ascii) (s : string) :
  x ∈ chars (strings.TrimSpace s) → x ∈ chars s.
Proof.
  unfold strings.TrimSpace. cbv zeta.
  intros Hx%trimRightSpace_subset. by eapply trimLeftSpace_subset.
Qed.

(** X4. A parsed tag is never empty, carries no white space at either
    end, and holds no comma and neither quote character. *)
Theorem parsed_tags_clean (meta : meta_map) (t : string) :
  t ∈ parseTags meta →
  t ≠ "" ∧ trimmed t
  ∧ (","%char ∉ chars t) ∧ ("'"%char ∉ chars t) ∧ ("034"%char ∉ chars t).
Proof.
  rewrite parseTags_filter. case_bool_decide as Htags; [|by intros ?%elem_of_nil].
  intros [Hne (piece & -> & Hpiece)%list_elem_of_fmap]%list_elem_of_filter.
  split; [done|]. split; [apply TrimSpace_trimmed|].
  unfold strings.Split, strings.SplitN in Hpiece.
  change (-1 =? 0)%Z with false in Hpiece. change (-1 <? 0)%Z with true in Hpiece.
  cbv iota in Hpiece.
  apply (genSplit_pieces ","%char) in Hpiece as [Hcomma Hsub]; [|done].
  split; [|split].
  - by intros ?%TrimSpace_subset.
  - intros Hq%TrimSpace_subset%Hsub. revert Hq.
    apply (replace_removes "'"%char). done.
  - intros Hq%TrimSpace_subset%Hsub%replace_subset. revert Hq.
    apply (replace_removes "034"%char). done.
Qed.

Lemma parsed_tags_clean_witness :
  "web" ≠ "" ∧ trimmed "web"
  ∧ (","%char ∉ chars "web") ∧ ("'"%char ∉ chars "web")
  ∧ ("034"%char ∉ chars "web").
Proof.
  apply (parsed_tags_clean (Some {[ "tags" := tagsSingleQuoted ]})).
  vm_compute. apply list_elem_of_In. right. by left.
Defined.

(** ** The shape of the notes tree *)

Lemma descendants_unfold (n : NoteNode) :
  descendants n = n :: treeNodes (Children n).
Proof.
  destruct n as [name url isDir children title]. simpl. f_equal.
  unfold treeNodes. induction children as [|child children IH]; simpl; [done|].
  by rewrite IH.
Qed.

Lemma treeNodes_snoc (nodes : list NoteNode) (n : NoteNode) :
  treeNodes (nodes ++ [n]) = (treeNodes nodes ++ descendants n)%list.
Proof.
  unfold treeNodes. rewrite fmap_app, concat_app. simpl. by rewrite app_nil_r.
Qed.

Lemma HasSuffix_nonempty (s suffix : string) :
  strings.HasSuffix s suffix = true → suffix ≠ "" → s ≠ "".
Proof.
  intros [front ->]%HasSuffix_spec Hsuffix Hempty.
  apply (f_equal String.length) in Hempty. rewrite length_append in Hempty.
  destruct suffix; [done | simpl in Hempty; lia].
Qed.

Section tree_shape.

Variable wd : FSNode.
Variable baseUrl : string.

Lemma eachEntry_shape (build : FSNode → string → list NoteNode + error)
    (root : string) (entries : list (string * FSNode)) :
  Forall (λ e, ∀ path children,
            build e.2 path = inl children →
            Forall (folderOrNote baseUrl) (treeNodes children)) entries →
  ∀ nodes result,
    Forall (folderOrNote baseUrl) (treeNodes nodes) →
    eachEntry wd build root baseUrl entries nodes = inl result →
    Forall (folderOrNote baseUrl) (treeNodes result).
Proof.
  induction 1 as [|[name entry] entries Hentry _ IH]; intros nodes result Hnodes;
    simpl.
  - by intros [= <-].
  - destruct (skipped name); [by apply IH|].
    destruct (os.IsDir entry).
    + destruct (build entry (filepath.Join root name)) as [children|err] eqn:Hbuild;
        [|done].
      apply IH. rewrite treeNodes_snoc, descendants_unfold. simpl.
      apply Forall_app. split; [done|]. constructor; [done|].
      by eapply Hentry.
    + destruct (strings.HasSuffix name ".md") eqn:Hmd; [|by apply IH].
      destruct (os.ReadFile wd (filepath.Join root name)) as [data|err];
        [|by apply IH].
      destruct (parseFrontmatter data) as [[meta body] err].
      apply IH. rewrite treeNodes_snoc, descendants_unfold. simpl.
      apply Forall_app. split; [done|]. constructor; [|constructor].
      unfold folderOrNote. simpl. repeat split; try done.
      * destruct (bool_decide (err = None) && bool_decide (get meta "title" ≠ ""))
          eqn:Htitle.
        -- apply andb_true_iff in Htitle as [_ Htitle].
           by apply bool_decide_eq_true in Htitle.
        -- by eapply HasSuffix_nonempty.
      * apply HasPrefix_spec. eexists. by rewrite append_assoc.
Qed.

Lemma buildNotesTree_shape (dir : FSNode) :
  ∀ root nodes,
    buildNotesTree wd baseUrl dir root = inl nodes →
    Forall (folderOrNote baseUrl) (treeNodes nodes).
Proof.
  induction dir as [data | err | entries IH] using FSNode_nested_ind;
    intros root nodes; simpl; [done | done |].
  apply eachEntry_shape; [done | constructor].
Qed.

Lemma eachEntry_listed (build : FSNode → string → list NoteNode + error)
    (root : string) (entries : list (string * FSNode)) :
  ∀ nodes result,
    eachEntry wd build root baseUrl entries nodes = inl result →
    ∃ new, result = (nodes ++ new)%list
           ∧ Forall2 (standsFor build root) new
               (filter (λ e, listed wd root e = true) entries).
Proof.
  induction entries as [|[name entry] entries IH]; intros nodes result; simpl.
  - intros [= <-]. exists []. by rewrite app_nil_r.
  - destruct (skipped name) eqn:Hskip.
    { rewrite filter_cons_False; [apply IH|].
      unfold listed. simpl. by rewrite Hskip. }
    destruct (os.IsDir entry) eqn:Hdir.
    + destruct (build entry (filepath.Join root name)) as [children|err] eqn:Hbuild;
        [|done].
      rewrite filter_cons_True by (unfold listed; simpl; by rewrite Hskip, Hdir).
      intros (new & -> & Hnew)%IH. eexists. rewrite <- app_assoc. split; [done|].
      constructor; [|done]. unfold standsFor. simpl. by rewrite Hdir.
    + destruct (strings.HasSuffix name ".md") eqn:Hmd.
      2: { rewrite filter_cons_False; [apply IH|].
           unfold listed. simpl. by rewrite Hskip, Hdir, Hmd. }
      destruct (os.ReadFile wd (filepath.Join root name)) as [data|err] eqn:Hread.
      * rewrite filter_cons_True.
        2: { unfold listed. simpl. by rewrite Hskip, Hdir, Hmd, Hread. }
        destruct (parseFrontmatter data) as [[meta body] err].
        intros (new & -> & Hnew)%IH. eexists. rewrite <- app_assoc.
        split; [done|]. constructor; [|done].
        unfold standsFor. simpl. by rewrite Hdir.
      * rewrite filter_cons_False; [apply IH|].
        unfold listed. simpl. by rewrite Hskip, Hdir, Hmd, Hread.
Qed.

End tree_shape.

(** X5. Every node of the notes tree, at any depth, is a folder or a
    note: a folder has neither URL nor title; a note has no children, a
    name that ends in [.md], a title that is not empty (the file name
    where the frontmatter gives none), and a URL under [notes/]. *)
Theorem notes_tree_shape (wd : FSNode) (baseUrl : string) (dir : FSNode)
    (root : string) (nodes : list NoteNode) :
  buildNotesTree wd baseUrl dir root = inl nodes →
  ∀ n, n ∈ treeNodes nodes → folderOrNote baseUrl n.
Proof.
  intros Hbuild. apply Forall_forall. by eapply buildNotesTree_shape.
Qed.

Lemma notes_tree_shape_witness :
  ∃ nodes,
    notesTree exampleDir exampleCfg = inl nodes
    ∧ length (treeNodes nodes) = 4%nat
    ∧ ∀ n, n ∈ treeNodes nodes → folderOrNote "/" n.
Proof.
  destruct (notesTree exampleDir exampleCfg) as [nodes|err] eqn:Htree;
    [|vm_compute in Htree; discriminate].
  exists nodes. split; [done|]. split.
  - vm_compute in Htree. injection Htree as <-. reflexivity.
  - unfold notesTree in Htree.
    destruct (os.lookup exampleDir ["notes"]) as [dir|]; [|discriminate].
    exact (notes_tree_shape exampleDir "/" dir "notes" nodes Htree).
Defined.

(** X6. Building the notes tree fails exactly when a folder it enters
    cannot be listed: the root, or a folder below it that is reached
    through visible folders only.  A note that cannot be read, and
    whatever lies in a hidden folder, never makes it fail. *)
Theorem buildNotesTree_succeeds_iff (wd : FSNode) (baseUrl : string)
    (dir : FSNode) (root : string) :
  succeeds (buildNotesTree wd baseUrl dir root) ↔ listable dir = true.
Proof.
  revert root.
  induction dir as [data | err | entries IH] using FSNode_nested_ind;
    intros root; simpl.
  - split; [by intros [? ?] | done].
  - split; [by intros [? ?] | done].
  - generalize (@nil NoteNode) as nodes.
    induction IH as [|[name entry] entries Hentry _ IHentries]; intros nodes;
      simpl in *.
    + split; [done | by eexists].
    + destruct (skipped name); simpl; [apply IHentries|].
      destruct (os.IsDir entry); simpl.
      * specialize (Hentry (filepath.Join root name)).
        destruct (buildNotesTree wd baseUrl entry (filepath.Join root name))
          as [children|err].
        -- replace (listable entry) with true
             by (symmetry; apply Hentry; by eexists).
           apply IHentries.
        -- replace (listable entry) with false.
           { split; [by intros [? ?] | done]. }
           symmetry. apply not_true_is_false. intros Hl.
           apply Hentry in Hl as [? ?]. done.
      * destruct (strings.HasSuffix name ".md"); [|apply IHentries].
        destruct (os.ReadFile wd (filepath.Join root name)); [|apply IHentries].
        destruct (parseFrontmatter _) as [[meta body] err]. apply IHentries.
Qed.

(** X7. The nodes of a folder stand, one for one and in the order of the
    directory listing, for its visible sub-folders and its visible
    markdown files that can be read; the children of a sub-folder's node
    are the tree built for that sub-folder. *)
Theorem notes_tree_lists (wd : FSNode) (baseUrl root : string)
    (entries : list (string * FSNode)) (nodes : list NoteNode) :
  buildNotesTree wd baseUrl (Directory (inl entries)) root = inl nodes →
  Forall2 (standsFor (buildNotesTree wd baseUrl) root) nodes
    (filter (λ e, listed wd root e = true) entries).
Proof.
  simpl. intros (new & -> & Hnew)%eachEntry_listed. done.
Qed.

Lemma notes_tree_lists_witness :
  let entries :=
    match os.lookup exampleDir ["notes"] with
    | Some (Directory (inl entries)) => entries
    | _ => []
    end in
  ∃ nodes,
    Name <$> nodes = ["garden"; "plan.md"; "x.md"]
    ∧ Forall2 (standsFor (buildNotesTree exampleDir "/") "notes") nodes
        (filter (λ e, listed exampleDir "notes" e = true) entries).
Proof.
  intros entries.
  destruct (buildNotesTree exampleDir "/" (Directory (inl entries)) "notes")
    as [nodes|err] eqn:Hbuild; [|vm_compute in Hbuild; discriminate].
  exists nodes. split.
  - vm_compute in Hbuild. injection Hbuild as <-. reflexivity.
  - exact (notes_tree_lists exampleDir "/" "notes" entries nodes Hbuild).
Defined.

(** ** What a walk visits *)

(** A closure that hands back the error it is given, and no error of its
    own, is run on the visited entries one after the other. *)
Section walk_fusion.

Context {St : Type}.
Variable walkFn : WalkFunc St.

Hypothesis walkFn_err :
  ∀ path info e st, walkFn path info (Some e) st = (st, Some e).
Hypothesis walkFn_ok :
  ∀ path info st, (walkFn path (Some info) None st).2 = None.

Lemma walkNames_fusion (path : string) (names : list (string * FSNode)) :
  Forall (λ e, ∀ path seen st, ∃ new err,
            walk collect path e.2 seen = ((seen ++ new)%list, err)
            ∧ walk walkFn path e.2 st = (foldl (onEntry walkFn) st new, err)) names →
  ∀ seen st, ∃ new err,
    walkNames (walk collect) path names seen = ((seen ++ new)%list, err)
    ∧ walkNames (walk walkFn) path names st = (foldl (onEntry walkFn) st new, err).
Proof.
  induction 1 as [|[name child] names Hchild _ IH]; intros seen st; simpl.
  - exists [], None. by rewrite app_nil_r.
  - destruct (Hchild (filepath.Join path name) seen st)
      as (new1 & err1 & Hseen1 & Hst1).
    simpl in Hseen1, Hst1. rewrite Hseen1, Hst1.
    destruct (IH (seen ++ new1)%list (foldl (onEntry walkFn) st new1))
      as (new2 & err2 & Hseen & Hst).
    assert (∃ new err,
              walkNames (walk collect) path names (seen ++ new1)%list
              = ((seen ++ new)%list, err)
              ∧ walkNames (walk walkFn) path names (foldl (onEntry walkFn) st new1)
                = (foldl (onEntry walkFn) st new, err)) as Hrest.
    { exists (new1 ++ new2)%list, err2.
      by rewrite Hseen, Hst, foldl_app, app_assoc. }
    destruct err1 as [e|]; [|done].
    destruct (negb (os.IsDir child) || bool_decide (e ≠ SkipDir)); [|done].
    by exists new1, (Some e).
Qed.

Lemma walk_fusion (n : FSNode) :
  ∀ path seen st, ∃ new err,
    walk collect path n seen = ((seen ++ new)%list, err)
    ∧ walk walkFn path n st = (foldl (onEntry walkFn) st new, err).
Proof.
  induction n as [data | e | entries IH] using FSNode_nested_ind;
    intros path seen st.
  - simpl. eexists [_], None. split; [done|].
    pose proof (walkFn_ok path
      {| info_Name := filepath.Base path; info_IsDir := false |} st) as Hok.
    unfold onEntry. simpl.
    by destruct (walkFn path _ None st) as [st' err']; simplify_eq/=.
  - simpl. rewrite walkFn_err. exists [], (Some e). by rewrite app_nil_r.
  - simpl.
    set (info := {| info_Name := filepath.Base path; info_IsDir := true |}).
    assert (walkFn path (Some info) None st = (onEntry walkFn st (path, info), None))
      as Hstep.
    { pose proof (walkFn_ok path info st) as Hok. unfold onEntry. simpl.
      by destruct (walkFn path (Some info) None st); simplify_eq/=. }
    rewrite Hstep.
    destruct (walkNames_fusion path entries IH
                (seen ++ [(path, info)])%list (onEntry walkFn st (path, info)))
      as (new & err & Hseen & Hst).
    exists ((path, info) :: new), err. by rewrite Hseen, Hst, <- app_assoc.
Qed.

Lemma Walk_fusion (wd : FSNode) (root : string) (st : St) :
  (Walk walkFn wd root st).1 = foldl (onEntry walkFn) st (visits wd root).
Proof.
  unfold visits, Walk.
  destruct (os.lookup wd (filepath.elements root)) as [n|].
  - destruct (walk_fusion n root [] st) as (new & err & -> & ->).
    by destruct err as [[]|].
  - by rewrite walkFn_err.
Qed.

End walk_fusion.

(** A closure that may return an error of its own is run on the visited
    entries as far as the first such error, which ends the walk. *)
Section walk_run.

Context {St : Type}.
Variable walkFn : WalkFunc St.

Hypothesis walkFn_err :
  ∀ path info e st, walkFn path info (Some e) st = (st, Some e).
Hypothesis walkFn_raise :
  ∀ path info st e,
    (walkFn path (Some info) None st).2 = Some e → e ≠ SkipDir ∧ e ≠ SkipAll.

Lemma run_app (l1 l2 : list (string * FileInfo)) :
  ∀ st, runEntries walkFn st (l1 ++ l2)
        = match runEntries walkFn st l1 with
          | (st', None) => runEntries walkFn st' l2
          | (st', Some e) => (st', Some e)
          end.
Proof.
  induction l1 as [|v l1 IH]; intros st; simpl; [done|].
  destruct (walkFn v.1 (Some v.2) None st) as [st' [e|]]; [done | apply IH].
Qed.

Lemma run_raise (entries : list (string * FileInfo)) :
  ∀ st e, (runEntries walkFn st entries).2 = Some e → e ≠ SkipDir ∧ e ≠ SkipAll.
Proof.
  induction entries as [|v entries IH]; intros st e; simpl; [done|].
  pose proof (walkFn_raise v.1 v.2 st) as Hraise.
  destruct (walkFn v.1 (Some v.2) None st) as [st' [e'|]]; simpl in *.
  - intros [= <-]. by apply Hraise.
  - apply IH.
Qed.

Lemma walkNames_run (path : string) (names : list (string * FSNode)) :
  Forall (λ e, ∀ path seen st, ∃ new err,
            walk collect path e.2 seen = ((seen ++ new)%list, err)
            ∧ walk walkFn path e.2 st
              = finish (runEntries walkFn st new) err) names →
  ∀ seen st, ∃ new err,
    walkNames (walk collect) path names seen = ((seen ++ new)%list, err)
    ∧ walkNames (walk walkFn) path names st
      = finish (runEntries walkFn st new) err.
Proof.
  induction 1 as [|[name child] names Hchild _ IH]; intros seen st.
  { exists [], None. simpl. by rewrite app_nil_r. }
  destruct (Hchild (filepath.Join path name) seen st)
    as (new1 & err1 & Hseen1 & Hst1).
  simpl in Hseen1, Hst1. cbn [walkNames]. rewrite Hseen1, Hst1.
  destruct (runEntries walkFn st new1) as [st1 [e|]] eqn:Hrun.
  - destruct (run_raise new1 st e) as [Hskip _]; [by rewrite Hrun|].
    unfold finish at 1. simpl.
    rewrite (bool_decide_true (e ≠ SkipDir)) by done. rewrite orb_true_r.
    destruct (IH (seen ++ new1)%list st1) as (new2 & err2 & Hseen2 & _).
    assert (∀ new2 err, finish (runEntries walkFn st (new1 ++ new2)) err
                        = (st1, Some e)) as Hstop.
    { intros l err. by rewrite run_app, Hrun. }
    destruct err1 as [e1|].
    + destruct (negb (os.IsDir child) || bool_decide (e1 ≠ SkipDir)).
      * exists new1, (Some e1). split; [done|].
        unfold finish. by rewrite Hrun.
      * exists (new1 ++ new2)%list, err2. by rewrite Hseen2, app_assoc.
    + exists (new1 ++ new2)%list, err2. by rewrite Hseen2, app_assoc.
  - unfold finish at 1. simpl.
    destruct (IH (seen ++ new1)%list st1) as (new2 & err2 & Hseen2 & Hst2).
    assert (∃ new err,
              walkNames (walk collect) path names (seen ++ new1)%list
              = ((seen ++ new)%list, err)
              ∧ walkNames (walk walkFn) path names st1
                = finish (runEntries walkFn st new) err) as Hrest.
    { exists (new1 ++ new2)%list, err2.
      by rewrite Hseen2, Hst2, run_app, Hrun, app_assoc. }
    destruct err1 as [e1|]; [|done].
    destruct (negb (os.IsDir child) || bool_decide (e1 ≠ SkipDir)); [|done].
    exists new1, (Some e1). split; [done|]. unfold finish. by rewrite Hrun.
Qed.

Lemma walk_run (n : FSNode) :
  ∀ path seen st, ∃ new err,
    walk collect path n seen = ((seen ++ new)%list, err)
    ∧ walk walkFn path n st = finish (runEntries walkFn st new) err.
Proof.
  induction n as [data | e | entries IH] using FSNode_nested_ind;
    intros path seen st.
  - simpl. eexists [_], None. split; [done|]. unfold finish. simpl.
    by destruct (walkFn path _ None st) as [st' [e|]].
  - simpl. rewrite walkFn_err. exists [], (Some e). by rewrite app_nil_r.
  - simpl.
    set (info := {| info_Name := filepath.Base path; info_IsDir := true |}).
    destruct (walkFn path (Some info) None st) as [st1 [e|]] eqn:Hstep.
    + destruct (walkNames_run path entries IH
                  (seen ++ [(path, info)])%list st) as (new & err & Hseen & _).
      exists ((path, info) :: new), err. rewrite Hseen, <- app_assoc.
      split; [done|]. unfold finish. simpl. by rewrite Hstep.
    + destruct (walkNames_run path entries IH
                  (seen ++ [(path, info)])%list st1) as (new & err & Hseen & Hst).
      exists ((path, info) :: new), err. rewrite Hseen, Hst, <- app_assoc.
      split; [done|]. simpl. by rewrite Hstep.
Qed.

Lemma Walk_run (wd : FSNode) (root : string) (st : St) :
  Walk walkFn wd root st
  = finish (runEntries walkFn st (visits wd root)) (Walk collect wd root []).2.
Proof.
  unfold visits, Walk.
  destruct (os.lookup wd (filepath.elements root)) as [n|].
  - destruct (walk_run n root [] st) as (new & err & -> & ->).
    unfold finish. cbn [app].
    replace (match err with
             | Some SkipDir | Some SkipAll => (new, None)
             | _ => (new, err)
             end.1) with new by (by destruct err as [[]|]).
    destruct (runEntries walkFn st new) as [st' [e|]] eqn:Hrun; cbn [fst snd].
    + destruct (run_raise new st e) as [Hdir Hall]; [by rewrite Hrun|].
      by destruct e.
    + by destruct err as [[]|].
  - rewrite walkFn_err. reflexivity.
Qed.

End walk_run.

(** ** The three walks over the notes *)

Section note_walks.

Context `{!sort.Sorter}.
Variable wd : FSNode.
Variable md : Markdown.
Variable unicodeLower : string → string.
Variable cfg : Config.

(** The fields of the site that the note walks fill. *)
Lemma main_notes :
  let site := main wd md unicodeLower cfg in
  site_NotePages site = (pageWalk wd md cfg).1.1.1
  ∧ site_Tags site
    = tagPages (publicAtTags wd md cfg)
        (Walk (collectNoteTags wd unicodeLower cfg) wd "notes" ∅).1
  ∧ site_Search site = (Walk (searchNote wd md cfg) wd "notes" ([], [])).1.1
  ∧ site_SitemapNotes site
    = (Walk (searchNote wd md cfg) wd "notes" ([], [])).1.2
  ∧ site_RSS site = sort.Slice (site_SitemapNotes site).
Proof.
  unfold main, collectPosts, postFiles. simpl. rewrite Slice_nil. simpl.
  by destruct (Walk (searchNote wd md cfg) wd "notes" ([], [])).1.
Qed.

(** One call of the page walk's closure on an entry: without an error
    the page of the entry is appended when it is a note with one; with an
    error, which is that of [os.Create], no page is; and at most the copy
    of the entry is appended. *)
Lemma processNote_step (path : string) (info : FileInfo)
    (st : list (string * Post) * list (string * string) * os.Tree) :
  let r := processNote wd md cfg path (Some info) None st in
  match r.2 with
  | None =>
      r.1.1.1 = (st.1.1 ++ (if isNote path info
                            then option_list (notePage wd md cfg (path, info))
                            else []))%list
  | Some e => r.1.1.1 = st.1.1 ∧ e = os.ErrCreate
  end
  ∧ ∃ new, r.1.1.2 = (st.1.2 ++ new)%list
           ∧ new `sublist_of` option_list (assetCopy wd (path, info)).
Proof.
  unfold processNote, isNote, notePage, assetCopy. cbn [fst snd].
  assert (∀ (pages : list (string * Post)) (copies : list (string * string))
            (copy : option (string * string)),
            pages = (pages ++ [])%list
            ∧ ∃ new, copies = (copies ++ new)%list
                     ∧ new `sublist_of` option_list copy) as Hnone.
  { intros pages copies copy. split; [by rewrite app_nil_r|].
    exists []. rewrite app_nil_r. split; [done | apply sublist_nil_l]. }
  destruct (info_IsDir info); cbn [negb andb orb fst snd]; [done|].
  destruct (strings.HasSuffix path ".md"); cbn [negb andb orb fst snd].
  - case_bool_decide; cbn [negb fst snd]; [done|].
    destruct (processMarkdownFile wd md path _ (cfg_BaseURL cfg))
      as [post [err|]]; cbn [fst snd option_list]; [done|].
    unfold os.Create. destruct (os.creatable _ _); cbn [fst snd].
    + split; [done|]. exact (proj2 (Hnone [] _ _)).
    + split; [done|]. exact (proj2 (Hnone [] _ _)).
  - destruct (os.ReadFile wd path) as [input|e]; cbn [fst snd option_list];
      [|done].
    destruct (os.Create _ _) as [public|e]; cbn [fst snd]; [|done].
    split; [by rewrite app_nil_r|]. by eexists [_].
Qed.

(** The pages and the copies of a run of the page walk's closure: the
    pages of the notes, as far as the run goes, and copies of entries
    that are no notes. *)
Lemma run_processNote (entries : list (string * FileInfo)) :
  ∀ st,
    let r := runEntries (processNote wd md cfg) st entries in
    let pages := omap (notePage wd md cfg)
                   (filter (λ v, isNote v.1 v.2 = true) entries) in
    (∃ new, r.1.1.1 = (st.1.1 ++ new)%list
            ∧ new `prefix_of` pages
            ∧ (r.2 = None → new = pages))
    ∧ (∃ new, r.1.1.2 = (st.1.2 ++ new)%list
              ∧ new `sublist_of` omap (assetCopy wd) entries)
    ∧ (r.2 = None ∨ r.2 = Some os.ErrCreate).
Proof.
  induction entries as [|[path info] entries IH]; intros st.
  { simpl. split; [|split; [|by left]]; exists []; by rewrite app_nil_r. }
  assert (omap (notePage wd md cfg)
            (filter (λ v, isNote v.1 v.2 = true) ((path, info) :: entries))
          = ((if isNote path info
              then option_list (notePage wd md cfg (path, info)) else [])
             ++ omap (notePage wd md cfg)
                  (filter (λ v, isNote v.1 v.2 = true) entries))%list)
    as Hpages.
  { rewrite filter_cons. cbn [fst snd].
    destruct (isNote path info); [|by rewrite decide_False].
    rewrite decide_True by done. csimpl.
    by destruct (notePage wd md cfg (path, info)). }
  assert (omap (assetCopy wd) ((path, info) :: entries)
          = (option_list (assetCopy wd (path, info))
             ++ omap (assetCopy wd) entries)%list) as Hcopies.
  { csimpl. by destruct (assetCopy wd (path, info)). }
  cbv zeta. rewrite Hpages, Hcopies. cbn [runEntries fst snd].
  pose proof (processNote_step path info st) as [Hstep (copy & Hcopy & Hsub)].
  destruct (processNote wd md cfg path (Some info) None st) as [st' [e|]];
    cbn [fst snd] in *.
  - destruct Hstep as [Hstep ->]. split; [|split; [|by right]].
    + exists []. rewrite app_nil_r. split; [done|]. split; [apply prefix_nil|done].
    + exists copy. split; [done|].
      by apply sublist_inserts_r.
  - destruct (IH st')
      as ((new & Hnew & Hprefix & Hall) & (copies & Hnew' & Hsub') & Herr).
    cbv zeta in *. split; [|split; [|done]].
    + eexists. rewrite Hnew, Hstep, <- app_assoc. split; [done|].
      split; [by apply prefix_app|]. intros Hok. by rewrite (Hall Hok).
    + eexists. rewrite Hnew', Hcopy, <- app_assoc. split; [done|].
      by apply sublist_app.
Qed.

Lemma searchNote_records (entries : list (string * FileInfo)) :
  ∀ st, foldl (onEntry (searchNote wd md cfg)) st entries
        = ((st.1 ++ ((λ v, noteSearchItem wd md cfg v.1 v.2)
                       <$> filter (λ v, isNote v.1 v.2 = true) entries))%list,
           (st.2 ++ ((λ v, listedNote wd cfg v.1 v.2)
                       <$> filter (λ v, isNote v.1 v.2 = true) entries))%list).
Proof.
  induction entries as [|[path info] entries IH]; intros [items notes]; simpl.
  - by rewrite !app_nil_r.
  - rewrite IH, filter_cons. unfold onEntry, searchNote. simpl.
    destruct (isNote path info); simpl; [|done].
    by rewrite <- !app_assoc.
Qed.

Lemma collectNoteTags_taggings (entries : list (string * FileInfo)) :
  ∀ tagsMap,
    foldl (onEntry (collectNoteTags wd unicodeLower cfg)) tagsMap entries
    = foldl (λ m kp, <[kp.1 := (m !!! kp.1 ++ [kp.2])%list]> m) tagsMap
        (filter (λ v, isNote v.1 v.2 = true) entries ≫= λ v,
           (λ t, (ToLower unicodeLower t, taggedNote wd cfg v.1 v.2))
             <$> parseTags (parseFrontmatter (readOrNil wd v.1)).1.1).
Proof.
  induction entries as [|[path info] entries IH]; intros tagsMap; [done|].
  assert (onEntry (collectNoteTags wd unicodeLower cfg) tagsMap (path, info)
          = if isNote path info
            then foldl (λ m t, indexTag unicodeLower m t (taggedNote wd cfg path info))
                   tagsMap (parseTags (parseFrontmatter (readOrNil wd path)).1.1)
            else tagsMap) as Hstep.
  { unfold onEntry. cbn [fst snd]. destruct (isNote path info) eqn:Hnote.
    - by rewrite collectNoteTags_parseTags.
    - unfold collectNoteTags. by rewrite Hnote. }
  cbn [foldl]. rewrite IH, Hstep, filter_cons. cbn [fst snd].
  destruct (isNote path info); [|by rewrite decide_False].
  rewrite decide_True by done. rewrite bind_cons, foldl_app. cbn [fst snd]. f_equal.
  generalize (parseTags (parseFrontmatter (readOrNil wd path)).1.1).
  intros tags. clear. revert tagsMap.
  induction tags as [|t tags IHtags]; intros tagsMap; simpl; [done|].
  by rewrite IHtags.
Qed.

(** A key of the index holds the items appended under it, in order. *)
Lemma index_lookup (pairs : list (string * Post)) (tag : string) :
  ∀ tagsMap : gmap string (list Post),
    foldl (λ m kp, <[kp.1 := (m !!! kp.1 ++ [kp.2])%list]> m) tagsMap pairs !! tag
    = let new := (filter (λ kp, kp.1 = tag) pairs).*2 in
      if decide (new = []) then tagsMap !! tag
      else Some (tagsMap !!! tag ++ new)%list.
Proof.
  induction pairs as [|[k p] pairs IH]; intros tagsMap; [done|].
  cbn [foldl]. rewrite IH, filter_cons. cbn [fst snd]. cbv zeta.
  assert (∀ l : list Post,
            (<[k:=(tagsMap !!! k ++ [p])%list]> tagsMap !!! k ++ l
             = tagsMap !!! k ++ p :: l)%list) as Hk.
  { intros l. unfold lookup_total, map_lookup_total.
    rewrite lookup_insert, decide_True by done. simpl. by rewrite <- app_assoc. }
  destruct (decide (k = tag)) as [<-|Hne].
  - rewrite fmap_cons. cbn [snd]. rewrite (decide_False (P := _ :: _ = [])) by done.
    rewrite Hk. destruct (decide _) as [->|]; [|done].
    rewrite lookup_insert, decide_True by done. done.
  - destruct (decide _); [|f_equal; f_equal];
      [by rewrite lookup_insert, decide_False|].
    unfold lookup_total, map_lookup_total.
    by rewrite lookup_insert, decide_False.
Qed.

Lemma processNote_err (path : string) (info : option FileInfo) (e : error)
    (st : list (string * Post) * list (string * string) * os.Tree) :
  processNote wd md cfg path info (Some e) st = (st, Some e).
Proof. done. Qed.

Lemma processNote_raise (path : string) (info : FileInfo)
    (st : list (string * Post) * list (string * string) * os.Tree) (e : error) :
  (processNote wd md cfg path (Some info) None st).2 = Some e →
  e ≠ SkipDir ∧ e ≠ SkipAll.
Proof.
  unfold processNote. destruct (info_IsDir info); [done|].
  destruct (strings.HasSuffix path ".md").
  - case_bool_decide; [done|].
    destruct (processMarkdownFile wd md path _ (cfg_BaseURL cfg)) as [post [err|]];
      [done|].
    unfold os.Create. destruct (os.creatable _ _); [done|].
    by intros [= <-].
  - destruct (os.ReadFile wd path); [|done]. by destruct (os.Create _ _).
Qed.

(** The pages are those of the visited notes, as far as the page walk
    goes; and of all of them unless it ends with the error of
    [os.Create]. *)
Lemma notePages_prefix :
  site_NotePages (main wd md unicodeLower cfg)
    `prefix_of` omap (notePage wd md cfg) (visitedNotes wd)
  ∧ ((pageWalk wd md cfg).2 ≠ Some os.ErrCreate →
     site_NotePages (main wd md unicodeLower cfg)
     = omap (notePage wd md cfg) (visitedNotes wd)).
Proof.
  destruct main_notes as (-> & _). unfold pageWalk.
  rewrite (Walk_run (processNote wd md cfg) processNote_err processNote_raise).
  destruct (run_processNote (visits wd "notes") ([], [], os.fresh))
    as ((new & Hnew & Hprefix & Hall) & _ & Herr).
  cbv zeta in *. unfold finish. cbn [fst snd]. rewrite Hnew.
  split; [done|]. intros Hends. apply Hall.
  destruct Herr as [Herr|Herr]; [done|]. by rewrite Herr in Hends.
Qed.

Lemma noteAssets_sublist :
  noteAssets wd md cfg `sublist_of` omap (assetCopy wd) (visits wd "notes").
Proof.
  unfold noteAssets, pageWalk.
  rewrite (Walk_run (processNote wd md cfg) processNote_err processNote_raise).
  destruct (run_processNote (visits wd "notes") ([], [], os.fresh))
    as (_ & (new & Hnew & Hsub) & _).
  cbv zeta in *. unfold finish. cbn [fst snd]. by rewrite Hnew.
Qed.

(** The page walk's closure on a note that has a page: the page is
    made when its file can be created, and the closure returns the error
    of [os.Create] when it cannot. *)
Lemma processNote_note (v : string * FileInfo) (out : string) (post : Post)
    (st : list (string * Post) * list (string * string) * os.Tree) :
  isNote v.1 v.2 = true →
  notePage wd md cfg v = Some (out, post) →
  let r := processNote wd md cfg v.1 (Some v.2) None st in
  if writable st.2 out
  then r.1.1.1 = (st.1.1 ++ [(out, post)])%list ∧ r.2 = None
  else r.1.1.1 = st.1.1 ∧ r.2 = Some os.ErrCreate.
Proof.
  destruct v as [path info]. unfold isNote, notePage, processNote, writable.
  cbn [fst snd].
  intros [[Hfile%negb_true_iff ->]%andb_prop Hindex%negb_true_iff]%andb_prop.
  rewrite Hfile, Hindex.
  destruct (processMarkdownFile wd md path _ (cfg_BaseURL cfg))
    as [post' [e|]]; [done|].
  intros [= <- <-]. cbv zeta. unfold os.Create.
  by destruct (os.creatable _ _).
Qed.

(** The page walk's closure on a file that is no note and can be read:
    the copy is made when the file can be created, and passed over when
    it cannot. *)
Lemma processNote_asset (v : string * FileInfo) (out data : string)
    (st : list (string * Post) * list (string * string) * os.Tree) :
  assetCopy wd v = Some (out, data) →
  let r := processNote wd md cfg v.1 (Some v.2) None st in
  r.2 = None
  ∧ r.1.1.2 = if writable st.2 out then (st.1.2 ++ [(out, data)])%list
              else st.1.2.
Proof.
  destruct v as [path info]. unfold assetCopy, processNote, writable.
  cbn [fst snd].
  destruct (info_IsDir info); [done|].
  destruct (strings.HasSuffix path ".md"); [done|]. cbn [orb].
  destruct (os.ReadFile wd path) as [input|e]; [|done].
  intros [= <- <-]. cbv zeta. unfold os.Create.
  by destruct (os.creatable _ _).
Qed.

(** Where the page walk stops, and what it makes on its way: with the
    visited entries split at [v], which the walk comes to without an
    error, a page of [v] whose file cannot be created ends the walk, and
    the pages are those of the notes before [v]; the page of [v] is made
    when its file can be created. *)
Lemma notePages_at (before after : list (string * FileInfo))
    (v : string * FileInfo) (out : string) (post : Post) :
  visits wd "notes" = (before ++ v :: after)%list →
  comesThrough wd md cfg before →
  isNote v.1 v.2 = true →
  notePage wd md cfg v = Some (out, post) →
  if writable (publicAfter wd md cfg before) out
  then (out, post) ∈ site_NotePages (main wd md unicodeLower cfg)
  else site_NotePages (main wd md unicodeLower cfg)
       = omap (notePage wd md cfg) (filter (λ v, isNote v.1 v.2 = true) before)
       ∧ (pageWalk wd md cfg).2 = Some os.ErrCreate.
Proof.
  intros Hvisits Hbefore Hnote Hpage.
  destruct main_notes as (-> & _). unfold pageWalk.
  rewrite (Walk_run (processNote wd md cfg) processNote_err processNote_raise).
  rewrite Hvisits, run_app. unfold comesThrough in Hbefore.
  unfold publicAfter.
  destruct (run_processNote before ([], [], os.fresh))
    as ((new & Hnew & _ & Hall) & _).
  cbv zeta in Hnew, Hall. specialize (Hall Hbefore). subst new.
  destruct (runEntries (processNote wd md cfg) ([], [], os.fresh) before)
    as [st [e|]]; [done|]. cbn [fst snd app] in *.
  cbn [runEntries].
  pose proof (processNote_note v out post st Hnote Hpage) as Hstep.
  cbv zeta in Hstep.
  destruct (writable st.2 out);
    destruct (processNote wd md cfg v.1 (Some v.2) None st) as [st' err];
    cbn [fst snd] in Hstep; destruct Hstep as [Hpages ->].
  - destruct (run_processNote after st') as ((new & Hnew' & _) & _).
    cbv zeta in Hnew'. unfold finish. cbn [fst snd].
    rewrite Hnew', Hpages. apply elem_of_app. left.
    apply elem_of_app. right. apply list_elem_of_singleton. done.
  - unfold finish. cbn [fst snd]. by rewrite Hpages, Hnew.
Qed.

(** The pages of the page walk, one by one: a page is made of a note
    exactly when the walk comes to the note without an error,
    [processMarkdownFile] accepts it, and the file of the page can be
    created. *)
Lemma notePages_iff (out : string) (post : Post) :
  (out, post) ∈ site_NotePages (main wd md unicodeLower cfg)
  ↔ ∃ before v after,
      visits wd "notes" = (before ++ v :: after)%list
      ∧ comesThrough wd md cfg before
      ∧ isNote v.1 v.2 = true
      ∧ notePage wd md cfg v = Some (out, post)
      ∧ writable (publicAfter wd md cfg before) out = true.
Proof.
  destruct main_notes as (-> & _). unfold pageWalk, comesThrough, publicAfter.
  rewrite (Walk_run (processNote wd md cfg) processNote_err processNote_raise).
  unfold finish. cbn [fst snd].
  generalize (visits wd "notes"). intros entries.
  induction entries as [|v entries IH] using rev_ind.
  { cbn [runEntries fst snd]. split; [by intros ?%elem_of_nil|].
    intros (before & v & after & Hnil & _). by destruct before. }
  assert (∀ P : list (string * FileInfo) → string * FileInfo → Prop,
            (∃ before v' after,
               (entries ++ [v])%list = (before ++ v' :: after)%list
               ∧ P before v')
            ↔ (∃ before v' after,
                 entries = (before ++ v' :: after)%list ∧ P before v')
              ∨ P entries v) as Hsplit.
  { intros P. split.
    - intros (before & v' & after & Hsplit & HP).
      destruct after as [|a after _] using rev_ind.
      + apply (app_inj_tail entries before v v') in Hsplit as [<- <-].
        by right.
      + rewrite app_comm_cons, app_assoc in Hsplit.
        apply app_inj_tail in Hsplit as [-> _].
        left. by exists before, v', after.
    - intros [(before & v' & after & -> & HP) | HP].
      + exists before, v', (after ++ [v])%list. by rewrite <- app_assoc.
      + by exists entries, v, []. }
  rewrite (Hsplit (λ before v',
             (runEntries (processNote wd md cfg) ([], [], os.fresh) before).2
             = None
             ∧ isNote v'.1 v'.2 = true
             ∧ notePage wd md cfg v' = Some (out, post)
             ∧ writable
                 (runEntries (processNote wd md cfg) ([], [], os.fresh) before).1.2
                 out = true)).
  rewrite <- IH. clear IH Hsplit. rewrite run_app.
  destruct (runEntries (processNote wd md cfg) ([], [], os.fresh) entries)
    as [st [e|]] eqn:Hrun; cbn [fst snd] in *.
  { split; [by left | by intros [? | [[=] _]]]. }
  cbn [runEntries].
  destruct (isNote v.1 v.2) eqn:Hnote;
    [destruct (notePage wd md cfg v) as [[out' post']|] eqn:Hpage|].
  - pose proof (processNote_note v out' post' st Hnote Hpage) as Hstep.
    cbv zeta in Hstep.
    destruct (processNote wd md cfg v.1 (Some v.2) None st) as [st' err].
    cbn [fst snd] in Hstep.
    destruct (writable st.2 out') eqn:Hwritable; destruct Hstep as [Hpages ->];
      cbn [fst snd]; rewrite Hpages.
    + rewrite elem_of_app, list_elem_of_singleton. split.
      * intros [Hin | [= -> ->]]; [by left | by right].
      * intros [Hin | (_ & _ & [= -> ->] & _)]; [by left | by right].
    + split; [by left|]. intros [Hin | (_ & _ & [= -> ->] & Hw)]; [done|].
      congruence.
  - destruct (processNote_step v.1 v.2 st) as [Hstep _].
    cbv zeta in Hstep. rewrite Hnote in Hstep.
    destruct v as [path info]. cbn [fst snd] in *. rewrite Hpage in Hstep.
    destruct (processNote wd md cfg path (Some info) None st) as [st' [e|]];
      cbn [fst snd option_list] in *.
    + destruct Hstep as [-> _]. split; [by left | by intros [? | (_ & _ & [=] & _)]].
    + rewrite app_nil_r in Hstep. rewrite Hstep.
      split; [by left | by intros [? | (_ & _ & [=] & _)]].
  - destruct (processNote_step v.1 v.2 st) as [Hstep _].
    cbv zeta in Hstep. rewrite Hnote in Hstep.
    destruct (processNote wd md cfg v.1 (Some v.2) None st) as [st' [e|]];
      cbn [fst snd] in *.
    + destruct Hstep as [-> _]. split; [by left | by intros [? | (_ & [=] & _)]].
    + rewrite app_nil_r in Hstep. rewrite Hstep.
      split; [by left | by intros [? | (_ & [=] & _)]].
Qed.

(** The copies of the page walk, one by one: a copy is made of a file
    that is no note exactly when the walk comes to it without an error,
    the file can be read, and the copy can be created. *)
Lemma noteAssets_at (out data : string) :
  (out, data) ∈ noteAssets wd md cfg
  ↔ ∃ before v after,
      visits wd "notes" = (before ++ v :: after)%list
      ∧ comesThrough wd md cfg before
      ∧ assetCopy wd v = Some (out, data)
      ∧ writable (publicAfter wd md cfg before) out = true.
Proof.
  unfold noteAssets, pageWalk, comesThrough, publicAfter.
  rewrite (Walk_run (processNote wd md cfg) processNote_err processNote_raise).
  unfold finish. cbn [fst snd].
  generalize (visits wd "notes"). intros entries.
  induction entries as [|v entries IH] using rev_ind.
  { cbn [runEntries fst snd]. split; [by intros ?%elem_of_nil|].
    intros (before & v & after & Hnil & _). by destruct before. }
  rewrite run_app.
  destruct (runEntries (processNote wd md cfg) ([], [], os.fresh) entries)
    as [st [e|]] eqn:Hrun; cbn [fst snd] in *.
  - rewrite IH. split.
    + intros (before & v' & after & -> & Hrest).
      exists before, v', (after ++ [v])%list.
      by rewrite <- app_assoc.
    + intros (before & v' & after & Hsplit & Hthrough & Hcopy & Hwritable).
      destruct after as [|a after _] using rev_ind.
      * apply (app_inj_tail entries before v v') in Hsplit as [<- <-].
        rewrite Hrun in Hthrough. done.
      * rewrite app_comm_cons, app_assoc in Hsplit.
        apply app_inj_tail in Hsplit as [-> _].
        by exists before, v', after.
  - cbn [runEntries].
    destruct (assetCopy wd v) as [[out' data']|] eqn:Hcopy.
    + pose proof (processNote_asset v out' data' st Hcopy) as Hstep.
      cbv zeta in Hstep.
      destruct (processNote wd md cfg v.1 (Some v.2) None st) as [st' err].
      cbn [fst snd] in Hstep. destruct Hstep as [-> Hassets].
      cbn [fst snd]. rewrite Hassets. split.
      * destruct (writable st.2 out') eqn:Hwritable.
        -- intros [Hin | Hin%list_elem_of_singleton]%elem_of_app.
           ++ apply IH in Hin as (before & v' & after & -> & Hrest).
              exists before, v', (after ++ [v])%list.
              by rewrite <- app_assoc.
           ++ exists entries, v, []. rewrite Hrun. cbn [fst snd].
              injection Hin as -> ->. done.
        -- intros Hin.
           apply IH in Hin as (before & v' & after & -> & Hrest).
           exists before, v', (after ++ [v])%list.
           by rewrite <- app_assoc.
      * intros (before & v' & after & Hsplit & Hthrough & Hcopy' & Hwritable).
        destruct after as [|a after _] using rev_ind.
        -- apply (app_inj_tail entries before v v') in Hsplit as [<- <-].
           rewrite Hrun in Hwritable. cbn [fst snd] in Hwritable.
           rewrite Hcopy in Hcopy'. injection Hcopy' as <- <-.
           rewrite Hwritable. apply elem_of_app. right.
           by apply list_elem_of_singleton.
        -- rewrite app_comm_cons, app_assoc in Hsplit.
           apply app_inj_tail in Hsplit as [-> _].
           assert ((out, data) ∈ st.1.2) as Hin.
           { apply IH. by exists before, v', after. }
           destruct (writable st.2 out'); [|done].
           apply elem_of_app. by left.
    + destruct (processNote_step v.1 v.2 st) as [_ (new & Hnew & Hsub)].
      cbv zeta in Hnew, Hsub. destruct v as [path info]. cbn [fst snd] in *.
      rewrite Hcopy in Hsub. apply sublist_nil_r in Hsub. subst new.
      rewrite app_nil_r in Hnew.
      destruct (processNote wd md cfg path (Some info) None st) as [st' err].
      cbn [fst snd] in *.
      assert ((match err with
               | Some e => (st', Some e)
               | None => (st', None)
               end).1.1.2 = st.1.2) as -> by (by destruct err).
      rewrite IH. split.
      * intros (before & v' & after & -> & Hrest).
        exists before, v', (after ++ [(path, info)])%list.
        by rewrite <- app_assoc.
      * intros (before & v' & after & Hsplit & Hthrough & Hcopy' & Hwritable).
        destruct after as [|a after _] using rev_ind.
        -- apply (app_inj_tail entries before (path, info) v') in Hsplit
             as [<- <-].
           by rewrite Hcopy in Hcopy'.
        -- rewrite app_comm_cons, app_assoc in Hsplit.
           apply app_inj_tail in Hsplit as [-> _].
           by exists before, v', after.
Qed.

Lemma search_visited :
  site_Search (main wd md unicodeLower cfg)
  = (λ v, noteSearchItem wd md cfg v.1 v.2) <$> visitedNotes wd.
Proof.
  destruct main_notes as (_ & _ & -> & _).
  rewrite Walk_fusion; [| by intros ? ? ? ? | ].
  - by rewrite searchNote_records.
  - intros path info st. unfold searchNote. by destruct (isNote path info).
Qed.

Lemma sitemap_visited :
  site_SitemapNotes (main wd md unicodeLower cfg)
  = (λ v, listedNote wd cfg v.1 v.2) <$> visitedNotes wd.
Proof.
  destruct main_notes as (_ & _ & _ & -> & _).
  rewrite Walk_fusion; [| by intros ? ? ? ? | ].
  - by rewrite searchNote_records.
  - intros path info st. unfold searchNote. by destruct (isNote path info).
Qed.

Lemma tags_visited (tag : string) :
  site_Tags (main wd md unicodeLower cfg) !! tag
  = let items := (filter (λ kp, kp.1 = tag) (taggings wd unicodeLower cfg)).*2 in
    if os.creatable (publicAtTags wd md cfg) (tagFile tag)
    then if decide (items = []) then None else Some (sort.Slice items)
    else None.
Proof.
  destruct main_notes as (_ & -> & _).
  unfold tagPages, tagSlices. rewrite map_lookup_filter, lookup_fmap.
  rewrite Walk_fusion; [| by intros ? ? ? ? | ].
  - rewrite collectNoteTags_taggings, index_lookup. simpl.
    fold (visitedNotes wd). fold (taggings wd unicodeLower cfg).
    destruct (decide _) as [Hnil|Hitems]; simpl.
    + by destruct (os.creatable _ _).
    + rewrite lookup_total_empty. simpl.
      destruct (os.creatable _ _); [by rewrite option_guard_True | ].
      by rewrite option_guard_False.
  - intros path info st. unfold collectNoteTags.
    destruct (isNote path info); [|done].
    destruct (parseFrontmatter (readOrNil wd path)) as [[meta body] err].
    by case_bool_decide.
Qed.

End note_walks.

Lemma omap_shorter {A B : Type} (f : A → option B) (l : list A) (x : A) :
  x ∈ l → f x = None → (length (omap f l) < length l)%nat.
Proof.
  assert (∀ l : list A, (length (omap f l) ≤ length l)%nat) as Hle.
  { clear. intros l. induction l as [|y l IH]; csimpl; [done|].
    destruct (f y); simpl; lia. }
  induction 1 as [y l | y z l _ IH]; intros Hx; csimpl.
  - rewrite Hx. specialize (Hle l). lia.
  - specialize (IH Hx). destruct (f z); simpl; lia.
Qed.

Lemma noteDate_Parse (dateStr : string) :
  (noteDate dateStr).2 = (time.Parse dateStr).1.
Proof.
  unfold noteDate. case_bool_decide as Hdate.
  - destruct (time.Parse dateStr) as [t [e|]] eqn:Hparse; [|done].
    simpl. symmetry. change t with (t, Some e).1. rewrite <- Hparse.
    eapply Parse_error_zero. by rewrite Hparse.
  - subst dateStr. reflexivity.
Qed.

(** X8. The page walk and the search walk work on the same notes in the
    same order, the markdown files other than [_index.md] that a walk of
    [notes] visits.  The pages are those of the notes that
    [processMarkdownFile] accepts, as far as the page walk goes: a page is
    made of a note exactly when the walk comes to it without an error,
    the note is accepted and the file of the page can be created; the
    first accepted note whose file cannot be created ends the walk with
    the error of [os.Create], and the pages are then those of the notes
    before it; and unless the walk ends so, the pages are those of all
    the accepted notes.  The search index and the sitemap hold one entry
    for every note, accepted or not, with a page or without. *)
Theorem note_walks_agree `{!sort.Sorter} (wd : FSNode) (md : Markdown)
    (unicodeLower : string → string) (cfg : Config) :
  let site := main wd md unicodeLower cfg in
  site_NotePages site `prefix_of` omap (notePage wd md cfg) (visitedNotes wd)
  ∧ ((pageWalk wd md cfg).2 ≠ Some os.ErrCreate →
     site_NotePages site = omap (notePage wd md cfg) (visitedNotes wd))
  ∧ (∀ out post,
       (out, post) ∈ site_NotePages site
       ↔ ∃ before v after,
           visits wd "notes" = (before ++ v :: after)%list
           ∧ comesThrough wd md cfg before
           ∧ isNote v.1 v.2 = true
           ∧ notePage wd md cfg v = Some (out, post)
           ∧ writable (publicAfter wd md cfg before) out = true)
  ∧ (∀ before v after out post,
       visits wd "notes" = (before ++ v :: after)%list →
       comesThrough wd md cfg before →
       isNote v.1 v.2 = true →
       notePage wd md cfg v = Some (out, post) →
       writable (publicAfter wd md cfg before) out = false →
       site_NotePages site
       = omap (notePage wd md cfg) (filter (λ v, isNote v.1 v.2 = true) before)
       ∧ (pageWalk wd md cfg).2 = Some os.ErrCreate)
  ∧ site_Search site
    = (λ v, noteSearchItem wd md cfg v.1 v.2) <$> visitedNotes wd
  ∧ site_SitemapNotes site
    = (λ v, listedNote wd cfg v.1 v.2) <$> visitedNotes wd.
Proof.
  intros site. subst site.
  destruct (notePages_prefix wd md unicodeLower cfg) as [Hprefix Hall].
  split; [done|]. split; [done|].
  split; [apply notePages_iff|]. split.
  - intros before v after out post Hvisits Hthrough Hnote Hpage Hwritable.
    pose proof (notePages_at wd md unicodeLower cfg before after v out post
                  Hvisits Hthrough Hnote Hpage) as Hat.
    by rewrite Hwritable in Hat.
  - split; [apply search_visited | apply sitemap_visited].
Qed.

(** In the example directory the page walk ends without an error, and
    every note has its page. *)
Lemma page_walk_example :
  let site := @main insertionSorter exampleDir plainMarkdown (λ s, s) exampleCfg in
  (pageWalk exampleDir plainMarkdown exampleCfg).2 = None
  ∧ site_NotePages site
    = omap (notePage exampleDir plainMarkdown exampleCfg) (visitedNotes exampleDir)
  ∧ (site_NotePages site).*1
    = [ "public/notes/garden/soil/index.html";
        "public/notes/plan/index.html";
        "public/notes/x/index.html" ].
Proof. intros site. repeat split; vm_compute; reflexivity. Qed.

(** A file [foo] beside the note [foo.md]: the file is copied to
    [public/notes/foo], the directory of the note's page cannot be made
    there, [os.Create] fails and the walk ends.  The notes from [foo.md]
    on have no page and the files after it are not copied, and all the
    notes are in the search index and in the sitemap. *)
Lemma page_walk_stops_example :
  let site := @main insertionSorter clashDir plainMarkdown (λ s, s) exampleCfg in
  (visits clashDir "notes").*1
  = [ "notes"; "notes/a.md"; "notes/foo"; "notes/foo.md"; "notes/z.md";
      "notes/z.png" ]
  ∧ (pageWalk clashDir plainMarkdown exampleCfg).2 = Some os.ErrCreate
  ∧ (site_NotePages site).*1 = ["public/notes/a/index.html"]
  ∧ noteAssets clashDir plainMarkdown exampleCfg = [("public/notes/foo", "asset")]
  ∧ (λ r, r !!! "url") <$> site_Search site
    = ["/notes/a"; "/notes/foo"; "/notes/z"]
  ∧ post_URL <$> site_SitemapNotes site = ["/notes/a"; "/notes/foo"; "/notes/z"].
Proof. intros site. repeat split; vm_compute; reflexivity. Qed.

(** X9. The search index and the sitemap go side by side: the record
    and the sitemap entry at the same position have the same URL and the
    same title. *)
Theorem search_matches_sitemap `{!sort.Sorter} (wd : FSNode) (md : Markdown)
    (unicodeLower : string → string) (cfg : Config) :
  let site := main wd md unicodeLower cfg in
  Forall2 (λ r p, r !! "url" = Some (post_URL p)
                  ∧ r !! "title" = Some (post_Title p))
    (site_Search site) (site_SitemapNotes site).
Proof.
  intros site. subst site. rewrite search_visited, sitemap_visited.
  apply Forall2_fmap, Forall_Forall2_diag, Forall_forall.
  intros [path info] _. simpl. unfold noteSearchItem, listedNote.
  destruct (parseFrontmatter (readOrNil wd path)) as [[meta body] err]. simpl.
  destruct (searchItem_fields (noteTitle meta info) (noteURL cfg path)
              (noteDate (get meta "date")).1 (Convert md body).1 "note"
              (strings.Join (parseTags meta) ",")) as (_ & ? & ? & _).
  done.
Qed.

(** X10. Every page of a note has its record in the search index: a
    note's record with the URL, the content and the tags of the page. *)
Theorem note_pages_indexed `{!sort.Sorter} (wd : FSNode) (md : Markdown)
    (unicodeLower : string → string) (cfg : Config) (out : string) (post : Post) :
  let site := main wd md unicodeLower cfg in
  (out, post) ∈ site_NotePages site →
  ∃ r, r ∈ site_Search site
       ∧ hasFields r (r !!! "title") (post_URL post) (r !!! "date")
           (post_Content post) "note" (strings.Join (post_Tags post) ",").
Proof.
  intros site. subst site. rewrite search_visited. intros Hin.
  destruct (notePages_prefix wd md unicodeLower cfg) as [Hprefix _].
  apply (elem_of_prefix _ _ _ Hin) in Hprefix.
  apply list_elem_of_omap in Hprefix as ([path info] & Hvisited & Hpage).
  exists (noteSearchItem wd md cfg path info). split.
  { apply list_elem_of_fmap. by exists (path, info). }
  revert Hpage. unfold notePage, processMarkdownFile, noteSearchItem, readOrNil.
  simpl. destruct (os.ReadFile wd path) as [data|e]; [|done].
  destruct (parseFrontmatter data) as [[meta body] [e|]]; [done|].
  destruct (Convert md body) as [html [e|]]; [done|].
  intros [= <- <-]. simpl.
  pose proof (searchItem_fields (noteTitle meta info) (noteURL cfg path)
                (noteDate (get meta "date")).1 html "note"
                (strings.Join (parseTags meta) ",")) as Hfields.
  destruct Hfields as (Hdom & Htitle & Hurl & Hdate & Hrest).
  unfold hasFields. rewrite !lookup_total_alt, Htitle, Hdate. simpl.
  done.
Qed.

Lemma note_pages_indexed_witness :
  let site := @main insertionSorter exampleDir plainMarkdown (λ s, s) exampleCfg in
  ∃ out post r,
    post_URL post = "/notes/x"
    ∧ (out, post) ∈ site_NotePages site
    ∧ r ∈ site_Search site
    ∧ hasFields r (r !!! "title") (post_URL post) (r !!! "date")
        (post_Content post) "note" (strings.Join (post_Tags post) ",").
Proof.
  intros site.
  destruct (last (site_NotePages site)) as [[out post]|] eqn:Hlast;
    [|vm_compute in Hlast; discriminate].
  assert ((out, post) ∈ site_NotePages site) as Hpage.
  { apply last_Some in Hlast as [front ->]. apply elem_of_app. right. left. }
  destruct (@note_pages_indexed insertionSorter exampleDir plainMarkdown (λ s, s)
              exampleCfg out post Hpage) as (r & Hr & Hfields).
  exists out, post, r. split; [|exact (conj Hpage (conj Hr Hfields))].
  vm_compute in Hlast. injection Hlast as <- <-. reflexivity.
Defined.

(** X11. A note that opens a frontmatter block and never closes it gets
    no page, and is in the search index and the sitemap all the same: its
    record has the file name as the title, the whole file as the content,
    and neither date nor tags.  The site then has fewer note pages than
    records. *)
Theorem unclosed_note_indexed `{!sort.Sorter} (wd : FSNode) (md : Markdown)
    (unicodeLower : string → string) (cfg : Config)
    (path : string) (info : FileInfo) (data : string) :
  let site := main wd md unicodeLower cfg in
  (path, info) ∈ visitedNotes wd →
  os.ReadFile wd path = inl data →
  is_Some (parseFrontmatter data).2 →
  notePage wd md cfg (path, info) = None
  ∧ noteSearchItem wd md cfg path info
    = searchItem (info_Name info) (noteURL cfg path) "" (Convert md data).1 "note" ""
  ∧ noteSearchItem wd md cfg path info ∈ site_Search site
  ∧ listedNote wd cfg path info ∈ site_SitemapNotes site
  ∧ post_Title (listedNote wd cfg path info) = info_Name info
  ∧ (length (site_NotePages site) < length (site_Search site))%nat.
Proof.
  intros site Hvisited Hread Hfails. subst site.
  assert (parseFrontmatter data = (None, data, (parseFrontmatter data).2))
    as Hparse.
  { revert Hfails. unfold parseFrontmatter.
    destruct (negb _); simpl; [by intros [? ?]|].
    destruct (_ <? _)%Z; simpl; [done | by intros [? ?]]. }
  assert (notePage wd md cfg (path, info) = None) as Hpage.
  { unfold notePage, processMarkdownFile. simpl. rewrite Hread, Hparse.
    by destruct Hfails as [e ->]. }
  destruct (notePages_prefix wd md unicodeLower cfg) as [Hprefix%prefix_length _].
  rewrite search_visited, sitemap_visited, length_fmap.
  unfold noteSearchItem, listedNote, readOrNil. rewrite Hread, Hparse.
  repeat split.
  - done.
  - apply list_elem_of_fmap. exists (path, info). split; [|done].
    simpl. unfold noteSearchItem, readOrNil. by rewrite Hread, Hparse.
  - apply list_elem_of_fmap. exists (path, info). split; [|done].
    simpl. unfold listedNote, readOrNil. by rewrite Hread, Hparse.
  - eapply Nat.le_lt_trans; [done|]. by eapply omap_shorter.
Qed.

Lemma unclosed_note_indexed_witness :
  let site := @main insertionSorter unclosedDir plainMarkdown (λ s, s) exampleCfg in
  site_NotePages site = []
  ∧ site_Search site
    = [searchItem "open.md" "/notes/open" ""
         (delimiter +:+ "title: Open" +:+ nl +:+ "text") "note" ""]
  ∧ (length (site_NotePages site) < length (site_Search site))%nat.
Proof.
  intros site. split; [vm_compute; reflexivity|].
  split; [vm_compute; reflexivity|].
  refine (proj2 (proj2 (proj2 (proj2 (proj2
    (@unclosed_note_indexed insertionSorter unclosedDir plainMarkdown (λ s, s)
       exampleCfg "notes/open.md" {| info_Name := "open.md"; info_IsDir := false |}
       (delimiter +:+ "title: Open" +:+ nl +:+ "text") _ _ _)))))).
  - vm_compute. apply list_elem_of_In. by left.
  - vm_compute. reflexivity.
  - vm_compute. by eexists.
Defined.

(** Creating a file leaves what can be created as it is: neither does
    a directory come nor go. *)
Lemma creatable_Create (public public' : os.Tree) (file other : list string) :
  os.Create public file = inl public' →
  os.creatable public' other = os.creatable public other.
Proof.
  unfold os.Create. destruct (os.creatable public file) eqn:Hfile; [|done].
  intros [= <-]. unfold os.creatable in *.
  apply andb_prop in Hfile as [_ Hnot%negb_true_iff%bool_decide_eq_false].
  assert (∀ path, <[file := os.Regular]> public !! path = Some os.Folder
                  ↔ public !! path = Some os.Folder) as Hfolder.
  { intros path. unfold os.Tree in *.
    destruct (decide (file = path)) as [->|Hne].
    - rewrite lookup_insert_eq. split; [done | by intros ?].
    - by rewrite lookup_insert_ne. }
  f_equal; [f_equal|]; [|f_equal]; apply bool_decide_ext, Hfolder.
Qed.

(** X12. A key of the tag map has its page exactly when the file of the
    page can be created under [public/tags], whatever the other keys are:
    the page lists, sorted, the items appended under the key, one for
    every tag of every visited note that lower-cases to the key, in the
    order of the walk.  There is no page for a key under which nothing
    was appended, nor for one whose file [os.Create] cannot open. *)
Theorem tag_pages_exact `{!sort.Sorter} (wd : FSNode) (md : Markdown)
    (unicodeLower : string → string) (cfg : Config) (tag : string) :
  site_Tags (main wd md unicodeLower cfg) !! tag
  = let items := (filter (λ kp, kp.1 = tag) (taggings wd unicodeLower cfg)).*2 in
    if os.creatable (publicAtTags wd md cfg) (tagFile tag)
    then if decide (items = []) then None else Some (sort.Slice items)
    else None.
Proof. apply tags_visited. Qed.

(** A note with the tags [ci/cd] and [go]: the file of the first would
    be [public/tags/ci/cd.html], there is no directory [public/tags/ci],
    and the only tag page is that of [go]. *)
Lemma tag_slash_example :
  let site := @main insertionSorter slashTagDir plainMarkdown (λ s, s) exampleCfg in
  let tagsMap :=
    (Walk (collectNoteTags slashTagDir (λ s, s) exampleCfg) slashTagDir "notes" ∅).1 in
  dom tagsMap = {[ "ci/cd"; "go" ]}
  ∧ tagFile "ci/cd" = ["public"; "tags"; "ci"; "cd.html"]
  ∧ os.creatable (publicAtTags slashTagDir plainMarkdown exampleCfg)
      (tagFile "ci/cd") = false
  ∧ site_Tags site !! "ci/cd" = None
  ∧ dom (site_Tags site) = {[ "go" ]}.
Proof. intros site tagsMap. repeat split; vm_compute; reflexivity. Qed.

(** X13. A tag page is never empty; it is sorted, newest first; its items
    are items of the sitemap; and an item is on the page exactly when it
    is the item of a visited note one of whose tags lower-cases to the
    key of the page. *)
Theorem tag_page_items `{!sort.Sorter} (wd : FSNode) (md : Markdown)
    (unicodeLower : string → string) (cfg : Config) (tag : string)
    (posts : list Post) :
  let site := main wd md unicodeLower cfg in
  site_Tags site !! tag = Some posts →
  posts ≠ []
  ∧ sortedBy newestFirst posts
  ∧ (∀ p, p ∈ posts → p ∈ site_SitemapNotes site)
  ∧ (∀ p, p ∈ posts ↔
          ∃ path info t,
            (path, info) ∈ visitedNotes wd
            ∧ t ∈ parseTags (parseFrontmatter (readOrNil wd path)).1.1
            ∧ ToLower unicodeLower t = tag
            ∧ p = taggedNote wd cfg path info).
Proof.
  intros site. subst site. rewrite tags_visited, sitemap_visited. cbv zeta.
  destruct (os.creatable _ _); [|done].
  destruct (decide _) as [|Hitems]; [done|]. intros [= <-].
  assert (∀ p, p ∈ sort.Slice
                     (filter (λ kp, kp.1 = tag) (taggings wd unicodeLower cfg)).*2 ↔
               ∃ path info t,
                 (path, info) ∈ visitedNotes wd
                 ∧ t ∈ parseTags (parseFrontmatter (readOrNil wd path)).1.1
                 ∧ ToLower unicodeLower t = tag
                 ∧ p = taggedNote wd cfg path info) as Hmem.
  { intros p. rewrite sort.Slice_perm. rewrite list_elem_of_fmap. split.
    - intros ([k q] & -> & [Hk Hin]%list_elem_of_filter). simpl in *.
      unfold taggings in Hin.
      apply list_elem_of_bind in Hin as ([path info] & Hin & Hvisited).
      apply list_elem_of_fmap in Hin as (t & [= -> ->] & Ht).
      by exists path, info, t.
    - intros (path & info & t & Hvisited & Ht & <- & ->).
      exists (ToLower unicodeLower t, taggedNote wd cfg path info).
      split; [done|]. apply list_elem_of_filter. split; [done|].
      unfold taggings. apply list_elem_of_bind. exists (path, info).
      split; [|done]. apply list_elem_of_fmap. by exists t. }
  repeat split.
  - intros Hnil. apply Hitems. apply Permutation_nil_r.
    rewrite <- Hnil. symmetry. apply sort.Slice_perm.
  - apply sort.Slice_sorted.
  - intros p (path & info & t & Hvisited & _ & _ & ->)%Hmem.
    apply list_elem_of_fmap. exists (path, info). split; [|done].
    simpl. unfold taggedNote, listedNote.
    destruct (parseFrontmatter (readOrNil wd path)) as [[meta body] err].
    by rewrite noteDate_Parse.
  - apply Hmem.
  - apply Hmem.
Qed.

Lemma tag_page_items_witness :
  let site := @main insertionSorter exampleDir plainMarkdown (λ s, s) exampleCfg in
  ∃ posts,
    site_Tags site !! "plan" = Some posts
    ∧ post_URL <$> posts = ["/notes/plan"]
    ∧ posts ≠ []
    ∧ sortedBy newestFirst posts
    ∧ ∀ p, p ∈ posts → p ∈ site_SitemapNotes site.
Proof.
  intros site.
  destruct (site_Tags site !! "plan") as [posts|] eqn:Hpage;
    [|vm_compute in Hpage; discriminate].
  exists posts. split; [done|].
  destruct (@tag_page_items insertionSorter exampleDir plainMarkdown (λ s, s)
              exampleCfg "plan" posts Hpage) as (Hne & Hsorted & Hsitemap & _).
  split; [|exact (conj Hne (conj Hsorted Hsitemap))].
  vm_compute in Hpage. injection Hpage as <-. reflexivity.
Defined.

(** X14. The tag walk and the search walk make the same item of a note,
    although the one takes whatever [time.Parse] returns for the date and
    the other parses only a date that is not empty and keeps the zero
    date on an error. *)
Theorem tag_item_is_sitemap_item (wd : FSNode) (cfg : Config)
    (path : string) (info : FileInfo) :
  taggedNote wd cfg path info = listedNote wd cfg path info.
Proof.
  unfold taggedNote, listedNote.
  destruct (parseFrontmatter (readOrNil wd path)) as [[meta body] err].
  by rewrite noteDate_Parse.
Qed.

(** ** Headings of any level *)

Lemma levelByte_None (level : Z) :
  levelByte level = None ↔ (level < 0 ∨ 6 < level)%Z.
Proof.
  unfold levelByte. destruct (Z.ltb_spec level 0) as [Hneg|Hpos].
  - split; [by left | done].
  - rewrite fmap_None, lookup_ge_None. simpl. lia.
Qed.

(** X15. The renderer panics, entering or leaving, exactly on a heading
    whose level is below 0 or above 6, where the index into the string
    of level digits is out of range; on every other heading it returns
    and has only appended to what was written. *)
Theorem renderHeading_panics_iff
    (RenderAttributes : list (string * AttrValue) → string)
    (w : list string) (n : Heading) (entering : bool) :
  (renderHeading RenderAttributes w n entering = None
   ↔ (Level n < 0 ∨ 6 < Level n)%Z)
  ∧ ∀ w', renderHeading RenderAttributes w n entering = Some w' →
          ∃ written, written ≠ [] ∧ w' = (w ++ written)%list.
Proof.
  pose proof (levelByte_None (Level n)) as Hpanic.
  unfold renderHeading. destruct entering.
  - destruct (levelByte (Level n)) as [d|]; simpl; split.
    + split; [done|]. intros Hlevel. by apply Hpanic in Hlevel.
    + intros w' [= <-]. case_bool_decide.
      * eexists [_; _; _; _]. split; [done|]. by rewrite <- !app_assoc.
      * eexists [_; _; _]. split; [done|]. by rewrite <- !app_assoc.
    + split; [intros _; by apply Hpanic | done].
    + done.
  - destruct (levelByte (Level n)) as [d|]; simpl; split.
    + split; [done|]. intros Hlevel. by apply Hpanic in Hlevel.
    + intros w' [= <-].
      destruct (Attribute n "id") as [idAttr|].
      * destruct (_ && _).
        -- eexists [_; _; _; _]. split; [done|]. by rewrite <- !app_assoc.
        -- eexists [_; _; _]. split; [done|]. by rewrite <- !app_assoc.
      * eexists [_; _; _]. split; [done|]. by rewrite <- !app_assoc.
    + split; [intros _; by apply Hpanic | done].
    + done.
Qed.

(** ** Paths and the entries they name *)

Lemma index_byte_at (c : ascii) (x y : string) :
  c ∉ chars x →
  String.index 0 (String c "") (x +:+ String c y) = Some (String.length x).
Proof.
  induction x as [|b x IH]; intros Hc.
  - change ("" +:+ String c y) with (String c y).
    change (String.index 0 (String c "") (String c y))
      with (if String.prefix (String c "") (String c y) then Some 0%nat
            else match String.index 0 (String c "") y with
                 | Some n => Some (S n)
                 | None => None
                 end).
    simpl String.prefix. destruct (Ascii.ascii_dec c c); [|done].
    by destruct y.
  - rewrite append_cons.
    change (String.index 0 (String c "") (String b (x +:+ String c y)))
      with (if String.prefix (String c "") (String b (x +:+ String c y))
            then Some 0%nat
            else match String.index 0 (String c "") (x +:+ String c y) with
                 | Some n => Some (S n)
                 | None => None
                 end).
    unfold chars in Hc. simpl in Hc. apply not_elem_of_cons in Hc as [Hcb Hc].
    simpl String.prefix. destruct (Ascii.ascii_dec c b); [done|].
    by rewrite IH.
Qed.

Lemma index_byte_absent (c : ascii) (s : string) :
  c ∉ chars s → String.index 0 (String c "") s = None.
Proof.
  induction s as [|b s IH]; intros Hc; [done|].
  change (String.index 0 (String c "") (String b s))
    with (if String.prefix (String c "") (String b s) then Some 0%nat
          else match String.index 0 (String c "") s with
               | Some n => Some (S n)
               | None => None
               end).
  unfold chars in Hc. simpl in Hc. apply not_elem_of_cons in Hc as [Hcb Hc].
  simpl String.prefix. destruct (Ascii.ascii_dec c b); [done|].
  by rewrite IH.
Qed.

(** Splitting what was joined gives the pieces back, when no piece holds
    the separator. *)
Lemma genSplit_Join (c : ascii) (pieces : list string) :
  ∀ fuel, pieces ≠ [] → (length pieces ≤ S fuel)%nat →
          Forall (λ piece, c ∉ chars piece) pieces →
          strings.genSplit fuel (strings.Join pieces (String c "")) (String c "")
          = pieces.
Proof.
  induction pieces as [|piece pieces IH]; intros fuel Hne Hfuel Hpieces; [done|].
  apply Forall_cons in Hpieces as [Hpiece Hpieces].
  destruct pieces as [|next pieces].
  - simpl. destruct fuel as [|fuel]; simpl; [done|].
    by rewrite index_byte_absent.
  - rewrite Join_cons by done.
    destruct fuel as [|fuel]; [simpl in Hfuel; lia|].
    cbn [strings.genSplit].
    change (String c "" +:+ strings.Join (next :: pieces) (String c ""))
      with (String c (strings.Join (next :: pieces) (String c ""))).
    rewrite index_byte_at by done.
    rewrite upto_append. f_equal.
    replace (String.length piece + String.length (String c ""))%nat
      with (String.length (piece +:+ String c "")) by apply length_append.
    replace (piece +:+ String c (strings.Join (next :: pieces) (String c "")))
      with ((piece +:+ String c "") +:+ strings.Join (next :: pieces) (String c ""))
      by (by rewrite append_assoc).
    rewrite from_append. apply IH; [done | simpl in *; lia | done].
Qed.

Lemma length_Join (pieces : list string) (sep : string) :
  sep ≠ "" → (length pieces ≤ S (String.length (strings.Join pieces sep)))%nat.
Proof.
  intros Hsep. induction pieces as [|piece pieces IH]; [simpl; lia|].
  destruct pieces as [|next pieces]; [simpl; lia|].
  rewrite Join_cons by done. rewrite !length_append.
  destruct sep; [done|]. simpl in *. lia.
Qed.

Lemma Split_Join (c : ascii) (pieces : list string) :
  pieces ≠ [] → Forall (λ piece, c ∉ chars piece) pieces →
  strings.Split (strings.Join pieces (String c "")) (String c "") = pieces.
Proof.
  intros Hne Hpieces. unfold strings.Split, strings.SplitN.
  change (-1 =? 0)%Z with false. change (-1 <? 0)%Z with true. cbv iota.
  apply genSplit_Join; [done | by apply length_Join | done].
Qed.

Lemma Join_snoc (pieces : list string) (piece sep : string) :
  pieces ≠ [] →
  strings.Join (pieces ++ [piece]) sep = strings.Join pieces sep +:+ sep +:+ piece.
Proof.
  induction pieces as [|first pieces IH]; intros Hne; [done|].
  destruct pieces as [|next pieces]; [done|].
  change ((first :: next :: pieces) ++ [piece])%list
    with (first :: ((next :: pieces) ++ [piece]))%list.
  rewrite !Join_cons by done. rewrite IH by done. by rewrite <- !append_assoc.
Qed.

Lemma Split_snoc (path name : string) :
  "/"%char ∉ chars name →
  strings.Split (path +:+ "/" +:+ name) "/" = (strings.Split path "/" ++ [name])%list.
Proof.
  intros Hname.
  assert (strings.Split path "/" ≠ []) as Hne.
  { unfold strings.Split, strings.SplitN.
    change (-1 =? 0)%Z with false. change (-1 <? 0)%Z with true. cbv iota.
    apply genSplit_nonempty. }
  assert (Forall (λ piece, "/"%char ∉ chars piece) (strings.Split path "/"))
    as Hpieces.
  { apply Forall_forall. intros piece Hpiece.
    unfold strings.Split, strings.SplitN in Hpiece.
    change (-1 =? 0)%Z with false in Hpiece.
    change (-1 <? 0)%Z with true in Hpiece. cbv iota in Hpiece.
    by apply (genSplit_pieces "/" _ path piece) in Hpiece as [? _]. }
  rewrite <- (Join_genSplit (String.length path) "/" path) at 1.
  fold (strings.Split path "/").
  rewrite <- Join_snoc by done.
  apply (Split_Join "/"); [by destruct (strings.Split path "/") |].
  apply Forall_app. split; [done|]. by constructor.
Qed.

Lemma elements_Join (path name : string) :
  validName name →
  filepath.elements (filepath.Join path name)
  = (filepath.elements path ++ [name])%list.
Proof.
  intros [Hne Hslash]. unfold filepath.elements, filepath.Join.
  rewrite Split_snoc by done. rewrite filter_app, filter_cons.
  by rewrite decide_True.
Qed.

Lemma Base_Join (path name : string) :
  validName name → filepath.Base (filepath.Join path name) = name.
Proof.
  intros Hname. unfold filepath.Base. rewrite elements_Join by done.
  rewrite last_snoc. simpl. case_bool_decide as Hempty; [|done].
  unfold filepath.Join in Hempty. apply (f_equal String.length) in Hempty.
  rewrite !length_append in Hempty. simpl in Hempty. lia.
Qed.

Lemma lookup_elements_app (elems more : list string) :
  ∀ n, os.lookup n (elems ++ more) = os.lookup n elems ≫= λ n', os.lookup n' more.
Proof.
  induction elems as [|e elems IH]; intros n; simpl; [done|].
  destruct n as [data | [entries|err]]; try done.
  destruct (os.find e entries) as [n'|]; [apply IH | done].
Qed.

Lemma find_entry (name : string) (child : FSNode)
    (before after : list (string * FSNode)) :
  name ∉ before.*1 →
  os.find name (before ++ (name, child) :: after) = Some child.
Proof.
  intros Hbefore. unfold os.find.
  destruct (list_find (λ e, e.1 = name) (before ++ (name, child) :: after))
    as [[i found]|] eqn:Hfind.
  - apply list_find_Some in Hfind as (Hi & Hfound & Hfirst). simpl.
    destruct (decide (i < length before)%nat) as [Hlt|Hge].
    + rewrite lookup_app_l in Hi by done.
      destruct Hbefore. apply list_elem_of_fmap. exists found.
      split; [done|]. by eapply list_elem_of_lookup_2.
    + destruct (decide (i = length before)) as [->|Hne].
      * rewrite list_lookup_middle in Hi by done. by injection Hi as <-.
      * destruct (Hfirst (length before) (name, child)); [|lia|done].
        by rewrite list_lookup_middle.
  - apply list_find_None in Hfind. rewrite Forall_app, Forall_cons in Hfind.
    by destruct Hfind as (_ & [] & _).
Qed.


(** ** The sidebar and the search index *)

Lemma parseFrontmatter_error_nil (content : string) (meta : meta_map)
    (body : string) (e : error) :
  parseFrontmatter content = (meta, body, Some e) → meta = None.
Proof.
  unfold parseFrontmatter. destruct (negb _); [done|].
  destruct (_ <? _)%Z; [|done]. by intros [= <- _ _].
Qed.

Lemma HasSuffix_Join (path name suffix : string) :
  strings.HasSuffix name suffix = true →
  strings.HasSuffix (filepath.Join path name) suffix = true.
Proof.
  intros [front ->]%HasSuffix_spec. apply HasSuffix_spec.
  exists (path +:+ "/" +:+ front). unfold filepath.Join.
  by rewrite !append_assoc.
Qed.

Section sidebar.

Variable wd : FSNode.
Variable baseUrl : string.

(** The note that [eachEntry] appends for a file is the one the walk
    visits under the same path. *)
Lemma note_entry_linked (path name data : string) :
  validName name → skipped name = false →
  strings.HasSuffix name ".md" = true →
  os.ReadFile wd (filepath.Join path name) = inl data →
  let '(meta, _, err) := parseFrontmatter data in
  linksTo wd baseUrl
    (mkNoteNode name
       (baseUrl +:+ "notes/"
          +:+ strings.TrimSuffix (filepath.Rel "notes" (filepath.Join path name)) ".md")
       false []
       (if bool_decide (err = None) && bool_decide (get meta "title" ≠ "")
        then get meta "title" else name))
    (filepath.Join path name,
     {| info_Name := filepath.Base (filepath.Join path name); info_IsDir := false |}).
Proof.
  intros Hname Hskip Hmd Hread.
  destruct (parseFrontmatter data) as [[meta body] err] eqn:Hparse.
  unfold linksTo, isNote, readOrNil. simpl.
  rewrite Hread, Hparse, (HasSuffix_Join _ _ _ Hmd), (Base_Join _ _ Hname). simpl.
  split; [|split; [done|]].
  - unfold skipped in Hskip. apply orb_false_iff in Hskip as [_ Hindex].
    by rewrite Hindex.
  - unfold noteTitle. destruct err as [e|]; simpl.
    + apply parseFrontmatter_error_nil in Hparse as ->. by rewrite get_nil.
    + case_bool_decide; by case_bool_decide.
Qed.

Lemma eachEntry_linked (path : string) (entries : list (string * FSNode)) :
  Forall (λ e, wellNamed e.2 = true → foldersListable e.2 = true →
               ∀ path seen, ∃ new,
                 walk collect path e.2 seen = ((seen ++ new)%list, None)
                 ∧ ∀ nodes node,
                     buildNotesTree wd baseUrl e.2 path = inl nodes →
                     node ∈ treeNodes nodes → IsDir node = false →
                     ∃ v, v ∈ new ∧ linksTo wd baseUrl node v) entries →
  Forall (λ e, validName e.1 ∧ wellNamed e.2 = true
               ∧ foldersListable e.2 = true) entries →
  ∀ seen nodes0, ∃ new,
    walkNames (walk collect) path entries seen = ((seen ++ new)%list, None)
    ∧ ∀ result node,
        eachEntry wd (buildNotesTree wd baseUrl) path baseUrl entries nodes0
        = inl result →
        node ∈ treeNodes result → IsDir node = false →
        node ∈ treeNodes nodes0 ∨ ∃ v, v ∈ new ∧ linksTo wd baseUrl node v.
Proof.
  induction 1 as [|[name entry] entries Hentry _ IH]; intros Hvalid seen nodes0.
  { exists []. rewrite app_nil_r. split; [done|].
    simpl. intros result node [= <-] Hnode _. by left. }
  apply Forall_cons in Hvalid as [(Hname & Hnamed & Hlistable) Hvalid].
  simpl in Hname, Hnamed, Hlistable.
  destruct (Hentry Hnamed Hlistable (filepath.Join path name) seen)
    as (new1 & Hwalk & Hlinked).
  simpl in Hwalk. cbn [walkNames]. rewrite Hwalk.
  assert (∀ nodes1,
            (∀ node, node ∈ treeNodes nodes1 → IsDir node = false →
                     node ∈ treeNodes nodes0
                     ∨ ∃ v, v ∈ new1 ∧ linksTo wd baseUrl node v) →
            ∃ new,
              walkNames (walk collect) path entries (seen ++ new1)%list
              = ((seen ++ new)%list, None)
              ∧ ∀ result node,
                  eachEntry wd (buildNotesTree wd baseUrl) path baseUrl entries nodes1
                  = inl result →
                  node ∈ treeNodes result → IsDir node = false →
                  node ∈ treeNodes nodes0
                  ∨ ∃ v, v ∈ new ∧ linksTo wd baseUrl node v) as Hrest.
  { intros nodes1 Hnodes1.
    destruct (IH Hvalid (seen ++ new1)%list nodes1) as (new2 & Hwalk2 & Hlinked2).
    exists (new1 ++ new2)%list. rewrite Hwalk2, app_assoc. split; [done|].
    intros result node Hresult Hnode Hfile.
    destruct (Hlinked2 result node Hresult Hnode Hfile) as [Hold | (v & Hv & Hlink)].
    - destruct (Hnodes1 node Hold Hfile) as [? | (v & Hv & Hlink)]; [by left|].
      right. exists v. split; [|done]. apply elem_of_app. by left.
    - right. exists v. split; [|done]. apply elem_of_app. by right. }
  cbn [eachEntry].
  destruct (skipped name) eqn:Hskip; [apply Hrest; by left|].
  destruct (os.IsDir entry) eqn:Hdir.
  - destruct (buildNotesTree wd baseUrl entry (filepath.Join path name))
      as [children|err] eqn:Hbuild.
    + apply Hrest. intros node. rewrite treeNodes_snoc, descendants_unfold.
      simpl. intros [Hold | [-> | Hchild]%elem_of_cons]%elem_of_app Hfile.
      * by left.
      * done.
      * right. by eapply Hlinked.
    + destruct (IH Hvalid (seen ++ new1)%list nodes0) as (new2 & Hwalk2 & _).
      exists (new1 ++ new2)%list. rewrite Hwalk2, app_assoc. by split.
  - destruct entry as [content|]; [|done].
    assert (new1 = [(filepath.Join path name,
                     {| info_Name := filepath.Base (filepath.Join path name);
                        info_IsDir := false |})]) as ->.
    { simpl in Hwalk. injection Hwalk as Hwalk. by apply app_inv_head in Hwalk. }
    destruct (strings.HasSuffix name ".md") eqn:Hmd; [|apply Hrest; by left].
    destruct (os.ReadFile wd (filepath.Join path name)) as [data|err] eqn:Hread;
      [|apply Hrest; by left].
    pose proof (note_entry_linked path name data Hname Hskip Hmd Hread) as Hlink.
    destruct (parseFrontmatter data) as [[meta body] err].
    apply Hrest. intros node. rewrite treeNodes_snoc, descendants_unfold.
    simpl. intros [Hold | [-> | Hchild]%elem_of_cons]%elem_of_app Hfile.
    + by left.
    + right. eexists. split; [apply list_elem_of_singleton; reflexivity | done].
    + by apply elem_of_nil in Hchild.
Qed.

Lemma all_entries (entries : list (string * FSNode)) :
  wellNamed (Directory (inl entries)) = true →
  foldersListable (Directory (inl entries)) = true →
  Forall (λ e, validName e.1 ∧ wellNamed e.2 = true
               ∧ foldersListable e.2 = true) entries.
Proof.
  simpl. intros [_ Hnamed]%andb_true_iff Hlistable.
  induction entries as [|[name child] entries IH]; [constructor|].
  apply andb_true_iff in Hnamed as [[Hname Hchild]%andb_true_iff Hnamed].
  apply andb_true_iff in Hlistable as [Hlist Hlistable].
  apply bool_decide_eq_true in Hname.
  constructor; [done | by apply IH].
Qed.

Lemma walk_linked (n : FSNode) :
  wellNamed n = true → foldersListable n = true →
  ∀ path seen, ∃ new,
    walk collect path n seen = ((seen ++ new)%list, None)
    ∧ ∀ nodes node,
        buildNotesTree wd baseUrl n path = inl nodes →
        node ∈ treeNodes nodes → IsDir node = false →
        ∃ v, v ∈ new ∧ linksTo wd baseUrl node v.
Proof.
  induction n as [data | err | entries IH] using FSNode_nested_ind;
    intros Hnamed Hlistable path seen.
  - eexists [_]. by split.
  - done.
  - pose proof (all_entries entries Hnamed Hlistable) as Hvalid.
    destruct (eachEntry_linked path entries IH Hvalid
                (seen ++ [(path, {| info_Name := filepath.Base path;
                                    info_IsDir := true |})])%list [])
      as (new & Hwalk & Hlinked).
    eexists (_ :: new). simpl. rewrite Hwalk, <- app_assoc. split; [done|].
    intros nodes node Hbuild Hnode Hfile.
    destruct (Hlinked nodes node Hbuild Hnode Hfile)
      as [Hnil | (v & Hv & Hlink)]; [by apply elem_of_nil in Hnil|].
    exists v. split; [by right | done].
Qed.

End sidebar.

(** X16. When every folder under [notes] can be listed, and the names in
    it are valid, every note of the sidebar is in the search index: there
    is a record with the URL and the title of the sidebar entry. *)
Theorem sidebar_notes_indexed `{!sort.Sorter} (wd : FSNode) (md : Markdown)
    (unicodeLower : string → string) (cfg : Config) (dir : FSNode)
    (node : NoteNode) :
  let site := main wd md unicodeLower cfg in
  os.lookup wd ["notes"] = Some dir →
  wellNamed dir = true →
  foldersListable dir = true →
  node ∈ treeNodes (site_NotesTree site) →
  IsDir node = false →
  ∃ r, r ∈ site_Search site
       ∧ r !! "url" = Some (URL node) ∧ r !! "title" = Some (Title node).
Proof.
  intros site Hdir Hnamed Hlistable. subst site. rewrite search_visited.
  unfold main. destruct (collectPosts wd md cfg) as [posts postPages].
  destruct (Walk (searchNote wd md cfg) wd "notes" _).1 as [items notes].
  simpl. unfold notesTree. rewrite Hdir.
  destruct (walk_linked wd (cfg_BaseURL cfg) dir Hnamed Hlistable "notes" [])
    as (new & Hwalk & Hlinked).
  destruct (buildNotesTree wd (cfg_BaseURL cfg) dir "notes") as [nodes|err];
    [|by intros Hnil%elem_of_nil].
  intros Hnode Hfile.
  destruct (Hlinked nodes node eq_refl Hnode Hfile)
    as ([path info] & Hv & Hnote & Hurl & Htitle).
  simpl in Hnote, Hurl, Htitle.
  exists (noteSearchItem wd md cfg path info). split.
  - apply list_elem_of_fmap. exists (path, info). split; [done|].
    unfold visitedNotes, visits, Walk.
    change (filepath.elements "notes") with ["notes"]. rewrite Hdir, Hwalk.
    simpl. by apply list_elem_of_filter.
  - rewrite Hurl, Htitle. unfold noteSearchItem.
    destruct (parseFrontmatter (readOrNil wd path)) as [[meta body] err]. simpl.
    destruct (searchItem_fields (noteTitle meta info) (noteURL cfg path)
                (noteDate (get meta "date")).1 (Convert md body).1 "note"
                (strings.Join (parseTags meta) ",")) as (_ & ? & ? & _).
    done.
Qed.

Lemma sidebar_notes_indexed_witness :
  let site := @main insertionSorter exampleDir plainMarkdown (λ s, s) exampleCfg in
  let soil := mkNoteNode "soil.md" "/notes/garden/soil" false [] "Soil" in
  ∃ r, r ∈ site_Search site
       ∧ r !! "url" = Some "/notes/garden/soil" ∧ r !! "title" = Some "Soil".
Proof.
  intros site soil.
  apply (@sidebar_notes_indexed insertionSorter exampleDir plainMarkdown (λ s, s)
           exampleCfg (default (File (inl "")) (os.lookup exampleDir ["notes"])) soil).
  - vm_compute. reflexivity.
  - vm_compute. reflexivity.
  - vm_compute. reflexivity.
  - vm_compute. apply list_elem_of_In. right. by left.
  - reflexivity.
Defined.

(** ** The copies of [static] and [assets] *)

Lemma find_Some_entry (name : string) (entries : list (string * FSNode))
    (child : FSNode) :
  os.find name entries = Some child → (name, child) ∈ entries.
Proof.
  unfold os.find.
  destruct (list_find (λ e, e.1 = name) entries) as [[i [name' child']]|] eqn:Hfind;
    [|done].
  apply list_find_Some in Hfind as (Hi & Hname & _). simpl in *.
  intros [= <-]. subst name'. by eapply list_elem_of_lookup_2.
Qed.

Section copy.

Variable wd : FSNode.
Variable walkFn : WalkFunc (list Output).

Hypothesis walkFn_entry :
  ∀ path info out, walkFn path (Some info) None out = copyEntry wd path info out.
Hypothesis walkFn_err :
  ∀ path info e out, (walkFn path info (Some e) out).1 = out.


Lemma named_entries (entries : list (string * FSNode)) :
  wellNamed (Directory (inl entries)) = true →
  NoDup entries.*1 ∧ Forall (λ e, validName e.1 ∧ wellNamed e.2 = true) entries.
Proof.
  simpl. intros [Hdup%bool_decide_eq_true Hnamed]%andb_true_iff. split; [done|].
  clear Hdup. induction entries as [|[name child] entries IH]; [constructor|].
  apply andb_true_iff in Hnamed as [[Hname Hchild]%andb_true_iff Hnamed].
  apply bool_decide_eq_true in Hname.
  constructor; [done | by apply IH].
Qed.




End copy.





(** The copy of [static] stops at a folder that cannot be listed: had
    [static] the content of the example's [assets], the file behind the
    folder would not be written. *)
Lemma static_copy_stops_example :
  let wd :=
    Directory (inl
      [ ("static", default (File (inl "")) (os.lookup copyDir ["assets"])) ]) in
  staticCopy wd
  = [ MkdirAll "public/static"; MkdirAll "public/static";
      MkdirAll "public/static"; WriteFile "public/static/banner.png" "PNG" ].
Proof. vm_compute. reflexivity. Qed.

(** ** The entries of a walk and the tree *)

Lemma below_cons (path name : string) (names : list string) :
  below path (name :: names) = below (filepath.Join path name) names.
Proof. reflexivity. Qed.

Lemma walkNames_visits (path : string) (entries : list (string * FSNode)) :
  NoDup entries.*1 →
  ∀ after,
    Forall (λ e, wellNamed e.2 = true →
                 ∀ path seen, ∃ new err,
                   walk collect path e.2 seen = ((seen ++ new)%list, err)
                   ∧ (∀ v, v ∈ new →
                           ∃ names node, os.lookup e.2 names = Some node
                                         ∧ v = entryAt path names node)
                   ∧ (foldersListable e.2 = true →
                      err = None
                      ∧ ∀ names node, os.lookup e.2 names = Some node →
                                      entryAt path names node ∈ new)) after →
    Forall (λ e, validName e.1 ∧ wellNamed e.2 = true) after →
    ∀ before seen,
      entries = (before ++ after)%list →
      ∃ new err,
        walkNames (walk collect) path after seen = ((seen ++ new)%list, err)
        ∧ (∀ v, v ∈ new →
                ∃ name child rest node,
                  os.find name entries = Some child
                  ∧ os.lookup child rest = Some node
                  ∧ v = entryAt (filepath.Join path name) rest node)
        ∧ (Forall (λ e, foldersListable e.2 = true) after →
           err = None
           ∧ ∀ name child rest node,
               (name, child) ∈ after → os.find name entries = Some child →
               os.lookup child rest = Some node →
               entryAt (filepath.Join path name) rest node ∈ new).
Proof.
  intros Hdup after.
  induction 1 as [|[name child] after Hchild _ IH];
    intros Hvalid before seen Hentries.
  { exists [], None. rewrite app_nil_r. split; [done|]. split.
    - by intros v Hin%elem_of_nil.
    - intros _. split; [done|]. by intros name child rest node Hin%elem_of_nil. }
  apply Forall_cons in Hvalid as [[Hname Hnamed] Hvalid]. simpl in Hname, Hnamed.
  assert (name ∉ before.*1) as Hbefore.
  { rewrite Hentries, fmap_app, fmap_cons in Hdup.
    apply NoDup_app in Hdup as (_ & Hdisjoint & _).
    intros Hin. apply (Hdisjoint name Hin). left. }
  assert (os.find name entries = Some child) as Hfind.
  { rewrite Hentries. by apply find_entry. }
  destruct (Hchild Hnamed (filepath.Join path name) seen)
    as (new1 & err1 & Hwalk & Hsound & Hcomplete).
  simpl in Hwalk, Hsound, Hcomplete.
  destruct (IH Hvalid (before ++ [(name, child)])%list (seen ++ new1)%list)
    as (new2 & err2 & Hwalk2 & Hsound2 & Hcomplete2).
  { by rewrite <- app_assoc. }
  cbn [walkNames]. rewrite Hwalk.
  assert (∃ new err,
            walkNames (walk collect) path after (seen ++ new1)%list
            = ((seen ++ new)%list, err)
            ∧ (∀ v, v ∈ new →
                    ∃ name child rest node,
                      os.find name entries = Some child
                      ∧ os.lookup child rest = Some node
                      ∧ v = entryAt (filepath.Join path name) rest node)
            ∧ (Forall (λ e, foldersListable e.2 = true) ((name, child) :: after) →
               err = None
               ∧ ∀ name' child' rest node,
                   (name', child') ∈ (name, child) :: after →
                   os.find name' entries = Some child' →
                   os.lookup child' rest = Some node →
                   entryAt (filepath.Join path name') rest node ∈ new))
    as (new & err & Hwalk' & Hsound' & Hcomplete').
  { exists (new1 ++ new2)%list, err2. rewrite Hwalk2, app_assoc.
    split; [done|]. split.
    - intros v [Hin | Hin]%elem_of_app; [|by apply Hsound2].
      destruct (Hsound v Hin) as (rest & node & Hnode & ->).
      by exists name, child, rest, node.
    - intros [Hfolders Hlistable]%Forall_cons. simpl in Hfolders.
      destruct (Hcomplete Hfolders) as [_ Hall1].
      destruct (Hcomplete2 Hlistable) as [-> Hall2]. split; [done|].
      intros name' child' rest node [[= -> ->] | Hin]%elem_of_cons Hfind' Hnode.
      + apply elem_of_app. left. by apply Hall1.
      + apply elem_of_app. right. by eapply Hall2. }
  destruct err1 as [e|]; [|by exists new, err].
  destruct (negb (os.IsDir child) || bool_decide (e ≠ SkipDir)).
  - exists new1, (Some e). split; [done|]. split.
    + intros v Hin. destruct (Hsound v Hin) as (rest & node & Hnode & ->).
      by exists name, child, rest, node.
    + intros [Hfolders _]%Forall_cons. simpl in Hfolders.
      by destruct (Hcomplete Hfolders).
  - by exists new, err.
Qed.

Lemma walk_visits (n : FSNode) :
  wellNamed n = true →
  ∀ path seen, ∃ new err,
    walk collect path n seen = ((seen ++ new)%list, err)
    ∧ (∀ v, v ∈ new →
            ∃ names node, os.lookup n names = Some node
                          ∧ v = entryAt path names node)
    ∧ (foldersListable n = true →
       err = None
       ∧ ∀ names node, os.lookup n names = Some node →
                       entryAt path names node ∈ new).
Proof.
  induction n as [content | e | entries IH] using FSNode_nested_ind;
    intros Hnamed path seen.
  - eexists [_], None. split; [done|]. split.
    + intros v ->%list_elem_of_singleton. by exists [], (File content).
    + intros _. split; [done|]. intros [|name names] node; [|done].
      intros [= <-]. left.
  - exists [], (Some e). rewrite app_nil_r. split; [done|]. split; [|done].
    by intros v Hin%elem_of_nil.
  - destruct (named_entries entries Hnamed) as [Hdup Hvalid].
    destruct (walkNames_visits path entries Hdup entries IH Hvalid []
                (seen ++ [entryAt path [] (Directory (inl entries))])%list eq_refl)
      as (new & err & Hwalk & Hsound & Hcomplete).
    eexists (_ :: new), err. simpl.
    change (seen ++ [(path, {| info_Name := filepath.Base path; info_IsDir := true |})])%list
      with (seen ++ [entryAt path [] (Directory (inl entries))])%list.
    rewrite Hwalk, <- app_assoc. split; [done|]. split.
    + intros v [-> | Hin]%elem_of_cons.
      * by exists [], (Directory (inl entries)).
      * destruct (Hsound v Hin) as (name & child & rest & node & Hfind & Hnode & ->).
        exists (name :: rest), node. simpl. by rewrite Hfind.
    + intros Hfolders.
      assert (Forall (λ e, foldersListable e.2 = true) entries) as Hlistable.
      { clear -Hfolders. simpl in Hfolders.
        induction entries as [|[name child] entries IHentries]; [constructor|].
        apply andb_true_iff in Hfolders as [? ?].
        constructor; [done | by apply IHentries]. }
      destruct (Hcomplete Hlistable) as [-> Hall]. split; [done|].
      intros [|name rest] node.
      * intros [= <-]. left.
      * simpl. destruct (os.find name entries) as [child|] eqn:Hfind; [|done].
        intros Hnode. right.
        apply (Hall name child rest node); [|done..].
        by apply find_Some_entry.
Qed.

(** The entries a walk visits are nodes of the tree under its root, and
    all of them when every folder can be listed. *)
Lemma visits_tree (wd : FSNode) (root : string) (n : FSNode) :
  os.lookup wd (filepath.elements root) = Some n →
  wellNamed n = true →
  (∀ v, v ∈ visits wd root →
        ∃ names node, os.lookup n names = Some node ∧ v = entryAt root names node)
  ∧ (foldersListable n = true →
     ∀ names node, os.lookup n names = Some node →
                   entryAt root names node ∈ visits wd root).
Proof.
  intros Hroot Hnamed. unfold visits, Walk. rewrite Hroot.
  destruct (walk_visits n Hnamed root []) as (new & err & -> & Hsound & Hcomplete).
  split.
  - by destruct err as [[]|].
  - intros Hfolders. destruct (Hcomplete Hfolders) as [-> Hall]. done.
Qed.

Lemma lookup_valid (names : list string) :
  ∀ n node, wellNamed n = true → os.lookup n names = Some node →
            Forall validName names.
Proof.
  induction names as [|name names IH]; intros n node Hnamed; [constructor|].
  simpl. destruct n as [content | [entries|e]]; try done.
  destruct (os.find name entries) as [child|] eqn:Hfind; [|done].
  intros Hnode. apply find_Some_entry in Hfind.
  destruct (named_entries entries Hnamed) as [_ Hvalid].
  rewrite Forall_forall in Hvalid.
  destruct (Hvalid _ Hfind) as [Hname Hchild].
  constructor; [done | by eapply IH].
Qed.

Lemma elements_below (names : list string) :
  Forall validName names →
  ∀ path, filepath.elements (below path names)
          = (filepath.elements path ++ names)%list.
Proof.
  induction 1 as [|name names Hname _ IH]; intros path.
  - by rewrite app_nil_r.
  - rewrite below_cons, IH, elements_Join by done. by rewrite <- app_assoc.
Qed.

Lemma Rel_below (names : list string) :
  Forall validName names → names ≠ [] →
  filepath.Rel "notes" (below "notes" names) = strings.Join names "/".
Proof.
  intros Hvalid Hne. unfold filepath.Rel. rewrite elements_below by done.
  change (filepath.elements "notes") with ["notes"]. simpl.
  by destruct names.
Qed.

Lemma below_snoc (path : string) (names : list string) (name : string) :
  below path (names ++ [name]) = filepath.Join (below path names) name.
Proof. unfold below. by rewrite foldl_app. Qed.

(** ** The notes of the tree and the search index *)

Lemma chars_inj (s1 s2 : string) : chars s1 = chars s2 → s1 = s2.
Proof.
  unfold chars. intros Heq.
  rewrite <- (String.string_of_list_ascii_of_string s1),
          <- (String.string_of_list_ascii_of_string s2).
  by rewrite Heq.
Qed.

Lemma HasSuffix_Join_inv (path name suffix : string) :
  "/"%char ∉ chars suffix →
  strings.HasSuffix (filepath.Join path name) suffix = true →
  strings.HasSuffix name suffix = true.
Proof.
  intros Hslash [front Hfront]%HasSuffix_spec. apply HasSuffix_spec.
  unfold filepath.Join in Hfront. apply (f_equal chars) in Hfront.
  rewrite !chars_append in Hfront. simpl in Hfront.
  rewrite cons_middle, app_assoc in Hfront.
  apply app_eq_inv in Hfront as [(k & Hpath & Hsuffix) | (k & Hfront & Hname)].
  - destruct k as [|x k _] using rev_ind.
    + exists "". change ("" +:+ suffix) with suffix.
      apply chars_inj. by rewrite Hsuffix.
    + rewrite app_assoc in Hpath. apply app_inj_tail in Hpath as [_ <-].
      destruct Hslash. rewrite Hsuffix, <- app_assoc. apply elem_of_app. right. left.
  - exists (String.string_of_list_ascii k). apply chars_inj.
    rewrite chars_append. unfold chars at 2.
    by rewrite String.list_ascii_of_string_of_list_ascii.
Qed.

Lemma md_no_slash : "/"%char ∉ chars ".md".
Proof.
  unfold chars. simpl. rewrite !not_elem_of_cons.
  repeat split; try done. apply not_elem_of_nil.
Qed.

Lemma lookup_below (wd dir : FSNode) (names : list string) :
  os.lookup wd ["notes"] = Some dir →
  Forall validName names →
  os.lookup wd (filepath.elements (below "notes" names)) = os.lookup dir names.
Proof.
  intros Hdir Hvalid. rewrite elements_below by done.
  change (filepath.elements "notes") with ["notes"].
  by rewrite lookup_elements_app, Hdir.
Qed.

(** The notes that the walks visit are the markdown files of the tree
    under [notes], [_index.md] apart. *)
Lemma visitedNotes_tree (wd dir : FSNode) :
  os.lookup wd ["notes"] = Some dir →
  wellNamed dir = true →
  foldersListable dir = true →
  ∀ v, v ∈ visitedNotes wd ↔
       ∃ names name data,
         os.lookup dir (names ++ [name]) = Some (File data)
         ∧ strings.HasSuffix name ".md" = true
         ∧ name ≠ "_index.md"
         ∧ v = entryAt "notes" (names ++ [name]) (File data).
Proof.
  intros Hdir Hnamed Hfolders v.
  destruct (visits_tree wd "notes" dir Hdir Hnamed) as [Hsound Hcomplete].
  unfold visitedNotes. rewrite list_elem_of_filter. split.
  - intros [Hnote (names & node & Hnode & ->)%Hsound].
    unfold isNote, entryAt in Hnote. simpl in Hnote.
    apply andb_true_iff in Hnote as [[Hfile Hmd]%andb_true_iff Hindex].
    destruct node as [data|]; [|done].
    pose proof (lookup_valid names dir _ Hnamed Hnode) as Hvalid.
    destruct names as [|name names _] using rev_ind; [done|].
    apply Forall_app in Hvalid as [_ [Hname _]%Forall_cons].
    rewrite below_snoc in Hmd, Hindex.
    rewrite Base_Join in Hindex by done.
    apply HasSuffix_Join_inv in Hmd; [|apply md_no_slash].
    exists names, name, data. repeat split; try done.
    apply negb_true_iff, bool_decide_eq_false in Hindex. done.
  - intros (names & name & data & Hnode & Hmd & Hindex & ->).
    pose proof (lookup_valid _ dir _ Hnamed Hnode) as Hvalid.
    apply Forall_app in Hvalid as [_ [Hname _]%Forall_cons].
    split; [|by apply Hcomplete].
    unfold isNote, entryAt. simpl. rewrite below_snoc.
    rewrite HasSuffix_Join, Base_Join by done. simpl.
    by rewrite bool_decide_false.
Qed.

Lemma append_inv_head (s a b : string) : s +:+ a = s +:+ b → a = b.
Proof.
  induction s as [|c s IH]; [done|]. rewrite !append_cons. intros [= ?]. by apply IH.
Qed.

Lemma append_inv_tail (a b s : string) : a +:+ s = b +:+ s → a = b.
Proof.
  intros Heq. apply chars_inj. apply (f_equal chars) in Heq.
  rewrite !chars_append in Heq. by apply app_inv_tail in Heq.
Qed.

Lemma TrimSuffix_inj (a b suffix : string) :
  strings.HasSuffix a suffix = true → strings.HasSuffix b suffix = true →
  strings.TrimSuffix a suffix = strings.TrimSuffix b suffix → a = b.
Proof.
  intros Ha Hb. unfold strings.TrimSuffix. rewrite Ha, Hb.
  apply HasSuffix_spec in Ha as [fa ->]. apply HasSuffix_spec in Hb as [fb ->].
  rewrite !length_append.
  replace (String.length fa + String.length suffix - String.length suffix)%nat
    with (String.length fa) by lia.
  replace (String.length fb + String.length suffix - String.length suffix)%nat
    with (String.length fb) by lia.
  rewrite !upto_append. by intros ->.
Qed.

Lemma Join_inj (c : ascii) (l1 l2 : list string) :
  l1 ≠ [] → l2 ≠ [] →
  Forall (λ piece, c ∉ chars piece) l1 → Forall (λ piece, c ∉ chars piece) l2 →
  strings.Join l1 (String c "") = strings.Join l2 (String c "") → l1 = l2.
Proof.
  intros Hne1 Hne2 Hl1 Hl2 Heq.
  rewrite <- (Split_Join c l1), <- (Split_Join c l2) by done. by rewrite Heq.
Qed.

Lemma HasSuffix_Join_list (names : list string) (name suffix : string) :
  strings.HasSuffix name suffix = true →
  strings.HasSuffix (strings.Join (names ++ [name]) "/") suffix = true.
Proof.
  intros Hname. destruct (decide (names = [])) as [->|Hne]; [done|].
  rewrite Join_snoc by done. by apply (HasSuffix_Join _ name).
Qed.

Lemma noteURL_below (cfg : Config) (names : list string) :
  Forall validName names → names ≠ [] →
  noteURL cfg (below "notes" names)
  = cfg_BaseURL cfg +:+ "notes/" +:+ strings.TrimSuffix (strings.Join names "/") ".md".
Proof. intros Hvalid Hne. unfold noteURL. by rewrite Rel_below. Qed.

(** Two markdown files of the tree have the same URL only when they are
    the same file. *)
Lemma noteURL_inj (cfg : Config) (l1 l2 : list string) (name1 name2 : string) :
  Forall validName (l1 ++ [name1]) → Forall validName (l2 ++ [name2]) →
  strings.HasSuffix name1 ".md" = true → strings.HasSuffix name2 ".md" = true →
  noteURL cfg (below "notes" (l1 ++ [name1]))
  = noteURL cfg (below "notes" (l2 ++ [name2])) →
  (l1 ++ [name1] = l2 ++ [name2])%list.
Proof.
  intros Hvalid1 Hvalid2 Hmd1 Hmd2.
  assert (l1 ++ [name1] ≠ [])%list as Hne1 by (by destruct l1).
  assert (l2 ++ [name2] ≠ [])%list as Hne2 by (by destruct l2).
  rewrite !noteURL_below by done.
  intros Heq. do 2 apply append_inv_head in Heq.
  apply TrimSuffix_inj in Heq; [|by apply HasSuffix_Join_list..].
  apply (Join_inj "/") in Heq; [done..| |].
  - eapply Forall_impl; [exact Hvalid1|]. by intros name [_ ?].
  - eapply Forall_impl; [exact Hvalid2|]. by intros name [_ ?].
Qed.

Lemma noteSearchItem_url (wd : FSNode) (md : Markdown) (cfg : Config)
    (path : string) (info : FileInfo) :
  noteSearchItem wd md cfg path info !! "url" = Some (noteURL cfg path)
  ∧ noteSearchItem wd md cfg path info !! "type" = Some "note".
Proof.
  unfold noteSearchItem.
  destruct (parseFrontmatter (readOrNil wd path)) as [[meta body] err].
  destruct (searchItem_fields (noteTitle meta info) (noteURL cfg path)
              (noteDate (get meta "date")).1 (Convert md body).1 "note"
              (strings.Join (parseTags meta) ",")) as (_ & _ & ? & _ & _ & ? & _).
  done.
Qed.

Lemma ReadFile_below (wd dir : FSNode) (names : list string)
    (content : string + error) :
  os.lookup wd ["notes"] = Some dir →
  wellNamed dir = true →
  os.lookup dir names = Some (File content) →
  os.ReadFile wd (below "notes" names) = content.
Proof.
  intros Hdir Hnamed Hnode. unfold os.ReadFile.
  rewrite (lookup_below wd dir) by (done || by eapply lookup_valid).
  by rewrite Hnode.
Qed.

Lemma notePage_Some (wd : FSNode) (md : Markdown) (cfg : Config)
    (v : string * FileInfo) (out : string) (post : Post) :
  notePage wd md cfg v = Some (out, post) →
  post_URL post = noteURL cfg v.1
  ∧ ∃ data, os.ReadFile wd v.1 = inl data
            ∧ (parseFrontmatter data).2 = None
            ∧ (Convert md (parseFrontmatter data).1.2).2 = None.
Proof.
  unfold notePage, processMarkdownFile.
  destruct (os.ReadFile wd v.1) as [data|e]; [|done].
  destruct (parseFrontmatter data) as [[meta body] [e|]] eqn:Hparse; [done|].
  destruct (Convert md body) as [html [e|]] eqn:Hconvert; [done|].
  intros [= <- <-]. split; [done|]. exists data.
  rewrite Hparse. simpl. by rewrite Hconvert.
Qed.

Lemma notePage_ok (wd : FSNode) (md : Markdown) (cfg : Config)
    (v : string * FileInfo) (data : string) :
  os.ReadFile wd v.1 = inl data →
  (parseFrontmatter data).2 = None →
  (Convert md (parseFrontmatter data).1.2).2 = None →
  ∃ out post, notePage wd md cfg v = Some (out, post)
              ∧ post_URL post = noteURL cfg v.1.
Proof.
  intros Hread. unfold notePage, processMarkdownFile. rewrite Hread.
  destruct (parseFrontmatter data) as [[meta body] err]. simpl. intros ->.
  destruct (Convert md body) as [html err]. simpl. intros ->.
  by eexists _, _.
Qed.

(** X19. When every folder under [notes] can be listed, the search index
    holds the markdown files of the tree under [notes], hidden ones and
    those of hidden folders too, and only [_index.md] files apart: a URL
    is the URL of a record exactly when it is the base URL, [notes/], and
    the path of such a file from [notes], without its [.md]. *)
Theorem notes_all_indexed `{!sort.Sorter} (wd : FSNode) (md : Markdown)
    (unicodeLower : string → string) (cfg : Config) (dir : FSNode)
    (url : string) :
  let site := main wd md unicodeLower cfg in
  os.lookup wd ["notes"] = Some dir →
  wellNamed dir = true →
  foldersListable dir = true →
  (∃ r, r ∈ site_Search site ∧ r !! "url" = Some url)
  ↔ ∃ names name data,
      os.lookup dir (names ++ [name]) = Some (File data)
      ∧ strings.HasSuffix name ".md" = true
      ∧ name ≠ "_index.md"
      ∧ url = cfg_BaseURL cfg +:+ "notes/"
                +:+ strings.TrimSuffix (strings.Join (names ++ [name]) "/") ".md".
Proof.
  intros site Hdir Hnamed Hfolders. subst site. rewrite search_visited.
  pose proof (visitedNotes_tree wd dir Hdir Hnamed Hfolders) as Htree. split.
  - intros (r & ([path info] & -> & Hv)%list_elem_of_fmap & Hurl).
    apply Htree in Hv as (names & name & data & Hnode & Hmd & Hindex & [= -> ->]).
    exists names, name, data. repeat split; try done.
    destruct (noteSearchItem_url wd md cfg (below "notes" (names ++ [name]))
                {| info_Name := filepath.Base (below "notes" (names ++ [name]));
                   info_IsDir := false |}) as [Hurl' _].
    simpl in Hurl. rewrite Hurl' in Hurl. injection Hurl as <-.
    apply noteURL_below; [by eapply lookup_valid | by destruct names].
  - intros (names & name & data & Hnode & Hmd & Hindex & ->).
    exists (noteSearchItem wd md cfg (below "notes" (names ++ [name]))
              {| info_Name := filepath.Base (below "notes" (names ++ [name]));
                 info_IsDir := false |}).
    split.
    + apply list_elem_of_fmap.
      exists (entryAt "notes" (names ++ [name]) (File data)). split; [done|].
      apply Htree. by exists names, name, data.
    + destruct (noteSearchItem_url wd md cfg (below "notes" (names ++ [name]))
                  {| info_Name := filepath.Base (below "notes" (names ++ [name]));
                     info_IsDir := false |}) as [-> _].
      f_equal. apply noteURL_below; [by eapply lookup_valid | by destruct names].
Qed.

Lemma notes_all_indexed_witness :
  let site := @main insertionSorter exampleDir plainMarkdown (λ s, s) exampleCfg in
  ∃ r, r ∈ site_Search site ∧ r !! "url" = Some "/notes/garden/soil".
Proof.
  intros site.
  apply (@notes_all_indexed insertionSorter exampleDir plainMarkdown (λ s, s)
           exampleCfg (default (File (inl "")) (os.lookup exampleDir ["notes"]))
           "/notes/garden/soil");
    [vm_compute; reflexivity..|].
  exists ["garden"], "soil.md", (inl (document ["title: Soil"; "tags: a, b"])).
  split; [vm_compute; reflexivity|].
  split; [vm_compute; reflexivity|].
  split; [by intros [=] | vm_compute; reflexivity].
Defined.

(** X20. Two markdown files of the tree under [notes] have the same URL,
    and so the same page, only if they are the same file. *)
Theorem note_urls_distinct (cfg : Config) (dir : FSNode)
    (names1 names2 : list string) (name1 name2 : string) (node1 node2 : FSNode) :
  wellNamed dir = true →
  os.lookup dir (names1 ++ [name1]) = Some node1 →
  os.lookup dir (names2 ++ [name2]) = Some node2 →
  strings.HasSuffix name1 ".md" = true →
  strings.HasSuffix name2 ".md" = true →
  noteURL cfg (below "notes" (names1 ++ [name1]))
  = noteURL cfg (below "notes" (names2 ++ [name2])) →
  (names1 ++ [name1] = names2 ++ [name2])%list.
Proof.
  intros Hnamed Hnode1 Hnode2. apply noteURL_inj; by eapply lookup_valid.
Qed.

Lemma note_urls_distinct_witness :
  (["plan.md"] = ["plan.md"])%list.
Proof.
  apply (note_urls_distinct exampleCfg
           (default (File (inl "")) (os.lookup exampleDir ["notes"]))
           [] [] "plan.md" "plan.md"
           (File (inl (document ["title: Plan"; "date: tomorrow"; "tags: [plan]"])))
           (File (inl (document ["title: Plan"; "date: tomorrow"; "tags: [plan]"]))));
    vm_compute; reflexivity.
Defined.

Lemma notePage_out (wd : FSNode) (md : Markdown) (cfg : Config)
    (v : string * FileInfo) (out : string) (post : Post) :
  notePage wd md cfg v = Some (out, post) →
  out = filepath.Join
          (filepath.Join (filepath.Join "public" "notes")
             (strings.TrimSuffix (filepath.Rel "notes" v.1) ".md"))
          "index.html".
Proof.
  unfold notePage.
  destruct (processMarkdownFile wd md v.1 _ (cfg_BaseURL cfg)) as [post' [e|]];
    [done|].
  by intros [= <- _].
Qed.

(** X21. A markdown file of the tree under [notes] that can be read has
    a page, told by its URL, exactly when its frontmatter parses, its
    body converts, the page walk comes to the file without an error, and
    the file of the page can be created.  So it has none unless it parses
    and converts; and it has one if it does, unless the page walk ends
    with the error of [os.Create] on a page whose file cannot be
    opened. *)
Theorem note_page_iff `{!sort.Sorter} (wd : FSNode) (md : Markdown)
    (unicodeLower : string → string) (cfg : Config) (dir : FSNode)
    (names : list string) (name data : string) :
  let site := main wd md unicodeLower cfg in
  let path := below "notes" (names ++ [name]) in
  let out :=
    filepath.Join
      (filepath.Join (filepath.Join "public" "notes")
         (strings.TrimSuffix (filepath.Rel "notes" path) ".md"))
      "index.html" in
  let paged :=
    ∃ out post, (out, post) ∈ site_NotePages site
                ∧ post_URL post = noteURL cfg path in
  let accepted :=
    (parseFrontmatter data).2 = None
    ∧ (Convert md (parseFrontmatter data).1.2).2 = None in
  os.lookup wd ["notes"] = Some dir →
  wellNamed dir = true →
  foldersListable dir = true →
  os.lookup dir (names ++ [name]) = Some (File (inl data)) →
  strings.HasSuffix name ".md" = true →
  name ≠ "_index.md" →
  (paged → accepted)
  ∧ ((pageWalk wd md cfg).2 ≠ Some os.ErrCreate → accepted → paged)
  ∧ (paged
     ↔ accepted
       ∧ ∃ before after,
           visits wd "notes"
           = (before ++ entryAt "notes" (names ++ [name]) (File (inl data))
                :: after)%list
           ∧ comesThrough wd md cfg before
           ∧ writable (publicAfter wd md cfg before) out = true).
Proof.
  intros site path out paged accepted Hdir Hnamed Hfolders Hnode Hmd Hindex.
  subst site path out paged accepted.
  destruct (notePages_prefix wd md unicodeLower cfg) as [Hprefix Hall].
  pose proof (visitedNotes_tree wd dir Hdir Hnamed Hfolders) as Htree.
  pose proof (ReadFile_below wd dir _ _ Hdir Hnamed Hnode) as Hread.
  assert (∀ v out post,
            v ∈ visitedNotes wd →
            notePage wd md cfg v = Some (out, post) →
            post_URL post = noteURL cfg (below "notes" (names ++ [name])) →
            v = entryAt "notes" (names ++ [name]) (File (inl data))
            ∧ (parseFrontmatter data).2 = None
            ∧ (Convert md (parseFrontmatter data).1.2).2 = None) as Hsame.
  { intros [path info] out post Hv Hpage Hurl.
    apply notePage_Some in Hpage as (Hurl' & data' & Hread' & Hok).
    simpl in Hurl', Hread'. rewrite Hurl' in Hurl.
    apply Htree in Hv as (names' & name' & content & Hnode' & Hmd' & _ & [= -> ->]).
    apply noteURL_inj in Hurl; [|by eapply lookup_valid..|done|done].
    rewrite Hurl, Hread in Hread'. injection Hread' as <-.
    by rewrite Hurl. }
  assert (entryAt "notes" (names ++ [name]) (File (inl data)) ∈ visitedNotes wd)
    as Hvisited.
  { apply Htree. by exists names, name, (inl data). }
  split; [|split].
  - intros (out & post & Hin & Hurl).
    apply (elem_of_prefix _ _ _ Hin) in Hprefix.
    apply list_elem_of_omap in Hprefix as (v & Hv & Hpage).
    by destruct (Hsame v out post Hv Hpage Hurl) as (_ & ? & ?).
  - intros Hends [Hparse Hconvert]. rewrite (Hall Hends).
    destruct (notePage_ok wd md cfg
                (entryAt "notes" (names ++ [name]) (File (inl data))) data
                Hread Hparse Hconvert) as (out & post & Hpage & Hurl).
    exists out, post. split; [|done].
    apply list_elem_of_omap. eexists. split; [|exact Hpage]. done.
  - split.
    + intros (out & post & Hin & Hurl).
      apply notePages_iff in Hin
        as (before & v & after & Hvisits & Hthrough & Hnote & Hpage & Hwritable).
      assert (v ∈ visitedNotes wd) as Hv.
      { apply list_elem_of_filter. split; [done|]. rewrite Hvisits.
        apply elem_of_app. right. left. }
      destruct (Hsame v out post Hv Hpage Hurl) as (-> & Hparse & Hconvert).
      split; [done|]. exists before, after.
      apply notePage_out in Hpage. cbn [entryAt fst] in Hpage.
      by rewrite <- Hpage.
    + intros [[Hparse Hconvert] (before & after & Hvisits & Hthrough & Hwritable)].
      destruct (notePage_ok wd md cfg
                  (entryAt "notes" (names ++ [name]) (File (inl data))) data
                  Hread Hparse Hconvert) as (out & post & Hpage & Hurl).
      exists out, post. split; [|done].
      apply notePages_iff. eexists before, _, after.
      split; [done|]. split; [done|].
      split; [by apply list_elem_of_filter in Hvisited as [? _]|].
      split; [done|].
      apply notePage_out in Hpage as ->. done.
Qed.

Lemma note_page_iff_witness :
  let site := @main insertionSorter exampleDir plainMarkdown (λ s, s) exampleCfg in
  ∃ out post, (out, post) ∈ site_NotePages site
              ∧ post_URL post = "/notes/garden/soil".
Proof.
  intros site.
  refine (proj1 (proj2
    (@note_page_iff insertionSorter exampleDir plainMarkdown (λ s, s)
       exampleCfg (default (File (inl "")) (os.lookup exampleDir ["notes"]))
       ["garden"] "soil.md" (document ["title: Soil"; "tags: a, b"])
       _ _ _ _ _ _)) _ _).
  - vm_compute. reflexivity.
  - vm_compute. reflexivity.
  - vm_compute. reflexivity.
  - vm_compute. reflexivity.
  - vm_compute. reflexivity.
  - by intros [=].
  - vm_compute. discriminate.
  - split; vm_compute; reflexivity.
Defined.

(** X22. Besides the pages, the page walk copies other files of the
    tree under [notes], hidden ones too.  A copy is made of a file exactly
    when the walk comes to it without an error, its name does not end in
    [.md], it can be read, and the copy can be created; and every copy is
    that of a readable file of the tree whose name does not end in [.md],
    written with its content under [public/notes] at its path from
    [notes]. *)
Theorem note_assets_copied (wd : FSNode) (md : Markdown) (cfg : Config)
    (dir : FSNode) (out data : string) :
  os.lookup wd ["notes"] = Some dir →
  os.IsDir dir = true →
  wellNamed dir = true →
  ((out, data) ∈ noteAssets wd md cfg
   ↔ ∃ before v after,
       visits wd "notes" = (before ++ v :: after)%list
       ∧ comesThrough wd md cfg before
       ∧ assetCopy wd v = Some (out, data)
       ∧ writable (publicAfter wd md cfg before) out = true)
  ∧ ((out, data) ∈ noteAssets wd md cfg →
     ∃ names name,
       os.lookup dir (names ++ [name]) = Some (File (inl data))
       ∧ strings.HasSuffix name ".md" = false
       ∧ out = filepath.Join (filepath.Join "public" "notes")
                 (strings.Join (names ++ [name]) "/")).
Proof.
  intros Hdir Hfolder Hnamed. split; [apply noteAssets_at|]. intros Hin.
  pose proof (elem_of_sublist _ _ _ Hin (noteAssets_sublist wd md cfg)) as Hcopy.
  destruct (visits_tree wd "notes" dir Hdir Hnamed) as [Hsound _].
  apply list_elem_of_omap in Hcopy as (v & (names & node & Hnode & ->)%Hsound & Hcopy).
  revert Hcopy. unfold assetCopy, entryAt. simpl.
  destruct node as [content|]; [|done]. simpl.
  destruct names as [|name names _] using rev_ind.
  { simpl in Hnode. injection Hnode as ->. done. }
  pose proof (lookup_valid _ dir _ Hnamed Hnode) as Hvalid.
  rewrite (ReadFile_below wd dir _ content Hdir Hnamed Hnode).
  destruct (strings.HasSuffix (below "notes" (names ++ [name])) ".md") eqn:Hmd;
    [done|].
  destruct content as [input|e]; [|done].
  rewrite Rel_below by (done || by destruct names). intros [= <- <-].
  exists names, name. repeat split; try done.
  apply not_true_is_false. intros Hname. rewrite below_snoc in Hmd.
  by rewrite (HasSuffix_Join _ _ _ Hname) in Hmd.
Qed.

Lemma note_assets_copied_witness :
  ∃ names name,
    os.lookup (default (File (inl "")) (os.lookup exampleDir ["notes"]))
      (names ++ [name]) = Some (File (inl "{}"))
    ∧ strings.HasSuffix name ".md" = false
    ∧ "public/notes/.obsidian/app.json"
      = filepath.Join (filepath.Join "public" "notes")
          (strings.Join (names ++ [name]) "/").
Proof.
  refine (proj2
    (note_assets_copied exampleDir plainMarkdown exampleCfg
       (default (File (inl "")) (os.lookup exampleDir ["notes"]))
       "public/notes/.obsidian/app.json" "{}" _ _ _) _).
  - vm_compute. reflexivity.
  - vm_compute. reflexivity.
  - vm_compute. reflexivity.
  - apply list_elem_of_In. vm_compute. by left.
Defined.
